(** * Subagent runner: the event reducer and the process lifecycle of
      [runSubagent] (src/pi-extensions/subagents/index.ts, second module:
      runner), together with the part of the tool wrapper [execute] that
      consumes its outcome.

    The runner is TypeScript on Node.js.  It is embedded shallowly:

    - JavaScript strings are sequences of UTF-16 code units ([jsstring]);
    - the values produced by [JSON.parse] are the inductive type [json];
      property reads, truthiness, [typeof] and the string conversions the
      source applies to them are written out, and a read that raises a
      [TypeError] in JavaScript is a [None];
    - the closure variables of [runSubagent] are the fields of the records
      [reducer] and [machine]; every event listener is a function from
      state to state, and a run is the fold of the listeners over a trace
      of events;
    - the built-ins whose exact behaviour is outside the repository
      ([JSON.parse], [JSON.stringify], number printing, [Buffer.toString],
      [toLowerCase], [path.join]) are the operations of the class [Host]. *)

From Stdlib Require Import ZArith NArith List String Ascii Bool Lia.
From stdpp Require Import base decidable countable list gmap.

#[local] Set Warnings "-register-all".
Local Open Scope N_scope.

(** ** Strings *)

(** A JavaScript string: UTF-16 code units. *)
Abbreviation jsstring := (list N).

(** An ASCII literal as a JavaScript string. *)
Definition js (s : string) : jsstring :=
  List.map N_of_ascii (list_ascii_of_string s).

(** WhiteSpace and LineTerminator code points of ECMAScript, the ones
    [String.prototype.trim] strips. *)
Definition is_js_space (c : N) : bool :=
  (c =? 9) || (c =? 10) || (c =? 11) || (c =? 12) || (c =? 13) ||
  (c =? 32) || (c =? 160) || (c =? 5760) ||
  ((8192 <=? c) && (c <=? 8202)) ||
  (c =? 8232) || (c =? 8233) || (c =? 8239) || (c =? 8287) ||
  (c =? 12288) || (c =? 65279).

Fixpoint trimStart (s : jsstring) : jsstring :=
  match s with
  | c :: r => if is_js_space c then trimStart r else s
  | [] => []
  end.

(** [s.trim()] *)
Definition trim (s : jsstring) : jsstring :=
  rev (trimStart (rev (trimStart s))).

(** A string used as a condition: the empty string is falsy. *)
Definition nonempty (s : jsstring) : bool :=
  match s with [] => false | _ => true end.

(** [xs.join(sep)] on an array of strings. *)
Fixpoint join (sep : jsstring) (xs : list jsstring) : jsstring :=
  match xs with
  | [] => []
  | [x] => x
  | x :: r => x ++ sep ++ join sep r
  end.

Definition LF : N := 10.

(** [s.split("\n")]: the segments between line feeds; never empty. *)
Fixpoint split_lf (s : jsstring) : list jsstring :=
  match s with
  | [] => [[]]
  | c :: r =>
      if c =? LF then [] :: split_lf r
      else match split_lf r with
           | h :: t => (c :: h) :: t
           | [] => [[c]]
           end
  end.

(** [lines.pop()]: the array without its last element, and that element
    ([undefined] on an empty array). *)
Definition pop {A} (xs : list A) : list A * option A :=
  (removelast xs, last xs).

(** [hay.includes(needle)] *)
Fixpoint startsWith (needle hay : jsstring) : bool :=
  match needle, hay with
  | [], _ => true
  | n :: ns, h :: hs => (n =? h) && startsWith ns hs
  | _ :: _, [] => false
  end.

Fixpoint includes (hay needle : jsstring) : bool :=
  startsWith needle hay ||
  match hay with
  | [] => false
  | _ :: r => includes r needle
  end.

(** ** JSON values *)

(** What [JSON.parse] returns.  A number is the finite double
    [m * 2^e], in the one form the host has for each double; an object
    lists its members in source order. *)
Inductive json : Type :=
| JNull
| JBool (b : bool)
| JNum (m e : Z)
| JStr (s : jsstring)
| JArr (xs : list json)
| JObj (members : list (jsstring * json)).

(** A JavaScript value read from such data: [None] is [undefined]. *)
Abbreviation jsvalue := (option json).

(** Own-property lookup; of duplicate member names the last one wins, as
    in [JSON.parse]. *)
Fixpoint obj_get (members : list (jsstring * json)) (k : jsstring) : jsvalue :=
  match members with
  | [] => None
  | (k', v) :: r =>
      match obj_get r k with
      | Some v' => Some v'
      | None => if bool_decide (k' = k) then Some v else None
      end
  end.

(** [v.k] for a non-null [v] and a member name [k] that no prototype
    defines (all the names the runner reads are such): primitives and
    arrays have no such property. *)
Definition get_prop (v : json) (k : string) : jsvalue :=
  match v with
  | JObj members => obj_get members (js k)
  | _ => None
  end.

(** ToBoolean *)
Definition truthy (v : jsvalue) : bool :=
  match v with
  | None | Some JNull => false
  | Some (JBool b) => b
  | Some (JNum m _) => negb (m =? 0)%Z
  | Some (JStr s) => nonempty s
  | Some (JArr _) | Some (JObj _) => true
  end.

(** [typeof v === "object" && v !== null] *)
Definition is_object (v : jsvalue) : bool :=
  match v with
  | Some (JArr _) | Some (JObj _) => true
  | _ => false
  end.

(** [v === "..."] against a string literal. *)
Definition is_str (v : jsvalue) (s : string) : bool :=
  match v with
  | Some (JStr t) => bool_decide (t = js s)
  | _ => false
  end.

(** ** The set of seen tool-call keys

    [seenToolCalls] is a [Set]: membership is SameValueZero.  Primitive
    keys are compared by value; an array or object is compared by
    identity, and the runner only ever sees freshly parsed ones, so such a
    key is never found and adding it changes no later lookup. *)
Inductive setkey : Type :=
| KNull
| KBool (b : bool)
| KNum (m e : Z)
| KStr (s : jsstring).

#[global] Instance setkey_eq_dec : EqDecision setkey.
Proof. solve_decision. Defined.

Definition setkey_encode (k : setkey) : (unit + bool) + ((Z * Z) + jsstring) :=
  match k with
  | KNull => inl (inl tt)
  | KBool b => inl (inr b)
  | KNum m e => inr (inl (m, e))
  | KStr s => inr (inr s)
  end.

Definition setkey_decode (x : (unit + bool) + ((Z * Z) + jsstring)) : setkey :=
  match x with
  | inl (inl _) => KNull
  | inl (inr b) => KBool b
  | inr (inl (m, e)) => KNum m e
  | inr (inr s) => KStr s
  end.

#[global] Instance setkey_countable : Countable setkey.
Proof.
  apply (inj_countable' setkey_encode setkey_decode).
  intros []; reflexivity.
Defined.

Definition prim_key (k : json) : option setkey :=
  match k with
  | JNull => Some KNull
  | JBool b => Some (KBool b)
  | JNum m e => Some (KNum m e)
  | JStr s => Some (KStr s)
  | JArr _ | JObj _ => None
  end.

(** [seen.has(key)] *)
Definition seen_has (seen : gset setkey) (key : json) : bool :=
  match prim_key key with
  | Some k => bool_decide (k ∈ seen)
  | None => false
  end.

(** [seen.add(key)] *)
Definition seen_add (seen : gset setkey) (key : json) : gset setkey :=
  match prim_key key with
  | Some k => {[ k ]} ∪ seen
  | None => seen
  end.

(** ** The host's built-ins *)

Definition ascii_lower (c : N) : N :=
  if (65 <=? c) && (c <=? 90) then c + 32 else c.

Class Host : Type := {
  (** [JSON.parse]; [None] when it throws a SyntaxError *)
  JSON_parse : jsstring -> option json;
  (** [JSON.stringify] *)
  JSON_stringify : json -> jsstring;
  (** Number::toString of the double [m * 2^e] *)
  Number_toString : Z -> Z -> jsstring;
  (** [Buffer.prototype.toString()]: UTF-8 decoding of one chunk *)
  Buffer_toString : list Byte.byte -> jsstring;
  (** [String.prototype.toLowerCase] *)
  String_toLowerCase : jsstring -> jsstring;
  (** [path.join] of a directory and a file name *)
  path_join : jsstring -> jsstring -> jsstring;
  (** on ASCII text lower-casing maps A-Z to a-z and nothing else *)
  toLowerCase_ascii : forall s,
    Forall (fun c => c < 128) s ->
    String_toLowerCase s = List.map ascii_lower s
}.

(** interface SubagentToolCall *)
Record SubagentToolCall : Type := {
  id : jsvalue;
  name : jsvalue;
  arguments : json
}.

(** ** The reducer: the closure variables [processLine] updates *)

(** The argument of one [onProgress] call. *)
Record snapshot : Type := {
  snap_text : jsstring;
  snap_toolCalls : list SubagentToolCall;
  snap_model : jsvalue;
  snap_stopReason : jsvalue
}.

Record reducer : Type := {
  messages : list json;
  toolCalls : list SubagentToolCall;
  seenToolCalls : gset setkey;
  finalText : jsstring;
  stopReason : jsvalue;
  errorMessage : jsvalue;
  model : jsvalue;
  (** the [onProgress] calls made so far, oldest first *)
  notified : list snapshot
}.

Definition reducer_init : reducer :=
  {| messages := []; toolCalls := []; seenToolCalls := ∅; finalText := [];
     stopReason := None; errorMessage := None; model := None;
     notified := [] |}.

Definition push_message (m : json) (r : reducer) : reducer :=
  {| messages := messages r ++ [m]; toolCalls := toolCalls r;
     seenToolCalls := seenToolCalls r; finalText := finalText r;
     stopReason := stopReason r; errorMessage := errorMessage r;
     model := model r; notified := notified r |}.

Definition record_call (key : json) (call : SubagentToolCall) (r : reducer)
  : reducer :=
  {| messages := messages r; toolCalls := toolCalls r ++ [call];
     seenToolCalls := seen_add (seenToolCalls r) key; finalText := finalText r;
     stopReason := stopReason r; errorMessage := errorMessage r;
     model := model r; notified := notified r |}.

Definition set_finalText (t : jsstring) (r : reducer) : reducer :=
  {| messages := messages r; toolCalls := toolCalls r;
     seenToolCalls := seenToolCalls r; finalText := t;
     stopReason := stopReason r; errorMessage := errorMessage r;
     model := model r; notified := notified r |}.

Definition set_stopReason (v : jsvalue) (r : reducer) : reducer :=
  {| messages := messages r; toolCalls := toolCalls r;
     seenToolCalls := seenToolCalls r; finalText := finalText r;
     stopReason := v; errorMessage := errorMessage r;
     model := model r; notified := notified r |}.

Definition set_errorMessage (v : jsvalue) (r : reducer) : reducer :=
  {| messages := messages r; toolCalls := toolCalls r;
     seenToolCalls := seenToolCalls r; finalText := finalText r;
     stopReason := stopReason r; errorMessage := v;
     model := model r; notified := notified r |}.

Definition set_model (v : jsvalue) (r : reducer) : reducer :=
  {| messages := messages r; toolCalls := toolCalls r;
     seenToolCalls := seenToolCalls r; finalText := finalText r;
     stopReason := stopReason r; errorMessage := errorMessage r;
     model := v; notified := notified r |}.

(** [emitProgress]: [options.onProgress?.(...)] with a copy of the tool
    calls; [onProgress] tells whether the caller supplied a callback. *)
Definition emitProgress (onProgress : bool) (r : reducer) : reducer :=
  if onProgress then
    {| messages := messages r; toolCalls := toolCalls r;
       seenToolCalls := seenToolCalls r; finalText := finalText r;
       stopReason := stopReason r; errorMessage := errorMessage r;
       model := model r;
       notified := notified r ++
         [{| snap_text := finalText r; snap_toolCalls := toolCalls r;
             snap_model := model r; snap_stopReason := stopReason r |}] |}
  else r.

(** How a listener ends: normally, or by an exception nobody catches. *)
Inductive completion : Type := Normal | Uncaught.

(** ** A run: options, outcome, world, events, effects *)

Module Options.
(** interface RunSubagentOptions.  [signal] is [None] when the caller
    passes no AbortSignal, else [Some b] with [b] the value of
    [signal.aborted] when [runSubagent] is called; [onProgress] tells
    whether a callback is supplied. *)
Record t : Type := {
  cwd : jsstring;
  task : jsstring;
  systemPrompt : jsstring;
  model : option jsstring;
  tools : option (list jsstring);
  signal : option bool;
  onProgress : bool
}.
End Options.

Module Result.
(** interface RunSubagentResult *)
Record t : Type := {
  exitCode : Z;
  stderr : jsstring;
  messages : list json;
  finalText : jsstring;
  toolCalls : list SubagentToolCall;
  stopReason : jsvalue;
  errorMessage : jsvalue;
  model : jsvalue
}.
End Result.

(** How the promise returned by [runSubagent] stands. *)
Inductive outcome : Type :=
| Pending
| Returned (r : Result.t)
| Threw (message : jsstring).

Inductive fs_result (A : Type) : Type :=
| FsOk (a : A)
| FsError (message : jsstring).
Arguments FsOk {A} a.
Arguments FsError {A} message.

(** A call in a [try] with an empty [catch]: did it succeed? *)
Definition fs_ok {A} (r : fs_result A) : bool :=
  match r with FsOk _ => true | FsError _ => false end.

(** What [spawn] does: the child runs; it cannot be started and an
    'error' event will report it; or [spawn] itself throws. *)
Inductive spawn_result : Type :=
| Spawned
| SpawnFails
| SpawnThrows (message : jsstring).

(** The operating system as the run meets it. *)
Record world : Type := {
  os_tmpdir : jsstring;
  mkdtempSync : jsstring -> fs_result jsstring;
  writeFileSync : jsstring -> jsstring -> fs_result unit;
  unlinkSync : jsstring -> fs_result unit;
  rmdirSync : jsstring -> fs_result unit;
  spawn : spawn_result
}.

Inductive signal_name : Type := SIGTERM | SIGKILL.

(** What the event loop delivers to the run, in order.  [ProcExit] is
    the end of the child process itself (Node releases its handle; the
    runner does not listen to 'exit'); [ProcClose] is the 'close' event,
    after the output streams have ended; [Elapse] lets time pass. *)
Inductive event : Type :=
| StdoutData (data : list Byte.byte)
| StderrData (data : list Byte.byte)
| ProcExit
| ProcClose (code : option Z)
| ProcError (name message : jsstring)
| SignalAbort
| Elapse (ms : N).

(** The effects of a run on the world, oldest first. *)
Inductive action : Type :=
| DoMkdtemp (dir : jsstring)
| DoWriteFile (file data : jsstring)
| DoSpawn (args : list jsstring) (cwd : jsstring)
| DoKill (sig : signal_name) (delivered : bool)
| DoSetTimeout (ms : N)
| DoResolve (code : Z)
| DoUnlink (file : jsstring) (ok : bool)
| DoRmdir (dir : jsstring) (ok : bool).

(** The variables of one call of [runSubagent] and of the objects it
    holds. *)
Record machine : Type := {
  red : reducer;
  stderr : jsstring;
  aborted : bool;
  settled : bool;
  buffer : jsstring;
  (** the handle of the child still takes a signal *)
  alive : bool;
  (** [proc.killed]: a [proc.kill] call has delivered a signal *)
  killed : bool;
  (** the once-listener for 'abort' is still registered *)
  listening : bool;
  (** milliseconds left for each pending [setTimeout] callback *)
  timers : list N;
  (** a listener threw; the exception is nobody's to catch *)
  crashed : bool;
  promptFile : option (jsstring * jsstring);
  log : list action;
  result : outcome
}.

(** Assignments to one variable of the run. *)
Definition set_red (v : reducer) (m : machine) : machine :=
  {| red := v; stderr := stderr m; aborted := aborted m;
     settled := settled m; buffer := buffer m; alive := alive m;
     killed := killed m; listening := listening m; timers := timers m;
     crashed := crashed m; promptFile := promptFile m; log := log m;
     result := result m |}.

Definition set_stderr (v : jsstring) (m : machine) : machine :=
  {| red := red m; stderr := v; aborted := aborted m;
     settled := settled m; buffer := buffer m; alive := alive m;
     killed := killed m; listening := listening m; timers := timers m;
     crashed := crashed m; promptFile := promptFile m; log := log m;
     result := result m |}.

Definition set_aborted (v : bool) (m : machine) : machine :=
  {| red := red m; stderr := stderr m; aborted := v;
     settled := settled m; buffer := buffer m; alive := alive m;
     killed := killed m; listening := listening m; timers := timers m;
     crashed := crashed m; promptFile := promptFile m; log := log m;
     result := result m |}.

Definition set_settled (v : bool) (m : machine) : machine :=
  {| red := red m; stderr := stderr m; aborted := aborted m;
     settled := v; buffer := buffer m; alive := alive m;
     killed := killed m; listening := listening m; timers := timers m;
     crashed := crashed m; promptFile := promptFile m; log := log m;
     result := result m |}.

Definition set_buffer (v : jsstring) (m : machine) : machine :=
  {| red := red m; stderr := stderr m; aborted := aborted m;
     settled := settled m; buffer := v; alive := alive m;
     killed := killed m; listening := listening m; timers := timers m;
     crashed := crashed m; promptFile := promptFile m; log := log m;
     result := result m |}.

Definition set_alive (v : bool) (m : machine) : machine :=
  {| red := red m; stderr := stderr m; aborted := aborted m;
     settled := settled m; buffer := buffer m; alive := v;
     killed := killed m; listening := listening m; timers := timers m;
     crashed := crashed m; promptFile := promptFile m; log := log m;
     result := result m |}.

Definition set_killed (v : bool) (m : machine) : machine :=
  {| red := red m; stderr := stderr m; aborted := aborted m;
     settled := settled m; buffer := buffer m; alive := alive m;
     killed := v; listening := listening m; timers := timers m;
     crashed := crashed m; promptFile := promptFile m; log := log m;
     result := result m |}.

Definition set_listening (v : bool) (m : machine) : machine :=
  {| red := red m; stderr := stderr m; aborted := aborted m;
     settled := settled m; buffer := buffer m; alive := alive m;
     killed := killed m; listening := v; timers := timers m;
     crashed := crashed m; promptFile := promptFile m; log := log m;
     result := result m |}.

Definition set_timers (v : list N) (m : machine) : machine :=
  {| red := red m; stderr := stderr m; aborted := aborted m;
     settled := settled m; buffer := buffer m; alive := alive m;
     killed := killed m; listening := listening m; timers := v;
     crashed := crashed m; promptFile := promptFile m; log := log m;
     result := result m |}.

Definition set_crashed (v : bool) (m : machine) : machine :=
  {| red := red m; stderr := stderr m; aborted := aborted m;
     settled := settled m; buffer := buffer m; alive := alive m;
     killed := killed m; listening := listening m; timers := timers m;
     crashed := v; promptFile := promptFile m; log := log m;
     result := result m |}.

Definition set_log (v : list action) (m : machine) : machine :=
  {| red := red m; stderr := stderr m; aborted := aborted m;
     settled := settled m; buffer := buffer m; alive := alive m;
     killed := killed m; listening := listening m; timers := timers m;
     crashed := crashed m; promptFile := promptFile m; log := v;
     result := result m |}.

Definition set_result (v : outcome) (m : machine) : machine :=
  {| red := red m; stderr := stderr m; aborted := aborted m;
     settled := settled m; buffer := buffer m; alive := alive m;
     killed := killed m; listening := listening m; timers := timers m;
     crashed := crashed m; promptFile := promptFile m; log := log m;
     result := v |}.

(** An effect on the world, written to the log. *)
Definition effect (a : action) (m : machine) : machine :=
  set_log (log m ++ [a]) m.

(** The message of the error an aborted run throws. *)
Definition abort_message : jsstring := js "Subagent aborted".

Section Runner.

Context `{H : Host}.

(** All the results, when every one is there. *)
Fixpoint all_of {A} (xs : list (option A)) : option (list A) :=
  match xs with
  | [] => Some []
  | x :: r =>
      match x, all_of r with
      | Some a, Some l => Some (a :: l)
      | _, _ => None
      end
  end.

(** ToString of a JSON value, as template literals and [Array.join]
    apply it; [None] is a TypeError.  An object is printed by the
    [toString] it finds: [Object.prototype.toString] when it has no
    member of that name, which gives "[object Object]".  A member named
    "toString" hides that method and, being parsed from JSON, is no
    function; [valueOf] then is no function either or returns the object
    itself, so the object has no primitive value and ToString throws.
    An array is printed by [join], which prints its elements, [null] as
    the empty string. *)
Fixpoint ToString (v : json) : option jsstring :=
  match v with
  | JNull => Some (js "null")
  | JBool true => Some (js "true")
  | JBool false => Some (js "false")
  | JNum m e => Some (Number_toString m e)
  | JStr s => Some s
  | JArr xs =>
      match all_of (List.map (fun x => match x with
                                       | JNull => Some []
                                       | _ => ToString x
                                       end) xs) with
      | Some printed => Some (join (js ",") printed)
      | None => None
      end
  | JObj members =>
      match obj_get members (js "toString") with
      | Some _ => None
      | None => Some (js "[object Object]")
      end
  end.

Definition ToString_value (v : jsvalue) : option jsstring :=
  match v with
  | None => Some (js "undefined")
  | Some j => ToString j
  end.

(** An element of an array being joined: [undefined] and [null] print as
    the empty string. *)
Definition join_element (v : jsvalue) : option jsstring :=
  match v with
  | None | Some JNull => Some []
  | Some j => ToString j
  end.

(** ** Reading messages *)

Definition role_is_assistant (message : json) : bool :=
  is_str (get_prop message "role") "assistant".

(** The loop of [extractAssistantToolCalls] over the content parts.
    Reading [part.type] of a [null] part raises a TypeError. *)
Fixpoint toolCalls_of_parts (parts : list json) : option (list SubagentToolCall) :=
  match parts with
  | [] => Some []
  | JNull :: _ => None
  | part :: r =>
      match toolCalls_of_parts r with
      | None => None
      | Some calls =>
          if is_str (get_prop part "type") "toolCall" then
            Some ({| id := get_prop part "id";
                     name := get_prop part "name";
                     arguments :=
                       if is_object (get_prop part "arguments")
                       then default (JObj []) (get_prop part "arguments")
                       else JObj [] |} :: calls)
          else Some calls
      end
  end.

(** [extractAssistantToolCalls]; [None] is a TypeError.  Iterating a
    string content yields one-character strings, none of them a tool
    call; any other non-array content is not iterable. *)
Definition extractAssistantToolCalls (message : json)
  : option (list SubagentToolCall) :=
  if negb (role_is_assistant message) then Some []
  else match get_prop message "content" with
       | Some (JArr parts) => toolCalls_of_parts parts
       | Some (JStr _) => Some []
       | _ => None
       end.

(** The text parts selected by [filter], mapped to their [text]. *)
Fixpoint texts_of_parts (parts : list json) : option (list jsvalue) :=
  match parts with
  | [] => Some []
  | JNull :: _ => None
  | part :: r =>
      match texts_of_parts r with
      | None => None
      | Some ts =>
          if is_str (get_prop part "type") "text"
          then Some (get_prop part "text" :: ts)
          else Some ts
      end
  end.

(** [extractAssistantText]; [None] is a TypeError: [filter] exists on
    arrays only, and [join] throws on a text it cannot print. *)
Definition extractAssistantText (message : json) : option jsstring :=
  if negb (role_is_assistant message) then Some []
  else match get_prop message "content" with
       | Some (JArr parts) =>
           match texts_of_parts parts with
           | Some ts =>
               match all_of (List.map join_element ts) with
               | Some printed => Some (trim (join [LF] printed))
               | None => None
               end
           | None => None
           end
       | _ => None
       end.

(** The dedup key of a call: its [id] when truthy, else
    [`${call.name}:${JSON.stringify(call.arguments)}`]; [None] is the
    TypeError of a name that cannot be printed. *)
Definition call_key (call : SubagentToolCall) : option json :=
  if truthy (id call) then Some (default JNull (id call))
  else match ToString_value (name call) with
       | Some printed =>
           Some (JStr (printed ++ js ":" ++ JSON_stringify (arguments call)))
       | None => None
       end.

(** The [for (const call of messageToolCalls)] loop, threading
    [changed]; an exception leaves the loop with the calls recorded so
    far. *)
Fixpoint record_calls (calls : list SubagentToolCall) (changed : bool)
  (r : reducer) : reducer * bool * completion :=
  match calls with
  | [] => (r, changed, Normal)
  | call :: rest =>
      match call_key call with
      | None => (r, changed, Uncaught)
      | Some key =>
          if seen_has (seenToolCalls r) key then record_calls rest changed r
          else record_calls rest true (record_call key call r)
      end
  end.

(** The statements of [processLine] after [messages.push(message)] for an
    assistant message. *)
Definition apply_assistant (onProgress : bool) (message : json) (r : reducer)
  : reducer * completion :=
  match extractAssistantToolCalls message with
  | None => (r, Uncaught)
  | Some messageToolCalls =>
      match record_calls messageToolCalls false r with
      | (r1, _, Uncaught) => (r1, Uncaught)
      | (r1, changed1, Normal) =>
      match extractAssistantText message with
      | None => (r1, Uncaught)
      | Some text =>
          let '(r2, changed2) :=
            if nonempty text then (set_finalText text r1, true)
            else (r1, changed1) in
          let '(r3, changed3) :=
            if truthy (get_prop message "stopReason")
            then (set_stopReason (get_prop message "stopReason") r2, true)
            else (r2, changed2) in
          let r4 :=
            if truthy (get_prop message "errorMessage")
            then set_errorMessage (get_prop message "errorMessage") r3
            else r3 in
          let r5 :=
            if truthy (get_prop message "model")
            then set_model (get_prop message "model") r4
            else r4 in
          (if changed3 then emitProgress onProgress r5 else r5, Normal)
      end
      end
  end.

(** The decoding part of [processLine]: the message of a line that is a
    [message_end] event, [None] for every line the runner ignores. *)
Definition decode (line : jsstring) : option json :=
  let trimmed := trim line in
  if negb (nonempty trimmed) then None
  else match JSON_parse trimmed with
       | None => None
       | Some event =>
           if negb (truthy (Some event)) || negb (is_object (Some event))
           then None
           else if negb (is_str (get_prop event "type") "message_end")
                   || negb (truthy (get_prop event "message"))
           then None
           else get_prop event "message"
       end.

Definition processLine (onProgress : bool) (line : jsstring) (r : reducer)
  : reducer * completion :=
  match decode line with
  | None => (r, Normal)
  | Some message =>
      let r1 := push_message message r in
      if negb (role_is_assistant message) then (r1, Normal)
      else apply_assistant onProgress message r1
  end.

(** The primitive dedup keys of recorded calls, and how often a key is
    recorded. *)
Definition key_of (c : SubagentToolCall) : option setkey :=
  match call_key c with
  | Some key => prim_key key
  | None => None
  end.

Definition recorded_keys (calls : list SubagentToolCall) : list setkey :=
  omap key_of calls.

Definition times_recorded (k : setkey) (calls : list SubagentToolCall) : nat :=
  length (filter (fun c => key_of c = Some k) calls).

(** [seenToolCalls] holds the primitive keys of the recorded calls, each
    recorded once. *)
Definition seen_inv (r : reducer) : Prop :=
  NoDup (recorded_keys (toolCalls r)) /\
  forall k, k ∈ seenToolCalls r <-> k ∈ recorded_keys (toolCalls r).

(** ** The listeners of [runSubagent] *)

Section Run.

Variable w : world.
Variable options : Options.t.

(** [for (const line of lines) processLine(line)]; an exception leaves
    the loop and the listener. *)
Fixpoint processLines (lines : list jsstring) (m : machine) : machine :=
  match lines with
  | [] => m
  | line :: rest =>
      match processLine (Options.onProgress options) line (red m) with
      | (r, Normal) => processLines rest (set_red r m)
      | (r, Uncaught) => set_crashed true (set_red r m)
      end
  end.

(** The lines one 'data' event completes, and the tail kept in
    [buffer]. *)
Definition feed (buffer : jsstring) (chunk : jsstring)
  : list jsstring * jsstring :=
  let '(lines, tail) := pop (split_lf (buffer ++ chunk)) in
  (lines, default [] tail).

(** proc.stdout.on("data", ...) *)
Definition on_stdout (data : list Byte.byte) (m : machine) : machine :=
  let '(lines, tail) := feed (buffer m) (Buffer_toString data) in
  processLines lines (set_buffer tail m).

(** proc.stderr.on("data", ...) *)
Definition on_stderr (data : list Byte.byte) (m : machine) : machine :=
  set_stderr (stderr m ++ Buffer_toString data) m.

(** The [finally] block: each removal in a [try] of its own, whose
    [catch] is empty. *)
Definition cleanup (m : machine) : machine :=
  match promptFile m with
  | None => m
  | Some (dir, file) =>
      let m1 := effect (DoUnlink file (fs_ok (unlinkSync w file))) m in
      effect (DoRmdir dir (fs_ok (rmdirSync w dir))) m1
  end.

(** What follows [await] once the promise is resolved with [code]: the
    [aborted] test, the result record, the [finally] block. *)
Definition continuation (code : Z) (m : machine) : machine :=
  let out :=
    if aborted m then Threw abort_message
    else Returned
           {| Result.exitCode := code;
              Result.stderr := stderr m;
              Result.messages := messages (red m);
              Result.finalText := finalText (red m);
              Result.toolCalls := toolCalls (red m);
              Result.stopReason := stopReason (red m);
              Result.errorMessage := errorMessage (red m);
              Result.model := model (red m) |} in
  cleanup (set_result out m).

(** [resolveOnce].  Both listeners that call it end with the call, so
    the continuation of [await], the next microtask, finds the variables
    as the call leaves them. *)
Definition resolveOnce (code : Z) (m : machine) : machine :=
  if settled m then m
  else continuation code (effect (DoResolve code) (set_settled true m)).

(** proc.on("close", ...) *)
Definition on_close (code : option Z) (m : machine) : machine :=
  let m1 :=
    if nonempty (trim (buffer m)) then processLines [buffer m] m else m in
  if crashed m1 then m1 else resolveOnce (default 0%Z code) m1.

(** proc.on("error", ...) *)
Definition on_error (name message : jsstring) (m : machine) : machine :=
  let m1 := set_red (set_errorMessage (Some (JStr message)) (red m)) m in
  let m2 := set_stderr (stderr m1 ++ name ++ js ": " ++ message) m1 in
  resolveOnce 1%Z m2.

(** [proc.kill(sig)] of Node's ChildProcess.  While the child can be
    signalled the signal is sent and [proc.killed] becomes true: Node
    documents [killed] as telling that a signal was successfully sent by
    [kill], not that the child has terminated.  Once the child is gone
    the call sends nothing, returns false and leaves [killed] alone. *)
Definition proc_kill (sig : signal_name) (m : machine) : machine :=
  if alive m then set_killed true (effect (DoKill sig true) m)
  else effect (DoKill sig false) m.

Definition grace_ms : N := 2000.

(** The closure [kill] of [runSubagent]. *)
Definition kill (m : machine) : machine :=
  let m1 := set_aborted true m in
  let m2 := proc_kill SIGTERM m1 in
  effect (DoSetTimeout grace_ms) (set_timers (timers m2 ++ [grace_ms]) m2).

(** The callback given to [setTimeout]. *)
Definition on_timeout (m : machine) : machine :=
  if negb (killed m) then proc_kill SIGKILL m else m.

(** The 'abort' event of the signal; the listener is registered with
    [once]. *)
Definition on_abort (m : machine) : machine :=
  if listening m then kill (set_listening false m) else m.

(** [ms] milliseconds pass: the callbacks that are due run, oldest
    first; all timers of a run have the same delay. *)
Fixpoint run_timers (ms : N) (pending : list N) (m : machine) : machine :=
  match pending with
  | [] => m
  | t :: rest =>
      if t <=? ms then run_timers ms rest (on_timeout m)
      else let m' := run_timers ms rest m in
           set_timers ((t - ms) :: timers m') m'
  end.

Definition on_elapse (ms : N) (m : machine) : machine :=
  run_timers ms (timers m) (set_timers [] m).

(** When the child could not be started, Node releases the handle in
    the turn that emits the 'error' event of the failure; an 'error'
    event of a child that runs leaves the handle alone. *)
Definition release (m : machine) : machine :=
  match spawn w with
  | SpawnFails => set_alive false m
  | _ => m
  end.

(** One turn of the event loop.  After an uncaught exception the host
    process is gone.  Node emits 'close' after the child has ended, so
    [ProcClose] finds the child gone even when the trace has no
    [ProcExit] before it. *)
Definition step (m : machine) (e : event) : machine :=
  if crashed m then m
  else match e with
       | StdoutData data => on_stdout data m
       | StderrData data => on_stderr data m
       | ProcExit => set_alive false m
       | ProcClose code => on_close code (set_alive false m)
       | ProcError name message => on_error name message (release m)
       | SignalAbort => on_abort m
       | Elapse ms => on_elapse ms m
       end.

(** ** [createPromptFile] and [runSubagent] *)

(** [createPromptFile]: the prompt file, if any, with the effects made;
    an error of the file system propagates. *)
Definition createPromptFile (prompt : jsstring)
  : fs_result (option (jsstring * jsstring)) * list action :=
  if negb (nonempty (trim prompt)) then (FsOk None, [])
  else match mkdtempSync w (path_join (os_tmpdir w) (js "pi-subagent-")) with
       | FsError e => (FsError e, [])
       | FsOk dir =>
           let file := path_join dir (js "system-prompt.md") in
           match writeFileSync w file prompt with
           | FsError e => (FsError e, [DoMkdtemp dir])
           | FsOk _ =>
               (FsOk (Some (dir, file)),
                [DoMkdtemp dir; DoWriteFile file prompt])
           end
       end.

(** The command line of the child. *)
Definition args_of (pf : option (jsstring * jsstring)) : list jsstring :=
  [js "--mode"; js "json"; js "-p"; js "--no-session"]
  ++ match Options.model options with
     | Some mdl => if nonempty mdl then [js "--model"; mdl] else []
     | None => []
     end
  ++ match Options.tools options with
     | Some ts =>
         if (0 <? length ts)%nat then [js "--tools"; join (js ",") ts] else []
     | None => []
     end
  ++ match pf with
     | Some (_, file) => [js "--append-system-prompt"; file]
     | None => []
     end
  ++ [Options.task options].

Definition machine_init (pf : option (jsstring * jsstring))
  (done : list action) : machine :=
  {| red := reducer_init; stderr := []; aborted := false; settled := false;
     buffer := []; alive := false; killed := false; listening := false;
     timers := []; crashed := false; promptFile := pf; log := done;
     result := Pending |}.

(** The function given to [new Promise]: spawn the child, register the
    listeners, look at the signal.  When [spawn] throws, the promise is
    rejected, [await] rethrows and the [finally] block runs.  When the
    child cannot be started, [spawn] still returns a process object
    whose handle exists until the next turn of the loop: a [proc.kill]
    in this turn reports the signal as sent and sets [proc.killed]. *)
Definition executor (m : machine) : machine :=
  match spawn w with
  | SpawnThrows message => cleanup (set_result (Threw message) m)
  | _ =>
      let m1 :=
        effect (DoSpawn (args_of (promptFile m)) (Options.cwd options))
           (set_alive true m) in
      match Options.signal options with
      | None => m1
      | Some true => kill m1
      | Some false => set_listening true m1
      end
  end.

(** [runSubagent] up to its [await]. *)
Definition start : machine :=
  match createPromptFile (Options.systemPrompt options) with
  | (FsError e, done) => set_result (Threw e) (machine_init None done)
  | (FsOk pf, done) => executor (machine_init pf done)
  end.

(** A run of [runSubagent] against a trace of events: the state after
    the last of them, with the outcome of the promise in [result].  When
    the call has already failed no listener exists. *)
Definition runSubagent (trace : list event) : machine :=
  match result start with
  | Pending => fold_left step trace start
  | _ => start
  end.

(** The result as the caller reads it later: the returned object holds
    the arrays [messages] and [toolCalls] of the run themselves, not
    copies, so a listener that still runs shows through it. *)
Definition observed (m : machine) : outcome :=
  match result m with
  | Returned r =>
      Returned
        {| Result.exitCode := Result.exitCode r;
           Result.stderr := Result.stderr r;
           Result.messages := messages (red m);
           Result.finalText := Result.finalText r;
           Result.toolCalls := toolCalls (red m);
           Result.stopReason := Result.stopReason r;
           Result.errorMessage := Result.errorMessage r;
           Result.model := Result.model r |}
  | other => other
  end.

End Run.

(** ** The caller: [execute] of the subagent tools

    The [try]/[catch] around [await runSubagent(...)]: what the tool
    reports for an outcome of the run. *)

Record ToolReport : Type := {
  isError : bool;
  text : json;
  details_exitCode : Z;
  details_stopReason : jsvalue
}.

(** [a || b] on values. *)
Definition or_else (a : jsvalue) (b : json) : json :=
  if truthy a then default b a else b.

Definition execute_report (o : outcome) : option ToolReport :=
  match o with
  | Pending => None
  | Returned run =>
      let failed :=
        negb (Result.exitCode run =? 0)%Z
        || is_str (Result.stopReason run) "error"
        || is_str (Result.stopReason run) "aborted" in
      let stderr_text := Some (JStr (trim (Result.stderr run))) in
      let final := Some (JStr (Result.finalText run)) in
      let none := JStr (js "(no output)") in
      Some {| isError := failed;
              text :=
                if failed
                then or_else (Result.errorMessage run)
                       (or_else stderr_text (or_else final none))
                else or_else final
                       (or_else (Result.errorMessage run)
                          (or_else stderr_text none));
              details_exitCode := Result.exitCode run;
              details_stopReason := Result.stopReason run |}
  | Threw message =>
      let isAborted :=
        includes (String_toLowerCase message) (js "aborted") in
      Some {| isError := true;
              text := JStr message;
              details_exitCode := 1;
              details_stopReason :=
                Some (JStr (if isAborted then js "aborted" else js "error")) |}
  end.

End Runner.

(** ** Reading the log of effects *)

Definition is_resolve (a : action) : bool :=
  match a with DoResolve _ => true | _ => false end.

Definition is_cleanup (a : action) : bool :=
  match a with DoUnlink _ _ | DoRmdir _ _ => true | _ => false end.

Definition is_delivery (a : action) : bool :=
  match a with DoKill _ true => true | _ => false end.

(** How often the promise was resolved. *)
Definition resolves (l : list action) : nat :=
  length (List.filter is_resolve l).

(** The signals the child received, oldest first. *)
Definition delivered (l : list action) : list action :=
  List.filter is_delivery l.

(** What the [finally] block does for a prompt file. *)
Definition cleanup_actions (w : world) (pf : option (jsstring * jsstring))
  : list action :=
  match pf with
  | None => []
  | Some (dir, file) =>
      [DoUnlink file (fs_ok (unlinkSync w file));
       DoRmdir dir (fs_ok (rmdirSync w dir))]
  end.

(** Two worlds that differ at most in how removing a file or a
    directory ends. *)
Definition same_but_cleanup (w w' : world) : Prop :=
  os_tmpdir w' = os_tmpdir w /\ mkdtempSync w' = mkdtempSync w /\
  writeFileSync w' = writeFileSync w /\ spawn w' = spawn w.

(** ** Invariants of a run *)

(** What must hold of the control variables of a run, whatever the
    child writes. *)
Definition ctl_inv (w : world) (pf : option (jsstring * jsstring))
  (m : machine) : Prop :=
  promptFile m = pf /\
  (settled m = false ->
     result m = Pending /\ resolves (log m) = 0%nat /\
     List.filter is_cleanup (log m) = []) /\
  (settled m = true ->
     result m <> Pending /\ resolves (log m) = 1%nat /\
     List.filter is_cleanup (log m) = cleanup_actions w pf) /\
  (timers m <> [] -> killed m = true \/ alive m = false) /\
  Forall (fun a => a <> DoKill SIGKILL true) (log m) /\
  (aborted m = true -> listening m = false).

(** After [kill] the run can only end by throwing. *)
Definition doomed (m : machine) : Prop :=
  aborted m = true /\
  (settled m = false /\ result m = Pending \/
   settled m = true /\ result m = Threw abort_message).

(** ** The line framer over a whole stream *)

(** The lines the 'data' listener hands to [processLine] over a sequence
    of chunk texts, and the tail left in [buffer]. *)
Fixpoint feed_all (buffer : jsstring) (chunks : list jsstring)
  : list jsstring * jsstring :=
  match chunks with
  | [] => ([], buffer)
  | chunk :: rest =>
      let '(lines, tail) := feed buffer chunk in
      let '(lines', tail') := feed_all tail rest in
      (lines ++ lines', tail')
  end.

(** What the 'close' listener hands to [processLine]: the tail, unless
    it is blank. *)
Definition flushed (buffer : jsstring) : list jsstring :=
  if nonempty (trim buffer) then [buffer] else [].

(** Lines with their line feeds put back. *)
Definition terminated (lines : list jsstring) : jsstring :=
  List.concat (List.map (fun l => l ++ [LF]) lines).

(** No line feed occurs in the string. *)
Definition LF_free (s : jsstring) : Prop := LF ∉ s.

(** ** A reference host

    An instance of [Host] that computes, for closed examples.  Its UTF-8
    decoder is the one of the Encoding Standard, which [Buffer.toString]
    follows.  Its JSON reader and writer cover JSON whose numbers are
    integer literals below 2^53 (other numbers are rejected) and do not
    reorder member names that look like array indices; its
    [toLowerCase] is the ASCII one.  The theorems below hold for every
    host; only the closed examples use this one. *)

Module RefHost.

(** *** UTF-8 decoding *)

Record utf8_state : Type := {
  needed : N; seen : N; code_point : N; lower : N; upper : N
}.

Definition utf8_idle : utf8_state :=
  {| needed := 0; seen := 0; code_point := 0; lower := 128; upper := 191 |}.

(** A code point as UTF-16 code units. *)
Definition utf16 (cp : N) : jsstring :=
  if cp <? 65536 then [cp]
  else [55296 + (cp - 65536) / 1024; 56320 + (cp - 65536) mod 1024].

Definition replacement : N := 65533.

(** A byte met when no sequence is open. *)
Definition utf8_lead (b : N) : jsstring * utf8_state :=
  if b <=? 127 then ([b], utf8_idle)
  else if (194 <=? b) && (b <=? 223) then
    ([], {| needed := 1; seen := 0; code_point := N.land b 31;
            lower := 128; upper := 191 |})
  else if (224 <=? b) && (b <=? 239) then
    ([], {| needed := 2; seen := 0; code_point := N.land b 15;
            lower := if b =? 224 then 160 else 128;
            upper := if b =? 237 then 159 else 191 |})
  else if (240 <=? b) && (b <=? 244) then
    ([], {| needed := 3; seen := 0; code_point := N.land b 7;
            lower := if b =? 240 then 144 else 128;
            upper := if b =? 244 then 143 else 191 |})
  else ([replacement], utf8_idle).

Definition utf8_step (st : utf8_state) (b : N) : jsstring * utf8_state :=
  if needed st =? 0 then utf8_lead b
  else if (b <? lower st) || (upper st <? b) then
    let '(out, st') := utf8_lead b in (replacement :: out, st')
  else
    let cp := N.lor (N.shiftl (code_point st) 6) (N.land b 63) in
    if seen st + 1 =? needed st then (utf16 cp, utf8_idle)
    else ([], {| needed := needed st; seen := seen st + 1; code_point := cp;
                 lower := 128; upper := 191 |}).

Fixpoint utf8_run (st : utf8_state) (bytes : list Byte.byte) : jsstring :=
  match bytes with
  | [] => if needed st =? 0 then [] else [replacement]
  | b :: rest =>
      let '(out, st') := utf8_step st (Byte.to_N b) in
      out ++ utf8_run st' rest
  end.

Definition utf8_decode (bytes : list Byte.byte) : jsstring :=
  utf8_run utf8_idle bytes.

(** *** Numbers *)

(** The odd part and the exponent of two of a positive integer. *)
Fixpoint odd_part (p : positive) : positive * Z :=
  match p with
  | xO q => let '(m, e) := odd_part q in (m, (e + 1)%Z)
  | _ => (p, 0%Z)
  end.

Definition num_of_Z (z : Z) : json :=
  match z with
  | Z0 => JNum 0 0
  | Zpos p => let '(m, e) := odd_part p in JNum (Zpos m) e
  | Zneg p => let '(m, e) := odd_part p in JNum (Zneg m) e
  end.

Fixpoint digits_of (fuel : nat) (n : N) (acc : jsstring) : jsstring :=
  match fuel with
  | O => acc
  | S f =>
      let acc' := (48 + n mod 10) :: acc in
      if n <? 10 then acc' else digits_of f (n / 10) acc'
  end.

Definition print_N (n : N) : jsstring :=
  digits_of (S (N.to_nat (N.log2 n))) n [].

Definition print_Z (z : Z) : jsstring :=
  match z with
  | Zneg p => 45 :: print_N (Npos p)
  | _ => print_N (Z.to_N z)
  end.

Definition number_toString (m e : Z) : jsstring :=
  print_Z (if (0 <=? e)%Z then m * 2 ^ e else m / 2 ^ (- e))%Z.

(** *** Reading JSON *)

Definition is_json_ws (c : N) : bool :=
  (c =? 32) || (c =? 9) || (c =? 10) || (c =? 13).

Fixpoint skip_ws (s : jsstring) : jsstring :=
  match s with
  | c :: r => if is_json_ws c then skip_ws r else s
  | [] => []
  end.

(** [s] after the literal [lit], if it starts with it. *)
Fixpoint expect (lit s : jsstring) : option jsstring :=
  match lit, s with
  | [], _ => Some s
  | l :: ls, c :: r => if l =? c then expect ls r else None
  | _ :: _, [] => None
  end.

Definition hex_digit (c : N) : option N :=
  if (48 <=? c) && (c <=? 57) then Some (c - 48)
  else if (97 <=? c) && (c <=? 102) then Some (c - 87)
  else if (65 <=? c) && (c <=? 70) then Some (c - 55)
  else None.

Definition escape_of (c : N) : option N :=
  if c =? 34 then Some 34 else if c =? 92 then Some 92
  else if c =? 47 then Some 47 else if c =? 98 then Some 8
  else if c =? 102 then Some 12 else if c =? 110 then Some 10
  else if c =? 114 then Some 13 else if c =? 116 then Some 9
  else None.

(** The characters of a string literal after its opening quote. *)
Fixpoint read_string (fuel : nat) (s : jsstring) : option (jsstring * jsstring) :=
  match fuel with
  | O => None
  | S f =>
      match s with
      | [] => None
      | c :: r =>
          if c =? 34 then Some ([], r)
          else if c =? 92 then
            match r with
            | e :: r1 =>
                if e =? 117 then
                  match r1 with
                  | a :: b :: c' :: d :: r2 =>
                      match hex_digit a, hex_digit b, hex_digit c', hex_digit d with
                      | Some x3, Some x2, Some x1, Some x0 =>
                          match read_string f r2 with
                          | Some (t, rest) =>
                              Some (((x3 * 16 + x2) * 16 + x1) * 16 + x0 :: t, rest)
                          | None => None
                          end
                      | _, _, _, _ => None
                      end
                  | _ => None
                  end
                else match escape_of e, read_string f r1 with
                     | Some x, Some (t, rest) => Some (x :: t, rest)
                     | _, _ => None
                     end
            | [] => None
            end
          else if c <? 32 then None
          else match read_string f r with
               | Some (t, rest) => Some (c :: t, rest)
               | None => None
               end
      end
  end.

Definition is_digit (c : N) : bool := (48 <=? c) && (c <=? 57).

Fixpoint read_digits (s : jsstring) (acc : N) : N * jsstring :=
  match s with
  | c :: r => if is_digit c then read_digits r (acc * 10 + (c - 48)) else (acc, s)
  | [] => (acc, [])
  end.

(** An integer literal without sign; no leading zero, nothing of a
    fraction or an exponent after it, below 2^53. *)
Definition read_nat (s : jsstring) : option (N * jsstring) :=
  match s with
  | c :: r =>
      if negb (is_digit c) then None
      else
        let '(n, rest) := if c =? 48 then (0, r) else read_digits s 0 in
        match rest with
        | d :: _ =>
            if is_digit d || (d =? 46) || (d =? 101) || (d =? 69) then None
            else if n <? 2 ^ 53 then Some (n, rest) else None
        | [] => if n <? 2 ^ 53 then Some (n, rest) else None
        end
  | [] => None
  end.

(** The properties of the object a member list creates: a repeated
    name keeps its first place and takes the last value. *)
Fixpoint put_member (k : jsstring) (v : json) (ms : list (jsstring * json))
  : list (jsstring * json) :=
  match ms with
  | [] => [(k, v)]
  | (k', v') :: r =>
      if bool_decide (k' = k) then (k', v) :: r else (k', v') :: put_member k v r
  end.

Fixpoint own_members (ms acc : list (jsstring * json))
  : list (jsstring * json) :=
  match ms with
  | [] => acc
  | (k, v) :: r => own_members r (put_member k v acc)
  end.

Fixpoint read_value (fuel : nat) (s : jsstring) : option (json * jsstring) :=
  match fuel with
  | O => None
  | S f =>
      match skip_ws s with
      | [] => None
      | c :: r =>
          if c =? 110 then option_map (pair JNull) (expect (js "ull") r)
          else if c =? 116 then option_map (pair (JBool true)) (expect (js "rue") r)
          else if c =? 102 then option_map (pair (JBool false)) (expect (js "alse") r)
          else if c =? 34 then
            match read_string (S (length r)) r with
            | Some (t, rest) => Some (JStr t, rest)
            | None => None
            end
          else if c =? 91 then
            match skip_ws r with
            | c1 :: r1 =>
                if c1 =? 93 then Some (JArr [], r1)
                else match read_elements f r with
                     | Some (xs, rest) => Some (JArr xs, rest)
                     | None => None
                     end
            | [] => None
            end
          else if c =? 123 then
            match skip_ws r with
            | c1 :: r1 =>
                if c1 =? 125 then Some (JObj [], r1)
                else match read_members f r with
                     | Some (ms, rest) => Some (JObj (own_members ms []), rest)
                     | None => None
                     end
            | [] => None
            end
          else if c =? 45 then
            match read_nat r with
            | Some (n, rest) => Some (num_of_Z (- Z.of_N n), rest)
            | None => None
            end
          else match read_nat (c :: r) with
               | Some (n, rest) => Some (num_of_Z (Z.of_N n), rest)
               | None => None
               end
      end
  end
with read_elements (fuel : nat) (s : jsstring) : option (list json * jsstring) :=
  match fuel with
  | O => None
  | S f =>
      match read_value f s with
      | Some (v, r) =>
          match skip_ws r with
          | c :: r1 =>
              if c =? 44 then
                match read_elements f r1 with
                | Some (vs, rest) => Some (v :: vs, rest)
                | None => None
                end
              else if c =? 93 then Some ([v], r1) else None
          | [] => None
          end
      | None => None
      end
  end
with read_members (fuel : nat) (s : jsstring)
  : option (list (jsstring * json) * jsstring) :=
  match fuel with
  | O => None
  | S f =>
      match skip_ws s with
      | q :: r0 =>
          if negb (q =? 34) then None
          else
            match read_string (S (length r0)) r0 with
            | Some (k, r1) =>
                match skip_ws r1 with
                | c :: r2 =>
                    if negb (c =? 58) then None
                    else
                      match read_value f r2 with
                      | Some (v, r3) =>
                          match skip_ws r3 with
                          | c3 :: r4 =>
                              if c3 =? 44 then
                                match read_members f r4 with
                                | Some (ms, rest) => Some ((k, v) :: ms, rest)
                                | None => None
                                end
                              else if c3 =? 125 then Some ([(k, v)], r4)
                              else None
                          | [] => None
                          end
                      | None => None
                      end
                | [] => None
                end
            | None => None
            end
      | [] => None
      end
  end.

Definition json_parse (s : jsstring) : option json :=
  match read_value (2 * length s + 2) s with
  | Some (v, rest) => match skip_ws rest with [] => Some v | _ => None end
  | None => None
  end.

(** *** Writing JSON *)

Definition hex_char (n : N) : N := if n <? 10 then 48 + n else 87 + n.

Definition quote_char (c : N) : jsstring :=
  if c =? 34 then [92; 34] else if c =? 92 then [92; 92]
  else if c =? 8 then [92; 98] else if c =? 12 then [92; 102]
  else if c =? 10 then [92; 110] else if c =? 13 then [92; 114]
  else if c =? 9 then [92; 116]
  else if c <? 32 then [92; 117; 48; 48; hex_char (c / 16); hex_char (c mod 16)]
  else [c].

Definition quote (s : jsstring) : jsstring :=
  34 :: List.concat (List.map quote_char s) ++ [34].

Fixpoint json_stringify (v : json) : jsstring :=
  match v with
  | JNull => js "null"
  | JBool true => js "true"
  | JBool false => js "false"
  | JNum m e => number_toString m e
  | JStr s => quote s
  | JArr xs => 91 :: join [44] (List.map json_stringify xs) ++ [93]
  | JObj ms =>
      123 :: join [44]
               (List.map (fun kv => match kv with
                                    | (k, x) => quote k ++ 58 :: json_stringify x
                                    end) ms) ++ [125]
  end.

Definition posix_join (dir file : jsstring) : jsstring :=
  dir ++ 47 :: file.

#[export] Instance host : Host :=
  {| JSON_parse := json_parse;
     JSON_stringify := json_stringify;
     Number_toString := number_toString;
     Buffer_toString := utf8_decode;
     String_toLowerCase := List.map ascii_lower;
     path_join := posix_join;
     toLowerCase_ascii := fun s _ => eq_refl |}.

(** The bytes of an ASCII literal in which every apostrophe stands for a
    double quote. *)
Definition bytes (s : string) : list Byte.byte :=
  List.map (fun a => if Ascii.eqb a "'" then byte_of_ascii (ascii_of_nat 34)
                     else byte_of_ascii a)
           (list_ascii_of_string s).

(** The text of an ASCII literal in which every apostrophe stands for a
    double quote. *)
Definition text (s : string) : jsstring :=
  List.map (fun c => if c =? 39 then 34 else c) (js s).

(** Sample lines of the child's output. *)
Definition line_toolCall : jsstring :=
  text "{'type':'message_end','message':{'role':'assistant','content':[{'type':'toolCall','id':'call_1','name':'ls','arguments':{}}]}}".

Definition line_text (t : string) : jsstring :=
  text "{'type':'message_end','message':{'role':'assistant','content':[{'type':'text','text':'"
  ++ js t ++ text "'}]}}".

(** A call with an id, and twice the same call without one. *)
Definition line_three_calls : jsstring :=
  text "{'type':'message_end','message':{'role':'assistant','content':[{'type':'toolCall','id':'call_1','name':'ls','arguments':{}},{'type':'toolCall','name':'cat','arguments':{'path':'a'}},{'type':'toolCall','name':'cat','arguments':{'path':'a'}}]}}".

(** A tool call whose name cannot be printed, and a text. *)
Definition line_exotic_name : jsstring :=
  text "{'type':'message_end','message':{'role':'assistant','content':[{'type':'toolCall','name':{'toString':1},'arguments':{}},{'type':'text','text':'A'}],'stopReason':'end_turn'}}".

Definition line_toolCall_no_id : jsstring :=
  text "{'type':'message_end','message':{'role':'assistant','content':[{'type':'toolCall','name':'ls','arguments':{}}]}}".

Definition line_final : jsstring :=
  text "{'type':'message_end','message':{'role':'assistant','content':[{'type':'text','text':'Found 3 files.'}],'stopReason':'end_turn'}}".

Definition line_no_content : jsstring :=
  text "{'type':'message_end','message':{'role':'assistant'}}".

Definition line_user : jsstring :=
  text "{'type':'message_end','message':{'role':'user','content':'hello'}}".

Definition line_other_event : jsstring :=
  text "{'type':'turn_start'}".

Definition line_noise : jsstring := js "debug: starting up".

(** The bytes of an ASCII text followed by a line feed: one line of the
    child's output as a chunk. *)
Definition chunk_of (line : jsstring) : list Byte.byte :=
  List.map (fun c => default Byte.x00 (Byte.of_N c)) (line ++ [LF]).

(** A world in which every file operation succeeds. *)
Definition calm (sp : spawn_result) : world :=
  {| os_tmpdir := js "/tmp";
     mkdtempSync := fun prefix => FsOk (prefix ++ js "Ab3xYz");
     writeFileSync := fun _ _ => FsOk tt;
     unlinkSync := fun _ => FsOk tt;
     rmdirSync := fun _ => FsOk tt;
     spawn := sp |}.

Definition options_of (prompt : string) (sig : option bool) : Options.t :=
  {| Options.cwd := js "/work"; Options.task := js "list files";
     Options.systemPrompt := js prompt; Options.model := None;
     Options.tools := Some [js "read"; js "ls"];
     Options.signal := sig; Options.onProgress := true |}.

End RefHost.

(** ** The subagent tools (first module of the file)

    [pickModel], [formatToolCall], [getText], [execute] and
    [renderResult] of [registerSubagentTool].  The type [Model] of the
    host library is a parameter, read through the three fields the
    module uses; the theme of the user interface and the printing of a
    length in a template literal are parameters too. *)

Module Details.
(** interface ToolDetails *)
Record t : Type := {
  tool : jsstring;
  prompt : jsstring;
  model : jsvalue;
  exitCode : Z;
  stopReason : jsvalue;
  stderr : option jsstring;
  toolCalls : list SubagentToolCall;
  running : option bool
}.
End Details.

(** What [execute] returns: [content] is one text part. *)
Record ToolResult : Type := {
  result_isError : bool;
  result_text : json;
  result_details : Details.t
}.

(** The argument of one [onUpdate] call. *)
Record ToolUpdate : Type := {
  update_text : jsstring;
  update_details : Details.t
}.

(** More kinds of effects in the log. *)
Definition is_create (a : action) : bool :=
  match a with DoMkdtemp _ | DoWriteFile _ _ => true | _ => false end.

Definition is_spawn (a : action) : bool :=
  match a with DoSpawn _ _ => true | _ => false end.

Definition is_sigterm (a : action) : bool :=
  match a with DoKill SIGTERM _ => true | _ => false end.

Definition is_timeout (a : action) : bool :=
  match a with DoSetTimeout _ => true | _ => false end.

(** Every character of the string is white space. *)
Definition blank (s : jsstring) : bool := forallb is_js_space s.

(** The string is empty or starts with a character that is no white
    space. *)
Definition starts_clean (s : jsstring) : Prop :=
  match s with [] => True | c :: _ => is_js_space c = false end.

(** The reducer only ever grows: messages, tool calls and notifications
    are appended, keys are added. *)
Definition grows (r r' : reducer) : Prop :=
  messages r `prefix_of` messages r' /\
  toolCalls r `prefix_of` toolCalls r' /\
  notified r `prefix_of` notified r' /\
  seenToolCalls r ⊆ seenToolCalls r'.

(** The content of the message is no array, or an array with a [null]
    part. *)
Definition content_unreadable (message : json) : Prop :=
  match get_prop message "content" with
  | Some (JArr parts) => JNull ∈ parts
  | _ => True
  end.

(** Every call has an object as its [arguments]. *)
Definition object_arguments (calls : list SubagentToolCall) : Prop :=
  Forall (fun c => is_object (Some (arguments c)) = true) calls.

(** What a snapshot given to [onProgress] showed is still a part of what
    the reducer holds. *)
Definition snapshot_within (r : reducer) (s : snapshot) : Prop :=
  snap_toolCalls s `prefix_of` toolCalls r /\
  trim (snap_text s) = snap_text s /\
  object_arguments (snap_toolCalls s).

(** What holds of the reducer all along a run. *)
Definition reducer_inv (onProgress : bool) (r : reducer) : Prop :=
  trim (finalText r) = finalText r /\
  object_arguments (toolCalls r) /\
  Forall (snapshot_within r) (notified r) /\
  (length (notified r) <= length (messages r))%nat /\
  (onProgress = false -> notified r = []).

(** The value can be printed. *)
Definition prints (o : option jsstring) : bool :=
  match o with Some _ => true | None => false end.

(** A value without a string form: an object with a member named
    "toString" (no function, as it was parsed from JSON), or an array
    that holds such a value, however deep. *)
Fixpoint unprintable (v : json) : bool :=
  match v with
  | JObj members =>
      match obj_get members (js "toString") with
      | Some _ => true
      | None => false
      end
  | JArr xs => existsb unprintable xs
  | _ => false
  end.

Definition printable (v : jsvalue) : bool :=
  match v with
  | None => true
  | Some j => negb (unprintable j)
  end.

(** A part of the content that [processLine] gets past: it is not
    [null]; if it is a tool call without a truthy id, its name has a
    string form, for the key; if it is a text part, its text has one,
    for [join]. *)
Definition part_completes (part : json) : bool :=
  match part with
  | JNull => false
  | _ =>
      (if is_str (get_prop part "type") "toolCall"
       then truthy (get_prop part "id") || printable (get_prop part "name")
       else true)
      && (if is_str (get_prop part "type") "text"
          then printable (get_prop part "text")
          else true)
  end.

(** The content of the message is an array of such parts. *)
Definition completes (message : json) : bool :=
  match get_prop message "content" with
  | Some (JArr parts) => forallb part_completes parts
  | _ => false
  end.

(** A tool call as the interface [SubagentToolCall] has it: the id is a
    string or missing, the name is a string. *)
Definition wf_call (c : SubagentToolCall) : bool :=
  match id c with None | Some (JStr _) => true | _ => false end
  && match name c with Some (JStr _) => true | _ => false end.

(** The dedup key of such a call in the words of the specification: the
    id if present, else the name, a colon and the serialized
    arguments. *)
Definition claimed_key `{H : Host} (c : SubagentToolCall) : jsstring :=
  match id c, name c with
  | Some (JStr (x :: s)), _ => x :: s
  | _, Some (JStr n) => n ++ js ":" ++ JSON_stringify (arguments c)
  | _, _ => []
  end.

(** A content part as the message format has it: an object; a text
    part carries a string; a tool call carries a string as its name and
    a string or nothing as its id. *)
Definition well_formed_part (p : json) : bool :=
  match p with
  | JObj _ =>
      (if is_str (get_prop p "type") "text"
       then match get_prop p "text" with Some (JStr _) => true | _ => false end
       else true)
      && (if is_str (get_prop p "type") "toolCall"
          then match get_prop p "id" with
               | None | Some (JStr _) => true
               | _ => false
               end
               && match get_prop p "name" with
                  | Some (JStr _) => true
                  | _ => false
                  end
          else true)
  | _ => false
  end.

Definition is_text_part (p : json) : bool := is_str (get_prop p "type") "text".

Definition part_text (p : json) : jsstring :=
  match get_prop p "text" with Some (JStr s) => s | _ => [] end.

(** The text of a message in the words of the specification: the text
    parts joined by line feeds, trimmed. *)
Definition claimed_text (parts : list json) : jsstring :=
  trim (join [LF] (List.map part_text (List.filter is_text_part parts))).

(** What holds of every record [runSubagent] returns. *)
Definition well_formed_result `{H : Host} (r : Result.t) : Prop :=
  trim (Result.finalText r) = Result.finalText r /\
  object_arguments (Result.toolCalls r) /\
  NoDup (recorded_keys (Result.toolCalls r)).

Section Tool.

Context `{H : Host}.
Context {Model : Type}.
Variable model_id : Model -> jsstring.
Variable model_name : Model -> jsstring.
Variable model_provider : Model -> jsstring.

(** What a listener appends to [stderr]. *)
Definition stderr_text (e : event) : jsstring :=
  match e with
  | StderrData data => Buffer_toString data
  | ProcError name message => name ++ js ": " ++ message
  | _ => []
  end.

(** [`${m.provider}/${m.id}`] *)
Definition model_ref (m : Model) : jsstring :=
  model_provider m ++ js "/" ++ model_id m.

(** [new Map(models.map((m) => [m.id.toLowerCase(), m]))]: a later
    model replaces an earlier one with the same key. *)
Definition byId (models : list Model) : gmap (list N) Model :=
  fold_left (fun acc m => <[String_toLowerCase (model_id m) := m]> acc)
    models ∅.

(** The first loop of [pickModel]. *)
Fixpoint pick_exact (known : gmap (list N) Model) (exact : list jsstring)
  : option Model :=
  match exact with
  | [] => None
  | wanted :: rest =>
      match known !! String_toLowerCase wanted with
      | Some m => Some m
      | None => pick_exact known rest
      end
  end.

(** The predicate given to [models.find]. *)
Definition model_includes (p : jsstring) (m : Model) : bool :=
  includes (String_toLowerCase (model_id m)) p
  || includes (String_toLowerCase (model_name m)) p
  || includes (String_toLowerCase (model_ref m)) p.

(** The second loop of [pickModel]. *)
Fixpoint pick_includes (models : list Model) (patterns : list jsstring)
  : option Model :=
  match patterns with
  | [] => None
  | pattern :: rest =>
      match List.find (model_includes (String_toLowerCase pattern)) models with
      | Some m => Some m
      | None => pick_includes models rest
      end
  end.

Definition pickModel (models : list Model) (exact patterns : list jsstring)
  : option Model :=
  match pick_exact (byId models) exact with
  | Some m => Some m
  | None => pick_includes models patterns
  end.

(** [config.pickModel(models) || models[0]] *)
Definition selectModel (pick : list Model -> option Model)
  (models : list Model) : option Model :=
  match pick models with
  | Some m => Some m
  | None => head models
  end.

(** [formatToolCall]; [None] is the TypeError of a name that cannot be
    printed. *)
Definition formatToolCall (toolCall : SubagentToolCall) : option jsstring :=
  let args :=
    JSON_stringify (match arguments toolCall with
                    | JNull => JObj []
                    | a => a
                    end) in
  let preview :=
    if (90 <? length args)%nat then take 90 args ++ js "..." else args in
  match ToString_value (name toolCall) with
  | Some printed => Some (printed ++ js " " ++ preview)
  | None => None
  end.



(** [renderResult]: the lines of the text component, joined by line
    feeds when shown; [None] is a TypeError, of [getText] or of
    [formatToolCall].  [fg] is [theme.fg], [show_nat] prints a length in
    a template literal. *)
Section Render.

Variable fg : string -> jsstring -> jsstring.
Variable show_nat : nat -> jsstring.







End Render.

(** interface ToolConfig *)
Record ToolConfig : Type := {
  config_name : jsstring;
  config_label : jsstring;
  config_description : jsstring;
  config_systemPrompt : jsstring;
  config_tools : list jsstring;
  config_pickModel : list Model -> option Model
}.

(** [a ?? b] *)
Definition nullish_else (a : jsvalue) (b : json) : json :=
  match a with
  | None | Some JNull => b
  | Some v => v
  end.

Definition SCOUT_SYSTEM_PROMPT : jsstring :=
  js "You are Scout, a fast codebase reconnaissance subagent.

Rules:
- Explore quickly and accurately.
- Use only read-only tooling.
- Never edit files.
- Prefer grep/find first, then read targeted ranges.

Output format:
1) Key findings
2) Relevant files with why each matters
3) Suggested next checks".

Definition REVIEW_SYSTEM_PROMPT : jsstring :=
  js "You are Review, a senior code review subagent.

Rules:
- Focus on correctness, maintainability, readability and security.
- Provide concrete issues with file paths and line references when possible.
- Use bash only for read-only git inspection (diff/log/show).
- Never modify files.

Output format:
1) Critical issues
2) Warnings
3) Suggestions
4) Overall assessment".

(** The two tools the extension registers. *)
Definition scout : ToolConfig :=
  {| config_name := js "scout";
     config_label := js "Scout";
     config_description :=
       js "Run a fast exploration subagent with isolated context. Use for quick codebase discovery (files, call paths, dependencies, ownership). Skip for small, local, obvious changes.";
     config_systemPrompt := SCOUT_SYSTEM_PROMPT;
     config_tools := [js "read"; js "grep"; js "find"; js "ls"];
     config_pickModel := fun models =>
       pickModel models
         [js "gemini-3-flash-preview"; js "claude-haiku-4-5";
          js "claude-haiku-4.5"; js "gemini-2.5-flash";
          js "gpt-5.3-codex-spark"]
         [js "haiku"; js "flash"; js "mini"; js "fast"] |}.

Definition review : ToolConfig :=
  {| config_name := js "review";
     config_label := js "Review";
     config_description :=
       js "Run a code-review subagent with isolated context. Use when the user requests review/validation. Provide a concise summary of intended changes in the prompt.";
     config_systemPrompt := REVIEW_SYSTEM_PROMPT;
     config_tools := [js "read"; js "grep"; js "find"; js "ls"; js "bash"];
     config_pickModel := fun models =>
       pickModel models
         [js "gpt-5.3-codex"; js "claude-opus-4-6"; js "claude-opus-4.6";
          js "gemini-3-pro-preview"; js "claude-sonnet-4-5";
          js "claude-sonnet-4.5"]
         [js "sonnet"; js "gpt-5.3"; js "gemini"] |}.

(** The model a tool picks is one of the models it was offered. *)
Definition picks_offered (config : ToolConfig) : Prop :=
  forall models m, config_pickModel config models = Some m -> m ∈ models.

Section Execute.

Variable config : ToolConfig.
Variable w : world.

(** The options [execute] gives to [runSubagent]. *)
Definition execute_options (prompt : jsstring) (cwd : jsstring)
  (selected : Model) (signal : option bool) (onUpdate : bool) : Options.t :=
  {| Options.cwd := cwd;
     Options.task := prompt;
     Options.systemPrompt := config_systemPrompt config;
     Options.model := Some (model_ref selected);
     Options.tools := Some (config_tools config);
     Options.signal := signal;
     Options.onProgress := onUpdate |}.

Definition baseDetails (prompt : jsstring) (selected : Model) : Details.t :=
  {| Details.tool := config_name config;
     Details.prompt := prompt;
     Details.model := Some (JStr (model_ref selected));
     Details.exitCode := (-1)%Z;
     Details.stopReason := None;
     Details.stderr := None;
     Details.toolCalls := [];
     Details.running := Some true |}.

(** The callback given as [onProgress]. *)
Definition progress_update (prompt : jsstring) (selected : Model)
  (state : snapshot) : ToolUpdate :=
  {| update_text :=
       if nonempty (snap_text state) then snap_text state
       else js "(running...)";
     update_details :=
       {| Details.tool := config_name config;
          Details.prompt := prompt;
          Details.model :=
            Some (nullish_else (snap_model state)
                    (JStr (model_ref selected)));
          Details.exitCode := (-1)%Z;
          Details.stopReason := snap_stopReason state;
          Details.stderr := None;
          Details.toolCalls := snap_toolCalls state;
          Details.running := Some true |} |}.

(** An early return of [execute]. *)
Definition refusal (prompt : jsstring) (message : string) : ToolResult :=
  {| result_isError := true;
     result_text := JStr (js message);
     result_details :=
       {| Details.tool := config_name config;
          Details.prompt := prompt;
          Details.model := None;
          Details.exitCode := 1;
          Details.stopReason := None;
          Details.stderr := None;
          Details.toolCalls := [];
          Details.running := None |} |}.

(** The [try] and the [catch] around the run. *)
Definition execute_result (prompt : jsstring) (selected : Model)
  (o : outcome) : option ToolResult :=
  match o with
  | Pending => None
  | Returned run =>
      let failed :=
        negb (Result.exitCode run =? 0)%Z
        || is_str (Result.stopReason run) "error"
        || is_str (Result.stopReason run) "aborted" in
      let stderr_text := Some (JStr (trim (Result.stderr run))) in
      let final := Some (JStr (Result.finalText run)) in
      let none := JStr (js "(no output)") in
      Some {| result_isError := failed;
              result_text :=
                if failed
                then or_else (Result.errorMessage run)
                       (or_else stderr_text (or_else final none))
                else or_else final
                       (or_else (Result.errorMessage run)
                          (or_else stderr_text none));
              result_details :=
                {| Details.tool := config_name config;
                   Details.prompt := prompt;
                   Details.model :=
                     Some (nullish_else (Result.model run)
                             (JStr (model_ref selected)));
                   Details.exitCode := Result.exitCode run;
                   Details.stopReason := Result.stopReason run;
                   Details.stderr :=
                     if nonempty (trim (Result.stderr run))
                     then Some (trim (Result.stderr run)) else None;
                   Details.toolCalls := Result.toolCalls run;
                   Details.running := Some false |} |}
  | Threw message =>
      let isAborted :=
        includes (String_toLowerCase message) (js "aborted") in
      Some {| result_isError := true;
              result_text := JStr message;
              result_details :=
                {| Details.tool := config_name config;
                   Details.prompt := prompt;
                   Details.model := Some (JStr (model_ref selected));
                   Details.exitCode := 1;
                   Details.stopReason :=
                     Some (JStr (if isAborted then js "aborted"
                                 else js "error"));
                   Details.stderr := None;
                   Details.toolCalls := [];
                   Details.running := Some false |} |}
  end.

(** [execute]: the updates sent through [onUpdate] so far and the
    result, if the call has returned.  [params_cwd] is [params.cwd],
    [ctx_cwd] the working directory of the session, [available] what
    [ctx.modelRegistry.getAvailable()] returns; the run of the child is
    driven by [trace]. *)
Definition execute (params_prompt : jsstring) (params_cwd : option jsstring)
  (ctx_cwd : jsstring) (available : list Model) (signal : option bool)
  (onUpdate : bool) (trace : list event)
  : list ToolUpdate * option ToolResult :=
  let prompt := trim params_prompt in
  if negb (nonempty prompt) then ([], Some (refusal [] "Prompt is required."))
  else match selectModel (config_pickModel config) available with
       | None =>
           ([], Some (refusal prompt
                        "No models available from authenticated providers."))
       | Some selected =>
           let options :=
             execute_options prompt (default ctx_cwd params_cwd) selected
               signal onUpdate in
           let m := runSubagent w options trace in
           ((if onUpdate
             then [{| update_text := js "(starting...)";
                      update_details := baseDetails prompt selected |}]
             else [])
            ++ List.map (progress_update prompt selected) (notified (red m)),
            execute_result prompt selected (result m))
       end.

End Execute.

End Tool.

(** ** Closed runs at the reference host *)

(** A child that runs, no prompt file; the caller's signal has not
    fired when the run starts. *)
Definition run_with_signal : list event -> machine :=
  runSubagent (H := RefHost.host) (RefHost.calm Spawned)
    (RefHost.options_of "" (Some false)).

(** The child cannot be started. *)
Definition run_failing_spawn (sig : option bool) : list event -> machine :=
  runSubagent (H := RefHost.host) (RefHost.calm SpawnFails)
    (RefHost.options_of "" sig).

Definition spawn_error : event :=
  ProcError (js "Error") (js "spawn pi ENOENT").

(** Models as a registry lists them. *)
Record SampleModel : Type := {
  sample_id : jsstring;
  sample_name : jsstring;
  sample_provider : jsstring
}.

Definition sample_models : list SampleModel :=
  [ {| sample_id := js "gpt-5.3-codex"; sample_name := js "GPT-5.3 Codex";
       sample_provider := js "openai" |};
    {| sample_id := js "Claude-Haiku-4-5"; sample_name := js "Claude Haiku 4.5";
       sample_provider := js "anthropic" |};
    {| sample_id := js "gemini-2.5-flash"; sample_name := js "Gemini 2.5 Flash";
       sample_provider := js "google" |} ].

(** A world in which the temporary directory can be made but nothing
    can be written into it. *)
Definition read_only_tmp : world :=
  {| os_tmpdir := os_tmpdir (RefHost.calm Spawned);
     mkdtempSync := mkdtempSync (RefHost.calm Spawned);
     writeFileSync := fun _ _ => FsError (js "EACCES");
     unlinkSync := unlinkSync (RefHost.calm Spawned);
     rmdirSync := rmdirSync (RefHost.calm Spawned);
     spawn := Spawned |}.

(** The run of a child without a signal and without a prompt file. *)
Definition run_plain : list event -> machine :=
  runSubagent (H := RefHost.host) (RefHost.calm Spawned)
    (RefHost.options_of "" None).

(** The message of [RefHost.line_final]. *)
Definition message_final : json :=
  JObj [(js "role", JStr (js "assistant"));
        (js "content",
         JArr [JObj [(js "type", JStr (js "text"));
                     (js "text", JStr (js "Found 3 files."))]]);
        (js "stopReason", JStr (js "end_turn"))].

(** The tool [scout] over the sample models, in a calm world. *)
Definition scout_sample : ToolConfig (Model := SampleModel) :=
  scout (H := RefHost.host) sample_id sample_name sample_provider.

Definition haiku : SampleModel :=
  {| sample_id := js "Claude-Haiku-4-5"; sample_name := js "Claude Haiku 4.5";
     sample_provider := js "anthropic" |}.


(** A world in which the prompt file cannot be removed. *)
Definition stubborn : world :=
  {| os_tmpdir := os_tmpdir (RefHost.calm Spawned);
     mkdtempSync := mkdtempSync (RefHost.calm Spawned);
     writeFileSync := writeFileSync (RefHost.calm Spawned);
     unlinkSync := fun _ => FsError (js "EPERM");
     rmdirSync := fun _ => FsError (js "ENOTEMPTY");
     spawn := Spawned |}.

(** * Facts *)

(** ** Splitting and framing *)

Lemma split_lf_nonempty s : split_lf s <> [].
Proof.
  destruct s as [|c r]; simpl; [discriminate|].
  destruct (c =? LF); [discriminate|].
  destruct (split_lf r); discriminate.
Qed.

Lemma pop_snoc {A} (xs : list A) (x : A) : pop (xs ++ [x]) = (xs, Some x).
Proof.
  unfold pop. rewrite removelast_last. f_equal. apply last_snoc.
Qed.

Lemma join_cons_cons sep (c : N) h t :
  join sep ((c :: h) :: t) = c :: join sep (h :: t).
Proof. destruct t; reflexivity. Qed.

Lemma join_split_lf s : join [LF] (split_lf s) = s.
Proof.
  induction s as [|c r IH]; [reflexivity|].
  cbn [split_lf].
  pose proof (split_lf_nonempty r) as Hne.
  destruct (split_lf r) as [|h t] eqn:E; [contradiction|].
  destruct (N.eqb_spec c LF) as [->|Hc].
  - change (join [LF] ([] :: h :: t)) with ([] ++ [LF] ++ join [LF] (h :: t)).
    now rewrite IH.
  - rewrite join_cons_cons. now rewrite IH.
Qed.

Lemma join_snoc_terminated lines tail :
  join [LF] (lines ++ [tail]) = terminated lines ++ tail.
Proof.
  unfold terminated.
  induction lines as [|l ls IH]; [reflexivity|].
  cbn [app List.map List.concat].
  destruct (ls ++ [tail]) as [|x xs] eqn:E.
  - destruct ls; discriminate.
  - change (join [LF] (l :: x :: xs)) with (l ++ [LF] ++ join [LF] (x :: xs)).
    rewrite IH. now rewrite <- !app_assoc.
Qed.

Lemma terminated_app a b : terminated (a ++ b) = terminated a ++ terminated b.
Proof. unfold terminated. now rewrite map_app, concat_app. Qed.

Lemma split_lf_tail tail : LF_free tail -> split_lf tail = [tail].
Proof.
  induction tail as [|c r IH]; intros Ht; [reflexivity|].
  cbn [split_lf]. destruct (N.eqb_spec c LF) as [->|Hc].
  - exfalso. apply Ht. constructor.
  - rewrite IH; [reflexivity|]. intros Hin. apply Ht. now constructor.
Qed.

Lemma split_lf_line l rest :
  LF_free l -> split_lf (l ++ LF :: rest) = l :: split_lf rest.
Proof.
  induction l as [|c r IH]; intros Hl; [reflexivity|].
  cbn [split_lf app]. destruct (N.eqb_spec c LF) as [->|Hc].
  - exfalso. apply Hl. constructor.
  - rewrite IH; [reflexivity|]. intros Hin. apply Hl. now constructor.
Qed.

(** A decomposition into line-feed-free lines and tail is the split. *)
Lemma split_lf_unique lines tail :
  Forall LF_free lines -> LF_free tail ->
  split_lf (terminated lines ++ tail) = lines ++ [tail].
Proof.
  intros Hl Ht. induction Hl as [|l ls Hlf _ IH].
  - now apply split_lf_tail.
  - change (terminated (l :: ls)) with ((l ++ [LF]) ++ terminated ls).
    rewrite <- !app_assoc. cbn [app].
    rewrite split_lf_line by exact Hlf. now rewrite IH.
Qed.

Lemma split_lf_LF_free s : Forall LF_free (split_lf s).
Proof.
  induction s as [|c r IH]; simpl.
  - repeat constructor. intros Hin. inversion Hin.
  - destruct (N.eqb_spec c LF) as [->|Hc].
    + constructor; [|exact IH]. intros Hin. inversion Hin.
    + destruct (split_lf r) as [|h t]; simpl.
      * repeat constructor. intros Hin. inversion Hin; subst; [congruence|].
        match goal with X : _ ∈ [] |- _ => inversion X end.
      * inversion IH as [|? ? Hh Htl]; subst. constructor; [|exact Htl].
        intros Hin. inversion Hin; subst; [congruence|]. now apply Hh.
Qed.

(** One 'data' event: the lines and the new tail rebuild the old tail
    and the chunk, and none of them holds a line feed. *)
Lemma feed_spec buffer chunk :
  let '(lines, tail) := feed buffer chunk in
  terminated lines ++ tail = buffer ++ chunk /\
  Forall LF_free lines /\ LF_free tail.
Proof.
  unfold feed.
  pose proof (split_lf_nonempty (buffer ++ chunk)) as Hne.
  pose proof (split_lf_LF_free (buffer ++ chunk)) as Hfree.
  pose proof (join_split_lf (buffer ++ chunk)) as Hjoin.
  destruct (split_lf (buffer ++ chunk)) as [|x xs] eqn:E using rev_ind;
    [contradiction|].
  rewrite pop_snoc. simpl.
  rewrite join_snoc_terminated in Hjoin.
  apply Forall_app in Hfree as [Hl Ht].
  inversion Ht; subst. auto.
Qed.

Lemma feed_all_spec chunks : forall buffer,
  LF_free buffer ->
  terminated (feed_all buffer chunks).1 ++ (feed_all buffer chunks).2
    = buffer ++ List.concat chunks /\
  Forall LF_free (feed_all buffer chunks).1 /\
  LF_free (feed_all buffer chunks).2.
Proof.
  induction chunks as [|chunk rest IH]; intros buffer Hb.
  - simpl. rewrite app_nil_r. repeat split; [constructor | exact Hb].
  - cbn [feed_all List.concat].
    pose proof (feed_spec buffer chunk) as Hfeed.
    destruct (feed buffer chunk) as [lines tail].
    destruct Hfeed as (Hrebuild & Hlines & Htail).
    specialize (IH tail Htail).
    destruct (feed_all tail rest) as [lines' tail'].
    cbn [fst snd] in *. destruct IH as (IHrebuild & IHlines & IHtail).
    repeat split.
    + rewrite terminated_app, <- app_assoc, IHrebuild, !app_assoc.
      now rewrite Hrebuild.
    + now apply Forall_app.
    + exact IHtail.
Qed.

(** Feeding the chunks one by one gives what feeding their concatenation
    at once gives. *)
Lemma feed_all_concat chunks :
  feed_all [] chunks = feed [] (List.concat chunks).
Proof.
  assert (Hnil : LF_free []) by (intros Hin; inversion Hin).
  destruct (feed_all_spec chunks [] Hnil) as (Hrebuild & Hlines & Htail).
  unfold feed. cbn [app] in *.
  rewrite <- Hrebuild, split_lf_unique by assumption.
  rewrite pop_snoc. now destruct (feed_all [] chunks).
Qed.

Lemma flushed_spec tail :
  (trim tail <> [] -> flushed tail = [tail]) /\
  (trim tail = [] -> flushed tail = []).
Proof.
  unfold flushed. destruct (trim tail); split; intros; simpl; congruence.
Qed.

(** C5 as stated fails: a stream that ends in a blank partial line.  The
    text is "a", line feed, two spaces.  The line "a" is handed on, the
    tail of two spaces is not, and what was handed on does not rebuild
    the input. *)
Lemma C5_blank_tail_is_dropped :
  let data := [Byte.x61; Byte.x0a; Byte.x20; Byte.x20] in
  let chunks := [Buffer_toString (Host := RefHost.host) data] in
  let lines := (feed_all [] chunks).1 in
  let tail := (feed_all [] chunks).2 in
  lines = [js "a"] /\ tail = js "  " /\ flushed tail = [] /\
  terminated lines ++ List.concat (flushed tail) <> List.concat chunks.
Proof. vm_compute. repeat split; discriminate. Qed.

(** The same bytes cut inside a multi-byte character: each chunk is
    decoded on its own, so the two halves of U+00E9 become two
    replacement characters. *)
Lemma split_inside_a_character_changes_the_text :
  let toString := Buffer_toString (Host := RefHost.host) in
  (feed_all [] (List.map toString [[Byte.xc3]; [Byte.xa9]])).2
    = [65533; 65533] /\
  (feed_all [] (List.map toString [[Byte.xc3; Byte.xa9]])).2 = [233].
Proof. vm_compute. split; reflexivity. Qed.

(** ** The reducer *)

Section ReducerFacts.

Context `{H : Host}.

Lemma processLine_ignored b line r :
  decode line = None -> processLine b line r = (r, Normal).
Proof. unfold processLine. now intros ->. Qed.

Lemma processLine_other_role b line message r :
  decode line = Some message -> role_is_assistant message = false ->
  processLine b line r = (push_message message r, Normal).
Proof. unfold processLine. now intros -> ->. Qed.

Lemma processLine_assistant b line message r :
  decode line = Some message -> role_is_assistant message = true ->
  processLine b line r = apply_assistant b message (push_message message r).
Proof. unfold processLine. now intros -> ->. Qed.

(** The dedup loop touches the calls and the keys only. *)
Lemma record_calls_frame calls : forall changed r,
  let r' := (record_calls calls changed r).1.1 in
  messages r' = messages r /\ finalText r' = finalText r /\
  stopReason r' = stopReason r /\ errorMessage r' = errorMessage r /\
  model r' = model r /\ notified r' = notified r.
Proof.
  induction calls as [|call rest IH]; intros changed r; [now simpl|].
  cbn [record_calls].
  destruct (call_key call) as [key|]; [|now simpl].
  destruct (seen_has (seenToolCalls r) key); [apply IH|].
  specialize (IH true (record_call key call r)). apply IH.
Qed.

Lemma record_calls_seen_all calls : forall changed r,
  Forall (fun c => exists key, call_key c = Some key /\
                               seen_has (seenToolCalls r) key = true) calls ->
  record_calls calls changed r = (r, changed, Normal).
Proof.
  induction calls as [|call rest IH]; intros changed r Hall; [reflexivity|].
  inversion Hall as [|? ? (key & Hkey & Hc) Hrest]; subst.
  cbn [record_calls]. rewrite Hkey, Hc. now apply IH.
Qed.

Lemma seen_has_add seen key key' :
  seen_has seen key' = true -> seen_has (seen_add seen key) key' = true.
Proof.
  unfold seen_has, seen_add. destruct (prim_key key'); [|discriminate].
  destruct (prim_key key); [|trivial].
  rewrite !bool_decide_eq_true. set_solver.
Qed.

Lemma seen_has_add_same seen key k :
  prim_key key = Some k -> seen_has (seen_add seen key) key = true.
Proof.
  unfold seen_has, seen_add. intros ->. rewrite bool_decide_eq_true. set_solver.
Qed.

Lemma key_of_call_key call key :
  call_key call = Some key -> key_of call = prim_key key.
Proof. unfold key_of. now intros ->. Qed.

Lemma recorded_keys_snoc calls call :
  recorded_keys (calls ++ [call])
  = recorded_keys calls ++ from_option (fun k => [k]) [] (key_of call).
Proof.
  unfold recorded_keys. rewrite omap_app. simpl.
  now destruct (key_of call).
Qed.

Lemma seen_inv_record call key r :
  seen_inv r -> call_key call = Some key ->
  seen_has (seenToolCalls r) key = false ->
  seen_inv (record_call key call r).
Proof.
  intros [Hnd Hiff] Hkey Hnew. unfold seen_inv, record_call.
  cbn [toolCalls seenToolCalls].
  rewrite recorded_keys_snoc, (key_of_call_key call key Hkey).
  unfold seen_has, seen_add in *.
  destruct (prim_key key) as [k|]; cbn.
  - apply bool_decide_eq_false in Hnew. split.
    + apply NoDup_app. repeat split; [exact Hnd| |apply NoDup_singleton].
      intros x Hx Hin. apply list_elem_of_singleton in Hin as ->.
      apply Hnew, Hiff, Hx.
    + intros k'. rewrite elem_of_union, elem_of_app, elem_of_singleton,
        list_elem_of_singleton, Hiff. tauto.
  - rewrite app_nil_r. now split.
Qed.

(** The loop over calls whose keys are primitive values: it runs to its
    end; what it appends is taken from the calls in their order, under
    keys that had not been seen; the set of seen keys grows by the keys
    of what was appended, and afterwards holds the key of every call. *)
Lemma record_calls_spec calls : forall changed r,
  seen_inv r ->
  Forall (fun c => is_Some (key_of c)) calls ->
  let r' := (record_calls calls changed r).1.1 in
  (record_calls calls changed r).2 = Normal /\
  seen_inv r' /\
  exists added,
    toolCalls r' = toolCalls r ++ added /\
    added `sublist_of` calls /\
    Forall (fun c => forall k, key_of c = Some k -> k ∉ seenToolCalls r)
      added /\
    (forall k, k ∈ seenToolCalls r' <->
               k ∈ seenToolCalls r \/ k ∈ recorded_keys added) /\
    Forall (fun c => forall k, key_of c = Some k -> k ∈ seenToolCalls r')
      calls.
Proof.
  induction calls as [|call rest IH]; intros changed r Hinv Hprim.
  - cbn. split; [reflexivity|]. split; [exact Hinv|]. exists [].
    rewrite app_nil_r.
    split_and!; [reflexivity|constructor|constructor| |constructor].
    intros k. split; [auto|]. intros [Hk|Hk]; [exact Hk|inversion Hk].
  - inversion Hprim as [|? ? [k Hk] Hrest]; subst.
    cbn [record_calls].
    destruct (call_key call) as [key|] eqn:Hkey;
      [|unfold key_of in Hk; rewrite Hkey in Hk; discriminate].
    pose proof (key_of_call_key call key Hkey) as Hprimkey.
    rewrite Hk in Hprimkey. symmetry in Hprimkey.
    destruct (seen_has (seenToolCalls r) key) eqn:Hseen.
    + destruct (IH changed r Hinv Hrest)
        as (Hn & Hinv' & added & Ht & Hsub & Hfresh & Hset & Hall).
      split; [exact Hn|]. split; [exact Hinv'|]. exists added.
      split_and!; auto; [now apply sublist_cons|].
      constructor; [|exact Hall].
      intros k' Hk'. rewrite Hk in Hk'. injection Hk' as <-.
      apply Hset. left. unfold seen_has in Hseen. rewrite Hprimkey in Hseen.
      now apply bool_decide_eq_true in Hseen.
    + pose proof (seen_inv_record call key r Hinv Hkey Hseen) as Hinv1.
      destruct (IH true _ Hinv1 Hrest)
        as (Hn & Hinv' & added & Ht & Hsub & Hfresh & Hset & Hall).
      assert (Hnew : k ∉ seenToolCalls r).
      { unfold seen_has in Hseen. rewrite Hprimkey in Hseen.
        now apply bool_decide_eq_false in Hseen. }
      assert (Hseen1 : forall k', k' ∈ seenToolCalls (record_call key call r)
                                  <-> k' = k \/ k' ∈ seenToolCalls r).
      { intros k'. cbn [record_call seenToolCalls]. unfold seen_add.
        rewrite Hprimkey, elem_of_union, elem_of_singleton. tauto. }
      split; [exact Hn|]. split; [exact Hinv'|]. exists (call :: added).
      split_and!.
      * rewrite Ht. cbn [record_call toolCalls]. now rewrite <- app_assoc.
      * now apply sublist_skip.
      * constructor.
        -- intros k' Hk'. rewrite Hk in Hk'. now injection Hk' as <-.
        -- eapply Forall_impl; [exact Hfresh|]. intros c Hc k' Hk' Hin.
           apply (Hc k' Hk'). apply Hseen1. now right.
      * intros k'. rewrite Hset, Hseen1.
        unfold recorded_keys. cbn [omap list_omap]. fold (recorded_keys added).
        rewrite Hk, elem_of_cons. tauto.
      * constructor; [|exact Hall].
        intros k' Hk'. rewrite Hk in Hk'. injection Hk' as <-.
        apply Hset. left. apply Hseen1. now left.
Qed.

Ltac split_ifs :=
  repeat match goal with
         | |- context [if ?c then _ else _] => destruct c
         end.

(** Whether the loop throws does not depend on what has been seen: it
    computes the key of every call. *)
Lemma record_calls_completion calls : forall changed r,
  (record_calls calls changed r).2 = Normal <->
  Forall (fun c => is_Some (call_key c)) calls.
Proof.
  induction calls as [|call rest IH]; intros changed r; cbn [record_calls].
  - split; [constructor|reflexivity].
  - destruct (call_key call) as [key|] eqn:Hkey.
    + assert (Hrest : (if seen_has (seenToolCalls r) key
                       then record_calls rest changed r
                       else record_calls rest true (record_call key call r)).2
                      = Normal
                      <-> Forall (fun c => is_Some (call_key c)) rest)
        by (destruct (seen_has _ key); apply IH).
      rewrite Hrest. split.
      * intros Hall. constructor; [rewrite Hkey; now eexists|exact Hall].
      * intros Hall. now inversion Hall.
    + split; [discriminate|]. intros Hall. inversion Hall as [|? ? [? Hc] ?].
      rewrite Hkey in Hc. discriminate.
Qed.

(** The dedup loop appends calls, and [changed] tells whether it did. *)
Lemma record_calls_added calls : forall changed r,
  exists added,
    toolCalls (record_calls calls changed r).1.1 = toolCalls r ++ added /\
    (record_calls calls changed r).1.2
    = changed || (0 <? length added)%nat /\
    Forall (fun c => c ∈ calls) added /\
    seenToolCalls r ⊆ seenToolCalls (record_calls calls changed r).1.1.
Proof.
  induction calls as [|call rest IH]; intros changed r.
  - exists []. cbn. rewrite app_nil_r, orb_false_r. now split_and!.
  - cbn [record_calls].
    destruct (call_key call) as [key|].
    2: { exists []. cbn. rewrite app_nil_r, orb_false_r. now split_and!. }
    destruct (seen_has (seenToolCalls r) key).
    + destruct (IH changed r) as (added & Ht & Hc & Hin & Hsub).
      exists added. split_and!; auto.
      eapply Forall_impl; [exact Hin|]. intros c Hc'. now right.
    + destruct (IH true (record_call key call r))
        as (added & Ht & Hc & Hin & Hsub).
      exists (call :: added). rewrite Ht, Hc. cbn [record_call toolCalls].
      rewrite <- app_assoc, orb_true_r. split_and!; auto.
      * constructor; [now left|].
        eapply Forall_impl; [exact Hin|]. intros c Hc'. now right.
      * etransitivity; [|exact Hsub]. cbn [record_call seenToolCalls].
        unfold seen_add. destruct (prim_key key); set_solver.
Qed.

Lemma apply_assistant_calls b message calls r :
  extractAssistantToolCalls message = Some calls ->
  let r0 := (record_calls calls false r).1.1 in
  let r' := (apply_assistant b message r).1 in
  toolCalls r' = toolCalls r0 /\ seenToolCalls r' = seenToolCalls r0 /\
  messages r' = messages r.
Proof.
  intros Hcalls. unfold apply_assistant. rewrite Hcalls.
  pose proof (record_calls_frame calls false r) as (Hm & _).
  destruct (record_calls calls false r) as [[r1 changed1] []]; cbn [fst] in *;
    [|now cbn].
  destruct (extractAssistantText message) as [text|]; [|now cbn].
  unfold emitProgress. split_ifs; cbn; auto.
Qed.

Lemma texts_then_toolCalls parts ts :
  texts_of_parts parts = Some ts -> is_Some (toolCalls_of_parts parts).
Proof.
  revert ts. induction parts as [|part rest IH]; intros ts; [now eexists|].
  cbn [texts_of_parts toolCalls_of_parts].
  destruct (texts_of_parts rest) as [ts'|]; [|now destruct part].
  destruct (IH ts' eq_refl) as [calls ->].
  destruct part; intros; try discriminate; split_ifs; now eexists.
Qed.

Lemma text_then_toolCalls message text :
  extractAssistantText message = Some text ->
  is_Some (extractAssistantToolCalls message).
Proof.
  unfold extractAssistantText, extractAssistantToolCalls.
  destruct (role_is_assistant message); cbn [negb]; [|now eexists].
  destruct (get_prop message "content") as [[]|]; try discriminate.
  destruct (texts_of_parts xs) eqn:E; [|discriminate].
  intros _. now apply (texts_then_toolCalls xs l).
Qed.

(** What an assistant message does when nothing throws, field by
    field. *)
Lemma apply_assistant_fields b message calls text r :
  extractAssistantToolCalls message = Some calls ->
  Forall (fun c => is_Some (call_key c)) calls ->
  extractAssistantText message = Some text ->
  let r' := (apply_assistant b message r).1 in
  let changed :=
    (length (toolCalls r) <? length (toolCalls r'))%nat
    || nonempty text || truthy (get_prop message "stopReason") in
  (apply_assistant b message r).2 = Normal /\
  (exists added, toolCalls r' = toolCalls r ++ added) /\
  seenToolCalls r ⊆ seenToolCalls r' /\
  messages r' = messages r /\
  finalText r' = (if nonempty text then text else finalText r) /\
  stopReason r'
  = (if truthy (get_prop message "stopReason")
     then get_prop message "stopReason" else stopReason r) /\
  errorMessage r'
  = (if truthy (get_prop message "errorMessage")
     then get_prop message "errorMessage" else errorMessage r) /\
  model r'
  = (if truthy (get_prop message "model")
     then get_prop message "model" else model r) /\
  notified r'
  = notified r ++
    (if b && changed
     then [{| snap_text := finalText r'; snap_toolCalls := toolCalls r';
              snap_model := model r'; snap_stopReason := stopReason r' |}]
     else []).
Proof.
  intros Hcalls Hkeys Htext.
  unfold apply_assistant. rewrite Hcalls, Htext.
  destruct (record_calls_added calls false r) as (added & Ht & Hc & _ & Hsub).
  pose proof (record_calls_frame calls false r)
    as (Hm & Hf & Hs & He & Hmo & Hn).
  pose proof (proj2 (record_calls_completion calls false r) Hkeys) as Hnormal.
  destruct (record_calls calls false r) as [[r1 changed1] comp].
  cbn [fst snd] in *. subst comp. cbn [orb] in Hc. subst changed1.
  assert (Hlen : (length (toolCalls r) <? length (toolCalls r1))%nat
                 = (0 <? length added)%nat).
  { rewrite Ht, length_app. destruct added; cbn.
    - rewrite Nat.add_0_r. apply Nat.ltb_irrefl.
    - apply Nat.ltb_lt. lia. }
  unfold emitProgress.
  destruct (nonempty text), (truthy (get_prop message "stopReason")),
    (truthy (get_prop message "errorMessage")),
    (truthy (get_prop message "model")), (0 <? length added)%nat eqn:Hadd, b;
    cbn -[Nat.ltb]; rewrite ?Hlen, ?Hadd, ?app_nil_r; cbn;
    split_and!; eauto; congruence.
Qed.

(** What an assistant message leaves alone when something throws. *)
Lemma apply_assistant_uncaught b message r :
  (apply_assistant b message r).2 = Uncaught ->
  let r' := (apply_assistant b message r).1 in
  messages r' = messages r /\ finalText r' = finalText r /\
  stopReason r' = stopReason r /\ errorMessage r' = errorMessage r /\
  model r' = model r /\ notified r' = notified r.
Proof.
  unfold apply_assistant.
  destruct (extractAssistantToolCalls message) as [calls|]; [|now cbn].
  pose proof (record_calls_frame calls false r) as Hframe.
  destruct (record_calls calls false r) as [[r1 changed1] []]; cbn [fst] in *;
    [|intros _; exact Hframe].
  destruct (extractAssistantText message) as [text|];
    [|intros _; exact Hframe].
  now split_ifs.
Qed.

Lemma times_recorded_none k calls :
  k ∉ recorded_keys calls -> times_recorded k calls = 0%nat.
Proof.
  unfold times_recorded, recorded_keys.
  induction calls as [|c rest IH]; intros Hnotin; [reflexivity|].
  rewrite filter_cons. cbn [omap list_omap] in Hnotin.
  destruct (decide (key_of c = Some k)) as [Heq|Hne].
  - rewrite Heq in Hnotin. exfalso. apply Hnotin. constructor.
  - apply IH. intros Hin. apply Hnotin.
    destruct (key_of c); [now constructor|exact Hin].
Qed.

Lemma times_recorded_once k calls :
  NoDup (recorded_keys calls) -> k ∈ recorded_keys calls ->
  times_recorded k calls = 1%nat.
Proof.
  unfold times_recorded, recorded_keys.
  induction calls as [|c rest IH]; intros Hnd Hin; [inversion Hin|].
  cbn [omap list_omap] in *. rewrite filter_cons.
  destruct (key_of c) as [k'|] eqn:Hk.
  - apply NoDup_cons in Hnd as [Hnotin Hnd].
    destruct (decide (Some k' = Some k)) as [Heq|Hne].
    + injection Heq as ->. cbn [length]. f_equal.
      now apply times_recorded_none.
    + apply IH; [exact Hnd|].
      apply elem_of_cons in Hin as [->|Hin]; [congruence|exact Hin].
  - destruct (decide (None = Some k)); [discriminate|]. now apply IH.
Qed.

Lemma seen_inv_ext r r' :
  toolCalls r' = toolCalls r -> seenToolCalls r' = seenToolCalls r ->
  seen_inv r -> seen_inv r'.
Proof. unfold seen_inv. now intros -> ->. Qed.

Lemma seen_inv_init : seen_inv reducer_init.
Proof.
  split; [constructor|]. intros k. cbn.
  split; intros Hin; [set_solver|inversion Hin].
Qed.

Lemma record_calls_inv calls : forall changed r,
  seen_inv r -> seen_inv (record_calls calls changed r).1.1.
Proof.
  induction calls as [|call rest IH]; intros changed r Hinv; [exact Hinv|].
  cbn [record_calls].
  destruct (call_key call) as [key|] eqn:Hkey; [|exact Hinv].
  destruct (seen_has (seenToolCalls r) key) eqn:Hseen.
  - now apply IH.
  - apply IH. now apply seen_inv_record.
Qed.

(** The invariant holds along every run of the reducer. *)
Lemma processLine_seen_inv b line r :
  seen_inv r -> seen_inv (processLine b line r).1.
Proof.
  intros Hinv. unfold processLine.
  destruct (decode line) as [message|]; [|exact Hinv].
  assert (Hpush : seen_inv (push_message message r))
    by (now apply (seen_inv_ext r)).
  destruct (role_is_assistant message); cbn [negb]; [|exact Hpush].
  destruct (extractAssistantToolCalls message) as [calls|] eqn:Hcalls.
  - destruct (apply_assistant_calls b message calls
                (push_message message r) Hcalls) as (Ht & Hs & _).
    eapply seen_inv_ext; [exact Ht|exact Hs|]. now apply record_calls_inv.
  - unfold apply_assistant. now rewrite Hcalls.
Qed.

(** The key of a call of the interface is the key the specification
    words. *)
Lemma wf_call_key c :
  wf_call c = true ->
  call_key c = Some (JStr (claimed_key c)) /\
  key_of c = Some (KStr (claimed_key c)).
Proof.
  unfold key_of, call_key, wf_call, claimed_key, ToString_value.
  destruct (id c) as [[| | |[|x s]| |]|], (name c) as [[| | |n| |]|];
    cbn; intros Hwf; try discriminate; now split.
Qed.

Lemma times_recorded_app k l1 l2 :
  times_recorded k (l1 ++ l2)
  = (times_recorded k l1 + times_recorded k l2)%nat.
Proof. unfold times_recorded. now rewrite filter_app, length_app. Qed.

(** C6.  A message-completed line whose tool calls are as the
    interface has them - the id a string or missing, the name a string:
    a well-formed event - is applied twice to a reducer state of a run.
    The second application changes neither the recorded tool calls nor
    the set of seen keys.  The first appends calls of the message, in
    their order, under keys that were new and are pairwise different.
    After one application as after two, exactly one recorded call has
    the key of a call of the message, and a call whose key was new and
    is shared by no other call of the message is itself among the
    recorded calls.  The key is the one the specification words: the
    [id] when present (an empty-string id counts as absent), and
    otherwise the name, a colon and the serialized arguments. *)
Theorem C6_same_event_twice_records_each_call_once
  b line message calls r :
  seen_inv r ->
  decode line = Some message ->
  extractAssistantToolCalls message = Some calls ->
  forallb wf_call calls = true ->
  let r1 := (processLine b line r).1 in
  let r2 := (processLine b line r1).1 in
  toolCalls r2 = toolCalls r1 /\
  seenToolCalls r2 = seenToolCalls r1 /\
  (exists added,
     toolCalls r1 = toolCalls r ++ added /\
     added `sublist_of` calls /\
     NoDup (List.map claimed_key added) /\
     Forall (fun c => KStr (claimed_key c) ∉ seenToolCalls r) added) /\
  Forall (fun c =>
    times_recorded (KStr (claimed_key c)) (toolCalls r1) = 1%nat /\
    times_recorded (KStr (claimed_key c)) (toolCalls r2) = 1%nat /\
    (KStr (claimed_key c) ∉ seenToolCalls r ->
     (forall c', c' ∈ calls -> claimed_key c' = claimed_key c -> c' = c) ->
     c ∈ toolCalls r1 /\ c ∈ toolCalls r2)) calls.
Proof.
  intros Hinv Hdec Hcalls Hwf r1 r2.
  rewrite forallb_forall in Hwf.
  assert (Hkey : forall c, c ∈ calls ->
            call_key c = Some (JStr (claimed_key c)) /\
            key_of c = Some (KStr (claimed_key c))).
  { intros c Hc. apply wf_call_key, Hwf. now apply list_elem_of_In. }
  assert (Hprim : Forall (fun c => is_Some (key_of c)) calls).
  { apply Forall_forall. intros c Hc. destruct (Hkey c Hc) as [_ ->].
    now eexists. }
  destruct (role_is_assistant message) eqn:Hrole.
  - assert (Hpush : seen_inv (push_message message r))
      by (now apply (seen_inv_ext r)).
    destruct (record_calls_spec calls false _ Hpush Hprim)
      as (_ & Hinv0 & added & Hadded & Hsub & Hfresh & Hset & Hall0).
    set (r0 := (record_calls calls false (push_message message r)).1.1) in *.
    cbn [push_message toolCalls seenToolCalls] in Hadded, Hfresh, Hset.
    assert (H1 : toolCalls r1 = toolCalls r0 /\
                 seenToolCalls r1 = seenToolCalls r0).
    { subst r1. rewrite (processLine_assistant b line message r Hdec Hrole).
      destruct (apply_assistant_calls b message calls
                  (push_message message r) Hcalls) as (? & ? & _).
      now split. }
    destruct H1 as [Ht1 Hs1].
    assert (H2 : toolCalls r2 = toolCalls r1 /\
                 seenToolCalls r2 = seenToolCalls r1).
    { subst r2. rewrite (processLine_assistant b line message r1 Hdec Hrole).
      destruct (apply_assistant_calls b message calls
                  (push_message message r1) Hcalls) as (Ht & Hs & _).
      rewrite Ht, Hs, record_calls_seen_all; [now split|].
      cbn [push_message seenToolCalls]. rewrite Hs1.
      apply Forall_forall. intros c Hc.
      destruct (Hkey c Hc) as [Hck Hko].
      exists (JStr (claimed_key c)). split; [exact Hck|].
      unfold seen_has. cbn [prim_key]. apply bool_decide_eq_true.
      rewrite Forall_forall in Hall0. now apply (Hall0 c Hc). }
    destruct H2 as [Ht2 Hs2].
    assert (Hadded_keys : forall c, c ∈ added ->
              key_of c = Some (KStr (claimed_key c))).
    { intros c Hc. apply Hkey. now apply (elem_of_sublist added calls). }
    assert (Hrec : recorded_keys added
                   = List.map (fun c => KStr (claimed_key c)) added).
    { clear -Hadded_keys. unfold recorded_keys.
      induction added as [|c rest IH]; [reflexivity|].
      cbn [omap list_omap List.map].
      rewrite (Hadded_keys c) by now left.
      f_equal. apply IH. intros c' Hc'. apply Hadded_keys. now right. }
    split; [exact Ht2|]. split; [exact Hs2|]. split.
    + exists added. rewrite Ht1. split_and!; auto.
      * destruct Hinv0 as [Hnd _]. rewrite Hadded in Hnd.
        unfold recorded_keys in Hnd. rewrite omap_app in Hnd.
        apply NoDup_app in Hnd as (_ & _ & Hnd).
        fold (recorded_keys added) in Hnd. rewrite Hrec in Hnd.
        rewrite <- (List.map_map claimed_key KStr) in Hnd.
        exact (NoDup_fmap_1 KStr _ Hnd).
      * apply Forall_forall. intros c Hc.
        rewrite Forall_forall in Hfresh.
        now apply (Hfresh c Hc), Hadded_keys.
    + rewrite Ht2, Ht1.
      apply Forall_forall. intros c Hc.
      destruct (Hkey c Hc) as [_ Hko].
      assert (Hin : KStr (claimed_key c) ∈ seenToolCalls r0).
      { rewrite Forall_forall in Hall0. now apply (Hall0 c Hc). }
      assert (times_recorded (KStr (claimed_key c)) (toolCalls r0) = 1%nat)
        as ->.
      { destruct Hinv0 as [Hnd Hiff]. apply times_recorded_once; [exact Hnd|].
        now apply Hiff. }
      split; [reflexivity|]. split; [reflexivity|].
      intros Hnew Honly.
      apply Hset in Hin as [Hin|Hin]; [contradiction|].
      apply list_elem_of_omap in Hin as (c0 & Hc0 & Hk0).
      assert (Hc0' : c0 ∈ calls) by now apply (elem_of_sublist added calls).
      rewrite (Hadded_keys c0 Hc0) in Hk0. injection Hk0 as Hk0.
      rewrite (Honly c0 Hc0' Hk0) in Hc0.
      assert (c ∈ toolCalls r0)
        by (rewrite Hadded; apply elem_of_app; now right).
      now split.
  - unfold extractAssistantToolCalls in Hcalls. rewrite Hrole in Hcalls.
    injection Hcalls as <-.
    subst r2 r1.
    rewrite (processLine_other_role b line message r Hdec Hrole).
    cbn [fst].
    rewrite (processLine_other_role b line message _ Hdec Hrole).
    cbn [fst push_message toolCalls seenToolCalls].
    split; [reflexivity|]. split; [reflexivity|]. split; [|constructor].
    exists []. rewrite app_nil_r.
    split_and!; [reflexivity|constructor|constructor|constructor].
Qed.

(** The text the source extracts from well-formed parts is the text the
    specification words. *)
Lemma well_formed_texts parts :
  forallb well_formed_part parts = true ->
  exists ts,
    texts_of_parts parts = Some ts /\
    all_of (List.map join_element ts)
    = Some (List.map part_text (List.filter is_text_part parts)).
Proof.
  induction parts as [|part rest IH]; [now exists []|].
  cbn [forallb]. intros Hwf. apply andb_true_iff in Hwf as [Hpart Hrest].
  destruct (IH Hrest) as (ts & Hts & Hall).
  cbn [texts_of_parts List.filter]. rewrite Hts. unfold is_text_part at 1.
  destruct part as [| | | | |members]; try discriminate.
  unfold well_formed_part in Hpart.
  destruct (is_str (get_prop (JObj members) "type") "text") eqn:Htype.
  - exists (get_prop (JObj members) "text" :: ts). split; [reflexivity|].
    cbn [List.map all_of]. rewrite Hall. unfold part_text.
    destruct (get_prop (JObj members) "text") as [[]|]; try discriminate.
    reflexivity.
  - exists ts. now split.
Qed.

Lemma well_formed_calls parts :
  forallb well_formed_part parts = true ->
  exists calls,
    toolCalls_of_parts parts = Some calls /\ forallb wf_call calls = true.
Proof.
  induction parts as [|part rest IH]; [now exists []|].
  cbn [forallb]. intros Hwf. apply andb_true_iff in Hwf as [Hpart Hrest].
  destruct (IH Hrest) as (calls & Hcalls & Hall).
  cbn [toolCalls_of_parts]. rewrite Hcalls.
  destruct part as [| | | | |members]; try discriminate.
  unfold well_formed_part in Hpart.
  destruct (is_str (get_prop (JObj members) "type") "toolCall") eqn:Htype.
  - eexists. split; [reflexivity|]. cbn [forallb]. rewrite Hall, andb_true_r.
    unfold wf_call. cbn [id name].
    apply andb_true_iff in Hpart as [_ Hpart]. exact Hpart.
  - exists calls. now split.
Qed.

Lemma well_formed_text message parts :
  role_is_assistant message = true ->
  get_prop message "content" = Some (JArr parts) ->
  forallb well_formed_part parts = true ->
  extractAssistantText message = Some (claimed_text parts) /\
  exists calls,
    extractAssistantToolCalls message = Some calls /\
    Forall (fun c => is_Some (call_key c)) calls.
Proof.
  intros Hrole Hcontent Hwf.
  unfold extractAssistantText, extractAssistantToolCalls.
  rewrite Hrole, Hcontent. cbn [negb].
  destruct (well_formed_texts parts Hwf) as (ts & -> & ->).
  split; [reflexivity|].
  destruct (well_formed_calls parts Hwf) as (calls & -> & Hall).
  exists calls. split; [reflexivity|].
  rewrite forallb_forall in Hall. apply Forall_forall. intros c Hc.
  destruct (wf_call_key c) as [-> _]; [|now eexists].
  apply Hall. now apply list_elem_of_In.
Qed.

Lemma role_is_assistant_iff message :
  role_is_assistant message = true <->
  get_prop message "role" = Some (JStr (js "assistant")).
Proof.
  unfold role_is_assistant, is_str.
  destruct (get_prop message "role") as [[| | |s| |]|];
    try (split; discriminate).
  rewrite bool_decide_eq_true. split; congruence.
Qed.

Lemma processLine_finalText b line message parts r :
  decode line = Some message ->
  get_prop message "role" = Some (JStr (js "assistant")) ->
  get_prop message "content" = Some (JArr parts) ->
  forallb well_formed_part parts = true ->
  (processLine b line r).2 = Normal /\
  finalText (processLine b line r).1
  = if nonempty (claimed_text parts) then claimed_text parts
    else finalText r.
Proof.
  intros Hdec Hrole Hcontent Hwf.
  apply role_is_assistant_iff in Hrole.
  rewrite (processLine_assistant b line message r Hdec Hrole).
  destruct (well_formed_text message parts Hrole Hcontent Hwf)
    as (Htext & calls & Hcalls & Hkeys).
  destruct (apply_assistant_fields b message calls _
              (push_message message r) Hcalls Hkeys Htext)
    as (Hn & _ & _ & _ & Hf & _).
  split; [exact Hn|exact Hf].
Qed.

(** C7.  Two assistant messages whose content parts are well formed
    are applied in order; the text of the first - the texts of its text
    parts joined by line feeds and trimmed - is not empty, nor is that
    of the second.  Then [finalText] is the text of the first after the
    first and the text of the second after the second: the text is
    replaced, not appended to.  Such a message whose text is empty
    leaves [finalText] as it was. *)
Theorem C7_assistant_text_replaces_finalText
  b lineA lineB messageA messageB partsA partsB r :
  decode lineA = Some messageA ->
  get_prop messageA "role" = Some (JStr (js "assistant")) ->
  get_prop messageA "content" = Some (JArr partsA) ->
  forallb well_formed_part partsA = true ->
  claimed_text partsA <> [] ->
  decode lineB = Some messageB ->
  get_prop messageB "role" = Some (JStr (js "assistant")) ->
  get_prop messageB "content" = Some (JArr partsB) ->
  forallb well_formed_part partsB = true ->
  claimed_text partsB <> [] ->
  let rA := (processLine b lineA r).1 in
  let rB := (processLine b lineB rA).1 in
  finalText rA = claimed_text partsA /\
  finalText rB = claimed_text partsB /\
  forall lineE messageE partsE r',
    decode lineE = Some messageE ->
    get_prop messageE "role" = Some (JStr (js "assistant")) ->
    get_prop messageE "content" = Some (JArr partsE) ->
    forallb well_formed_part partsE = true ->
    claimed_text partsE = [] ->
    (processLine b lineE r').2 = Normal /\
    finalText (processLine b lineE r').1 = finalText r'.
Proof.
  intros HdA HrA HcA HwA HneA HdB HrB HcB HwB HneB rA rB.
  destruct (processLine_finalText b lineA messageA partsA r HdA HrA HcA HwA)
    as [_ HA].
  destruct (processLine_finalText b lineB messageB partsB rA HdB HrB HcB HwB)
    as [_ HB].
  fold rA in HA. fold rB in HB.
  split; [|split].
  - rewrite HA. now destruct (claimed_text partsA).
  - rewrite HB. now destruct (claimed_text partsB).
  - intros lineE messageE partsE r' HdE HrE HcE HwE HtE.
    destruct (processLine_finalText b lineE messageE partsE r' HdE HrE HcE HwE)
      as [Hn Hf].
    split; [exact Hn|]. now rewrite Hf, HtE.
Qed.

Lemma decode_unparsable line :
  JSON_parse (trim line) = None -> decode line = None.
Proof. unfold decode. intros ->. now destruct (nonempty (trim line)). Qed.

Lemma decode_other_discriminator line event :
  JSON_parse (trim line) = Some event ->
  is_str (get_prop event "type") "message_end" = false ->
  decode line = None.
Proof.
  unfold decode. intros -> ->.
  destruct (nonempty (trim line)); [|reflexivity]. cbn [negb].
  now destruct (negb (truthy (Some event)) || negb (is_object (Some event))).
Qed.

(** C8.  A line that [JSON.parse] rejects (the runner parses the
    trimmed line), or whose parsed value does not carry the
    discriminator [type === "message_end"], decodes to no event;
    [processLine] returns normally with the reducer unchanged -
    final text, tool calls, seen keys, stop reason, error message, model
    and the list of progress notifications - and the listener that
    handed the line over leaves the whole run as it was. *)
Theorem C8_non_event_lines_change_nothing b line r :
  (JSON_parse (trim line) = None \/
   exists event, JSON_parse (trim line) = Some event /\
                 is_str (get_prop event "type") "message_end" = false) ->
  decode line = None /\
  processLine b line r = (r, Normal) /\
  forall options m, processLines options [line] m = m.
Proof.
  intros Hline.
  assert (Hdec : decode line = None).
  { destruct Hline as [Hbad|(event & Hev & Htype)].
    - now apply decode_unparsable.
    - now apply (decode_other_discriminator line event). }
  split; [exact Hdec|]. split; [now apply processLine_ignored|].
  intros options m. cbn [processLines].
  rewrite (processLine_ignored _ line (red m) Hdec). now destruct m.
Qed.

(** *** Trimming *)

Lemma trimStart_snoc_space s c :
  is_js_space c = true ->
  trimStart (s ++ [c])
  = match trimStart s with [] => [] | t => t ++ [c] end.
Proof.
  intros Hc. induction s as [|a r IH]; cbn [app trimStart].
  - now rewrite Hc.
  - destruct (is_js_space a); [exact IH|reflexivity].
Qed.

Lemma trim_cons_space c s : is_js_space c = true -> trim (c :: s) = trim s.
Proof. intros Hc. unfold trim. cbn [trimStart]. now rewrite Hc. Qed.

Lemma trim_snoc_space s c : is_js_space c = true -> trim (s ++ [c]) = trim s.
Proof.
  intros Hc. unfold trim. rewrite (trimStart_snoc_space s c Hc).
  destruct (trimStart s) as [|a t]; [reflexivity|].
  rewrite rev_app_distr. cbn [rev app trimStart]. now rewrite Hc.
Qed.

Lemma trim_blank_around pre s post :
  blank pre = true -> blank post = true -> trim (pre ++ s ++ post) = trim s.
Proof.
  intros Hpre Hpost.
  induction pre as [|c pre IH]; cbn [app].
  - clear Hpre. induction post as [|c post IH] using rev_ind.
    + now rewrite app_nil_r.
    + unfold blank in Hpost. rewrite forallb_app in Hpost.
      apply andb_true_iff in Hpost as [Hpost Hc]. cbn in Hc.
      rewrite andb_true_r in Hc.
      rewrite app_assoc, trim_snoc_space by exact Hc. now apply IH.
  - cbn in Hpre. apply andb_true_iff in Hpre as [Hc Hpre].
    rewrite trim_cons_space by exact Hc. now apply IH.
Qed.

Lemma trimStart_clean s : starts_clean (trimStart s).
Proof.
  induction s as [|c r IH]; cbn; [exact I|].
  destruct (is_js_space c) eqn:Hc; [exact IH|exact Hc].
Qed.

Lemma trimStart_of_clean s : starts_clean s -> trimStart s = s.
Proof. destruct s as [|c r]; cbn; [reflexivity|]. now intros ->. Qed.

Lemma trimStart_suffix s : exists pre, s = pre ++ trimStart s.
Proof.
  induction s as [|c r [pre IH]]; [now exists []|].
  cbn. destruct (is_js_space c); [|now exists []].
  exists (c :: pre). cbn. now rewrite <- IH.
Qed.

(** A trimmed string starts and ends with a character that is no white
    space. *)
Lemma trim_clean s : starts_clean (trim s) /\ starts_clean (rev (trim s)).
Proof.
  unfold trim. rewrite rev_involutive.
  split; [|apply trimStart_clean].
  pose proof (trimStart_clean s) as Ha.
  destruct (trimStart_suffix (rev (trimStart s))) as [pre Hpre].
  set (b := trimStart (rev (trimStart s))) in *.
  apply (f_equal (@rev N)) in Hpre.
  rewrite rev_involutive, rev_app_distr in Hpre. rewrite Hpre in Ha.
  destruct (rev b); [exact I|exact Ha].
Qed.

Lemma trim_idempotent s : trim (trim s) = trim s.
Proof.
  destruct (trim_clean s) as [Hstart Hend].
  unfold trim at 1.
  rewrite (trimStart_of_clean _ Hstart), (trimStart_of_clean _ Hend).
  apply rev_involutive.
Qed.

Lemma trimStart_nil_blank s : trimStart s = [] <-> blank s = true.
Proof.
  induction s as [|c r IH]; cbn; [tauto|].
  destruct (is_js_space c); cbn; [exact IH|].
  split; discriminate.
Qed.

Lemma blank_rev s : blank (rev s) = blank s.
Proof.
  unfold blank. induction s as [|c r IH]; [reflexivity|].
  cbn. rewrite forallb_app, IH. cbn. rewrite andb_true_r. apply andb_comm.
Qed.

(** A string trims to the empty string exactly when it is blank. *)
Lemma nonempty_trim_blank s : nonempty (trim s) = negb (blank s).
Proof.
  destruct (blank s) eqn:Hb; cbn [negb].
  - pose proof (trim_blank_around s [] [] Hb eq_refl) as Ht.
    rewrite app_nil_r in Ht. now rewrite Ht.
  - destruct (trim s) eqn:Ht; [|reflexivity]. exfalso.
    unfold trim in Ht. apply (f_equal (@rev N)) in Ht.
    rewrite rev_involutive in Ht. cbn in Ht.
    apply trimStart_nil_blank in Ht. rewrite blank_rev in Ht.
    pose proof (trimStart_clean s) as Hclean.
    destruct (trimStart s) as [|c r] eqn:Hs.
    + apply trimStart_nil_blank in Hs. congruence.
    + cbn in Ht, Hclean. rewrite Hclean in Ht. discriminate.
Qed.

(** *** More on one line *)

(** White space around a line, a carriage return before the line feed
    for one, makes no difference to what the line does. *)
Theorem surrounding_whitespace_is_ignored b pre line post r :
  blank pre = true -> blank post = true ->
  decode (pre ++ line ++ post) = decode line /\
  processLine b (pre ++ line ++ post) r = processLine b line r.
Proof.
  intros Hpre Hpost.
  assert (Hdec : decode (pre ++ line ++ post) = decode line)
    by (unfold decode; now rewrite trim_blank_around).
  split; [exact Hdec|]. unfold processLine. now rewrite Hdec.
Qed.

Lemma toolCalls_of_parts_None parts :
  toolCalls_of_parts parts = None <-> JNull ∈ parts.
Proof.
  induction parts as [|part rest IH]; cbn [toolCalls_of_parts].
  - split; [discriminate|intros Hin; inversion Hin].
  - rewrite elem_of_cons.
    destruct (toolCalls_of_parts rest) as [calls|].
    + assert (Hrest : JNull ∉ rest) by (intros Hin; now apply IH in Hin).
      destruct part; try (split; [now auto|tauto]).
      all: split_ifs; split; try discriminate;
        intros [Heq|Hin]; try discriminate; contradiction.
    + assert (Hrest : JNull ∈ rest) by now apply IH.
      destruct part; split; auto.
Qed.

Lemma texts_of_parts_None parts :
  texts_of_parts parts = None <-> JNull ∈ parts.
Proof.
  induction parts as [|part rest IH]; cbn [texts_of_parts].
  - split; [discriminate|intros Hin; inversion Hin].
  - rewrite elem_of_cons.
    destruct (texts_of_parts rest) as [ts|].
    + assert (Hrest : JNull ∉ rest) by (intros Hin; now apply IH in Hin).
      destruct part; try (split; [now auto|tauto]).
      all: split_ifs; split; try discriminate;
        intros [Heq|Hin]; try discriminate; contradiction.
    + assert (Hrest : JNull ∈ rest) by now apply IH.
      destruct part; split; auto.
Qed.

Lemma toolCalls_of_parts_cons part rest :
  part <> JNull ->
  toolCalls_of_parts (part :: rest)
  = match toolCalls_of_parts rest with
    | None => None
    | Some calls =>
        if is_str (get_prop part "type") "toolCall" then
          Some ({| id := get_prop part "id";
                   name := get_prop part "name";
                   arguments :=
                     if is_object (get_prop part "arguments")
                     then default (JObj []) (get_prop part "arguments")
                     else JObj [] |} :: calls)
        else Some calls
    end.
Proof. destruct part; [congruence|reflexivity..]. Qed.

Lemma texts_of_parts_cons part rest :
  part <> JNull ->
  texts_of_parts (part :: rest)
  = match texts_of_parts rest with
    | None => None
    | Some ts =>
        if is_str (get_prop part "type") "text"
        then Some (get_prop part "text" :: ts)
        else Some ts
    end.
Proof. destruct part; [congruence|reflexivity..]. Qed.

Lemma json_values_ind (P : json -> Prop) :
  P JNull -> (forall b, P (JBool b)) -> (forall m e, P (JNum m e)) ->
  (forall s, P (JStr s)) -> (forall xs, Forall P xs -> P (JArr xs)) ->
  (forall members, P (JObj members)) -> forall v, P v.
Proof.
  intros Hnull Hbool Hnum Hstr Harr Hobj.
  fix IH 1. intros [|b|m e|s|xs|members].
  - exact Hnull.
  - apply Hbool.
  - apply Hnum.
  - apply Hstr.
  - apply Harr. induction xs as [|x xs IHxs]; constructor;
      [apply IH|exact IHxs].
  - apply Hobj.
Qed.

(** [ToString] throws exactly on the values without a string form. *)
Lemma ToString_unprintable v : ToString v = None <-> unprintable v = true.
Proof.
  induction v as [|[]| | |xs IH|members] using json_values_ind;
    cbn [ToString unprintable]; try (split; discriminate).
  - induction IH as [|x xs Hx _ IHxs]; cbn [List.map all_of existsb];
      [split; discriminate|].
    rewrite orb_true_iff, <- Hx, <- IHxs.
    assert (Helem : match x with JNull => Some [] | _ => ToString x end = None
                    <-> ToString x = None)
      by (destruct x; [split; discriminate|reflexivity..]).
    destruct (match x with JNull => Some [] | _ => ToString x end) as [t|];
      destruct (all_of (List.map _ xs)) as [printed|].
    + split; [discriminate|]. intros [Hx'|?]; [|discriminate].
      apply Helem in Hx'. discriminate.
    + split; [right; reflexivity|reflexivity].
    + split; [left; now apply Helem|reflexivity].
    + split; [right; reflexivity|reflexivity].
  - destruct (obj_get members (js "toString")); split; auto; discriminate.
Qed.

Lemma prints_ToString_value v : prints (ToString_value v) = printable v.
Proof.
  destruct v as [j|]; [|reflexivity]. cbn [ToString_value printable].
  pose proof (ToString_unprintable j) as Hj.
  destruct (ToString j), (unprintable j); cbn; auto.
  - destruct Hj as [_ Hj]. now specialize (Hj eq_refl).
  - destruct Hj as [Hj _]. now specialize (Hj eq_refl).
Qed.


Lemma prints_join_element v : prints (join_element v) = printable v.
Proof.
  destruct v as [j|]; [|reflexivity].
  destruct j as [|b|m e|s|xs|members]; [reflexivity|..].
  - exact (prints_ToString_value (Some (JBool b))).
  - exact (prints_ToString_value (Some (JNum m e))).
  - exact (prints_ToString_value (Some (JStr s))).
  - exact (prints_ToString_value (Some (JArr xs))).
  - exact (prints_ToString_value (Some (JObj members))).
Qed.

Lemma part_completes_nonnull part :
  part <> JNull ->
  part_completes part
  = (if is_str (get_prop part "type") "toolCall"
     then truthy (get_prop part "id")
          || prints (ToString_value (get_prop part "name"))
     else true)
    && (if is_str (get_prop part "type") "text"
        then prints (join_element (get_prop part "text"))
        else true).
Proof.
  rewrite prints_ToString_value, prints_join_element.
  destruct part; [congruence|reflexivity..].
Qed.

Lemma call_key_prints c :
  is_Some (call_key c) <->
  truthy (id c) || prints (ToString_value (name c)) = true.
Proof.
  unfold call_key.
  destruct (truthy (id c)); cbn [orb]; [split; [reflexivity|now eexists]|].
  destruct (ToString_value (name c)); cbn; split; try discriminate;
    try (now eexists); intros [? ?]; discriminate.
Qed.

(** The parts [processLine] gets past are those from which the calls
    can be read and keyed and the texts read and joined. *)
Lemma parts_complete parts :
  forallb part_completes parts = true <->
  exists calls ts printed,
    toolCalls_of_parts parts = Some calls /\
    Forall (fun c => is_Some (call_key c)) calls /\
    texts_of_parts parts = Some ts /\
    all_of (List.map join_element ts) = Some printed.
Proof.
  induction parts as [|part rest IH].
  - split; [|reflexivity]. intros _. exists [], [], []. now split_and!.
  - assert (Hnull : part = JNull \/ part <> JNull)
      by (destruct part; [left|right..]; congruence).
    destruct Hnull as [->|Hpart].
    { split; [discriminate|]. intros (? & ? & ? & Hc & _). discriminate. }
    cbn [forallb].
    rewrite (part_completes_nonnull part Hpart),
      (toolCalls_of_parts_cons part rest Hpart),
      (texts_of_parts_cons part rest Hpart), !andb_true_iff, IH.
    set (call := {| id := get_prop part "id"; name := get_prop part "name";
                    arguments := _ |}).
    pose proof (call_key_prints call) as Hcall. cbn [id name] in Hcall.
    split.
    + intros [[Ha Hb] (calls & ts & printed & -> & Hkeys & -> & Hall)].
      destruct (is_str (get_prop part "type") "toolCall"),
        (is_str (get_prop part "type") "text").
      * destruct (join_element (get_prop part "text")) as [t|] eqn:Ht;
          [|discriminate].
        exists (call :: calls), (get_prop part "text" :: ts), (t :: printed).
        cbn [List.map all_of]. rewrite Ht, Hall. split_and!; auto.
        constructor; [now apply Hcall|exact Hkeys].
      * exists (call :: calls), ts, printed. split_and!; auto.
        constructor; [now apply Hcall|exact Hkeys].
      * destruct (join_element (get_prop part "text")) as [t|] eqn:Ht;
          [|discriminate].
        exists calls, (get_prop part "text" :: ts), (t :: printed).
        cbn [List.map all_of]. rewrite Ht, Hall. now split_and!.
      * exists calls, ts, printed. now split_and!.
    + intros (calls' & ts' & printed' & Hc & Hkeys & Ht & Hall).
      destruct (toolCalls_of_parts rest) as [calls|]; [|discriminate].
      destruct (texts_of_parts rest) as [ts|]; [|discriminate].
      destruct (is_str (get_prop part "type") "toolCall"),
        (is_str (get_prop part "type") "text");
        injection Hc as <-; injection Ht as <-;
        cbn [List.map all_of] in Hall.
      * destruct (join_element (get_prop part "text")) as [t|];
          [|discriminate].
        destruct (all_of (List.map join_element ts)) as [printed|] eqn:Hp;
          [|discriminate].
        inversion Hkeys as [|? ? Hk Hrest]; subst.
        split; [split; [now apply Hcall|reflexivity]|].
        exists calls, ts, printed. now split_and!.
      * inversion Hkeys as [|? ? Hk Hrest]; subst.
        split; [split; [now apply Hcall|reflexivity]|].
        exists calls, ts, printed'. now split_and!.
      * destruct (join_element (get_prop part "text")) as [t|];
          [|discriminate].
        destruct (all_of (List.map join_element ts)) as [printed|] eqn:Hp;
          [|discriminate].
        split; [now split|]. exists calls, ts, printed. now split_and!.
      * split; [now split|]. exists calls, ts, printed'. now split_and!.
Qed.

(** For an assistant message nothing throws exactly when the calls can
    be read and keyed and the text extracted. *)
Lemma apply_assistant_normal b message r :
  (apply_assistant b message r).2 = Normal <->
  exists calls text,
    extractAssistantToolCalls message = Some calls /\
    Forall (fun c => is_Some (call_key c)) calls /\
    extractAssistantText message = Some text.
Proof.
  split.
  - unfold apply_assistant.
    destruct (extractAssistantToolCalls message) as [calls|]; [|discriminate].
    pose proof (record_calls_completion calls false r) as Hcomp.
    destruct (record_calls calls false r) as [[r1 changed1] []];
      cbn [snd] in *; [|discriminate].
    destruct (extractAssistantText message) as [text|]; [|discriminate].
    intros _. exists calls, text. split_and!; auto. now apply Hcomp.
  - intros (calls & text & Hcalls & Hkeys & Htext).
    now destruct (apply_assistant_fields b message calls text r
                    Hcalls Hkeys Htext) as [Hn _].
Qed.

Lemma completes_spec message :
  role_is_assistant message = true ->
  completes message = true <->
  exists calls text,
    extractAssistantToolCalls message = Some calls /\
    Forall (fun c => is_Some (call_key c)) calls /\
    extractAssistantText message = Some text.
Proof.
  intros Hrole.
  unfold completes, extractAssistantToolCalls, extractAssistantText.
  rewrite Hrole. cbn [negb].
  destruct (get_prop message "content") as [[| | | |parts|]|];
    try (split; [discriminate|intros (? & ? & ? & ? & ?); discriminate]).
  rewrite parts_complete. split.
  - intros (calls & ts & printed & -> & Hkeys & -> & ->).
    exists calls. eexists. now split_and!.
  - intros (calls & text & Hc & Hkeys & Ht).
    destruct (texts_of_parts parts) as [ts|]; [|discriminate].
    destruct (all_of (List.map join_element ts)) as [printed|] eqn:Hp;
      [|discriminate].
    exists calls, ts, printed. now split_and!.
Qed.

(** For a decoded assistant message [processLine] completes exactly
    when the content is an array whose parts it gets past: none is
    [null], the name of every tool call without a truthy id has a string
    form, for the key, and so has the text of every text part, for
    [join]; only an object with a member "toString", or an array holding
    one, has none.  When the content is no array or holds a [null] part
    the exception comes before anything but [messages] has changed;
    whenever there is an exception, the text, the stop reason, the error
    message and the model are as before and no progress is reported. *)
Theorem assistant_content_decides_the_exception b line message r :
  decode line = Some message ->
  get_prop message "role" = Some (JStr (js "assistant")) ->
  ((processLine b line r).2 = Normal <-> completes message = true) /\
  (content_unreadable message ->
   processLine b line r = (push_message message r, Uncaught)) /\
  ((processLine b line r).2 = Uncaught ->
   let r' := (processLine b line r).1 in
   messages r' = messages r ++ [message] /\
   finalText r' = finalText r /\ stopReason r' = stopReason r /\
   errorMessage r' = errorMessage r /\ model r' = model r /\
   notified r' = notified r).
Proof.
  intros Hdec Hrole. apply role_is_assistant_iff in Hrole.
  rewrite (processLine_assistant b line message r Hdec Hrole).
  split_and!.
  - now rewrite apply_assistant_normal, completes_spec.
  - unfold content_unreadable, apply_assistant, extractAssistantToolCalls,
      extractAssistantText.
    rewrite Hrole. cbn [negb].
    destruct (get_prop message "content") as [[| | |s|parts|]|];
      try reflexivity.
    intros Hin. now apply toolCalls_of_parts_None in Hin as ->.
  - intros Hun.
    exact (apply_assistant_uncaught b message (push_message message r) Hun).
Qed.
Lemma completes_fields b line message r :
  decode line = Some message ->
  get_prop message "role" = Some (JStr (js "assistant")) ->
  completes message = true ->
  exists calls text,
    extractAssistantToolCalls message = Some calls /\
    Forall (fun c => is_Some (call_key c)) calls /\
    extractAssistantText message = Some text /\
    processLine b line r = apply_assistant b message (push_message message r).
Proof.
  intros Hdec Hrole Hok. apply role_is_assistant_iff in Hrole.
  apply (completes_spec message Hrole) in Hok
    as (calls & text & Hcalls & Hkeys & Htext).
  exists calls, text. split_and!; auto.
  now apply processLine_assistant.
Qed.

(** Of [stopReason], [errorMessage] and [model] the last truthy
    value an assistant message carried is kept; a message without the
    field, or with an empty or [null] one, leaves the older value.  The
    message is one [processLine] gets through: these assignments come
    last. *)
Theorem latest_truthy_field_wins b line message r :
  decode line = Some message ->
  get_prop message "role" = Some (JStr (js "assistant")) ->
  completes message = true ->
  let r' := (processLine b line r).1 in
  (processLine b line r).2 = Normal /\
  stopReason r'
  = (if truthy (get_prop message "stopReason")
     then get_prop message "stopReason" else stopReason r) /\
  errorMessage r'
  = (if truthy (get_prop message "errorMessage")
     then get_prop message "errorMessage" else errorMessage r) /\
  model r'
  = (if truthy (get_prop message "model")
     then get_prop message "model" else model r).
Proof.
  intros Hdec Hrole Hok.
  destruct (completes_fields b line message r Hdec Hrole Hok)
    as (calls & text & Hcalls & Hkeys & Htext & ->).
  destruct (apply_assistant_fields b message calls text
              (push_message message r) Hcalls Hkeys Htext)
    as (Hn & _ & _ & _ & _ & Hs & He & Hm & _).
  cbn zeta. rewrite Hs, He, Hm. now split_and!.
Qed.

(** For a message [processLine] gets through, the callback
    [onProgress] is called, once, exactly when the caller gave one and
    the message recorded a new tool call, carried text or carried a stop
    reason; it is given the state after the whole message.  A new
    [errorMessage] or [model] alone is not reported. *)
Theorem progress_reported_iff_changed b line message r :
  decode line = Some message ->
  get_prop message "role" = Some (JStr (js "assistant")) ->
  completes message = true ->
  let r' := (processLine b line r).1 in
  exists text,
    extractAssistantText message = Some text /\
    notified r'
    = notified r ++
      (if b && ((length (toolCalls r) <? length (toolCalls r'))%nat
                || nonempty text
                || truthy (get_prop message "stopReason"))
       then [{| snap_text := finalText r'; snap_toolCalls := toolCalls r';
                snap_model := model r'; snap_stopReason := stopReason r' |}]
       else []).
Proof.
  intros Hdec Hrole Hok.
  destruct (completes_fields b line message r Hdec Hrole Hok)
    as (calls & text & Hcalls & Hkeys & Htext & ->).
  destruct (apply_assistant_fields b message calls text
              (push_message message r) Hcalls Hkeys Htext)
    as (_ & _ & _ & _ & _ & _ & _ & _ & Hn).
  exists text. split; [exact Htext|]. exact Hn.
Qed.

(** *** What holds of the reducer after every line *)

Lemma is_object_arguments parts : forall calls,
  toolCalls_of_parts parts = Some calls -> object_arguments calls.
Proof.
  induction parts as [|part rest IH]; intros calls.
  - intros [= <-]. constructor.
  - cbn [toolCalls_of_parts].
    destruct (toolCalls_of_parts rest) as [calls'|];
      [|destruct part; discriminate].
    specialize (IH calls' eq_refl).
    assert (Hgoal :
      (if is_str (get_prop part "type") "toolCall" then
         Some ({| id := get_prop part "id"; name := get_prop part "name";
                  arguments :=
                    if is_object (get_prop part "arguments")
                    then default (JObj []) (get_prop part "arguments")
                    else JObj [] |} :: calls')
       else Some calls') = Some calls -> object_arguments calls).
    { destruct (is_str (get_prop part "type") "toolCall");
        intros [= <-]; [|exact IH].
      constructor; [|exact IH]. cbn [arguments].
      destruct (get_prop part "arguments") as [[]|]; reflexivity. }
    destruct part; try exact Hgoal. discriminate.
Qed.

Lemma extracted_calls_have_objects message calls :
  extractAssistantToolCalls message = Some calls -> object_arguments calls.
Proof.
  unfold extractAssistantToolCalls.
  destruct (negb (role_is_assistant message)); [intros [= <-]; constructor|].
  destruct (get_prop message "content") as [[| | |s|parts|]|];
    try discriminate.
  - intros [= <-]. constructor.
  - apply is_object_arguments.
Qed.

Lemma extracted_text_is_trimmed message text :
  extractAssistantText message = Some text -> trim text = text.
Proof.
  unfold extractAssistantText.
  destruct (negb (role_is_assistant message)); [now intros [= <-]|].
  destruct (get_prop message "content") as [[| | | |parts|]|];
    try discriminate.
  destruct (texts_of_parts parts); [|discriminate].
  destruct (all_of _); [|discriminate].
  intros [= <-]. apply trim_idempotent.
Qed.

Lemma snapshot_within_mono r r' s :
  toolCalls r `prefix_of` toolCalls r' ->
  snapshot_within r s -> snapshot_within r' s.
Proof.
  intros Hpre (Hs & Ht & Ho). split_and!; auto. now transitivity (toolCalls r).
Qed.

Lemma record_calls_objects calls changed r :
  object_arguments calls -> object_arguments (toolCalls r) ->
  toolCalls r `prefix_of` toolCalls (record_calls calls changed r).1.1 /\
  object_arguments (toolCalls (record_calls calls changed r).1.1).
Proof.
  intros Hcalls Hr.
  destruct (record_calls_added calls changed r) as (added & -> & _ & Hin & _).
  split; [now apply prefix_app_r|].
  apply Forall_app. split; [exact Hr|].
  unfold object_arguments in Hcalls. rewrite Forall_forall in Hcalls.
  eapply Forall_impl; [exact Hin|]. intros c Hc. now apply Hcalls.
Qed.

(** One line keeps the invariant, whether it is ignored, recorded only,
    applied, or ends in an exception. *)
Lemma processLine_reducer_inv b line r :
  reducer_inv b r -> reducer_inv b (processLine b line r).1.
Proof.
  intros Hinv. unfold processLine.
  destruct (decode line) as [message|]; [|exact Hinv].
  destruct Hinv as (Hf & Ho & Hn & Hlen & Hoff).
  set (r0 := push_message message r).
  assert (Hlen0 : (length (notified r0) < length (messages r0))%nat).
  { subst r0. cbn [push_message messages notified]. rewrite length_app.
    cbn [length]. lia. }
  assert (Hinv0 : trim (finalText r0) = finalText r0 /\
                  object_arguments (toolCalls r0) /\
                  Forall (snapshot_within r0) (notified r0) /\
                  (b = false -> notified r0 = []))
    by (subst r0; now split_and!).
  clearbody r0. clear Hf Ho Hn Hlen Hoff.
  destruct Hinv0 as (Hf & Ho & Hn & Hoff).
  destruct (role_is_assistant message); cbn [negb];
    [|cbn [fst]; unfold reducer_inv; split_and!; auto; lia].
  unfold apply_assistant.
  destruct (extractAssistantToolCalls message) as [calls|] eqn:Hcalls.
  2: { cbn [fst]. unfold reducer_inv. split_and!; auto. lia. }
  pose proof (extracted_calls_have_objects _ _ Hcalls) as Hobj.
  destruct (record_calls_objects calls false r0 Hobj Ho) as [Hpre Ho1].
  pose proof (record_calls_frame calls false r0)
    as (Hm1 & Hf1 & Hs1 & He1 & Hmo1 & Hn1).
  destruct (record_calls calls false r0) as [[r1 changed1] comp].
  cbn [fst] in *.
  assert (Hn1' : Forall (snapshot_within r1) (notified r1)).
  { rewrite Hn1. eapply Forall_impl; [exact Hn|].
    intros s. now apply snapshot_within_mono. }
  assert (Hlen1 : (length (notified r1) < length (messages r1))%nat)
    by (rewrite Hn1, Hm1; exact Hlen0).
  assert (Hoff1 : b = false -> notified r1 = [])
    by (rewrite Hn1; exact Hoff).
  assert (Hf1' : trim (finalText r1) = finalText r1) by now rewrite Hf1.
  clear Hn1 Hm1 Hf1 Hs1 He1 Hmo1 Hn Hlen0 Hoff Hf Ho Hpre.
  assert (Hr1 : reducer_inv b r1)
    by (unfold reducer_inv; split_and!; auto; lia).
  destruct comp; [|exact Hr1].
  destruct (extractAssistantText message) as [text|] eqn:Htext;
    [|exact Hr1].
  clear Hr1.
  pose proof (extracted_text_is_trimmed _ _ Htext) as Htrim.
  unfold emitProgress.
  destruct (nonempty text), (truthy (get_prop message "stopReason")),
    (truthy (get_prop message "errorMessage")),
    (truthy (get_prop message "model")), changed1, b;
    cbn [fst]; unfold reducer_inv, snapshot_within;
    cbn [set_finalText set_stopReason set_errorMessage set_model
         finalText toolCalls notified messages snap_toolCalls snap_text];
    rewrite ?length_app; cbn [length];
    rewrite ?Forall_app, ?Forall_singleton;
    split_and!; auto; try lia; try (intros ?; discriminate).
Qed.

(** One line only appends to what the reducer has collected. *)
Lemma processLine_grows b line r : grows r (processLine b line r).1.
Proof.
  unfold processLine.
  destruct (decode line) as [message|]; [|now unfold grows].
  assert (Hpush : grows r (push_message message r)).
  { unfold grows. cbn [push_message messages toolCalls notified seenToolCalls].
    split_and!; auto. now apply prefix_app_r. }
  destruct (role_is_assistant message); cbn [negb]; [|exact Hpush].
  set (r0 := push_message message r) in *.
  assert (Hstep : grows r0 (apply_assistant b message r0).1);
    [|destruct Hpush as (A1 & A2 & A3 & A4), Hstep as (B1 & B2 & B3 & B4);
      unfold grows; split_and!;
      [ now transitivity (messages r0) | now transitivity (toolCalls r0)
      | now transitivity (notified r0) | now transitivity (seenToolCalls r0) ]].
  unfold apply_assistant.
  destruct (extractAssistantToolCalls message) as [calls|];
    [|now unfold grows].
  destruct (record_calls_added calls false r0) as (added & Ht & _ & _ & Hsub).
  pose proof (record_calls_frame calls false r0)
    as (Hm1 & Hf1 & Hs1 & He1 & Hmo1 & Hn1).
  destruct (record_calls calls false r0) as [[r1 changed1] comp].
  cbn [fst] in *.
  assert (Hpre : toolCalls r0 `prefix_of` toolCalls r1)
    by (rewrite Ht; now apply prefix_app_r).
  assert (Hr1 : grows r0 r1)
    by (unfold grows; rewrite Hm1, Hn1; now split_and!).
  destruct comp; [|exact Hr1].
  destruct (extractAssistantText message) as [text|]; [|exact Hr1].
  unfold emitProgress.
  destruct (nonempty text), (truthy (get_prop message "stopReason")),
    (truthy (get_prop message "errorMessage")),
    (truthy (get_prop message "model")), changed1, b;
    cbn [fst]; unfold grows;
    cbn [set_finalText set_stopReason set_errorMessage set_model
         finalText toolCalls notified messages seenToolCalls];
    rewrite ?Hm1, ?Hn1; split_and!; auto; now apply prefix_app_r.
Qed.

End ReducerFacts.

(** C6 at the reference host: a line with a call "ls" under the id
    "call_1" and twice the call "cat" without an id, applied twice to
    the initial reducer. *)
Lemma C6_witness :
  let process := processLine (H := RefHost.host) true RefHost.line_three_calls in
  let r1 := (process reducer_init).1 in
  let r2 := (process r1).1 in
  let ls := {| id := Some (JStr (js "call_1")); name := Some (JStr (js "ls"));
               arguments := JObj [] |} in
  toolCalls r2 = toolCalls r1 /\
  length (toolCalls r1) = 2%nat /\
  ls ∈ toolCalls r1 /\
  times_recorded (H := RefHost.host)
    (KStr (js "cat:" ++ RefHost.text "{'path':'a'}")) (toolCalls r2) = 1%nat.
Proof.
  intros process r1 r2 ls.
  pose (message :=
          default JNull (decode (H := RefHost.host) RefHost.line_three_calls)).
  pose (cat := {| id := None; name := Some (JStr (js "cat"));
                  arguments := JObj [(js "path", JStr (js "a"))] |}).
  destruct (C6_same_event_twice_records_each_call_once (H := RefHost.host)
              true RefHost.line_three_calls message [ls; cat; cat]
              reducer_init)
    as (Hsame & _ & _ & Hall).
  - apply seen_inv_init.
  - vm_compute. reflexivity.
  - vm_compute. reflexivity.
  - vm_compute. reflexivity.
  - apply Forall_cons in Hall as [(_ & _ & Hls) Hall].
    apply Forall_cons in Hall as [(_ & Hcat & _) _].
    split; [exact Hsame|]. split; [vm_compute; reflexivity|].
    split; [|exact Hcat].
    apply Hls.
    + cbn [seenToolCalls reducer_init]. apply not_elem_of_empty.
    + intros c' Hc' Heq.
      apply elem_of_cons in Hc' as [->|Hc']; [reflexivity|].
      exfalso.
      assert (c' = cat) as ->.
      { apply elem_of_cons in Hc' as [->|Hc']; [reflexivity|].
        apply elem_of_cons in Hc' as [->|Hc']; [reflexivity|].
        inversion Hc'. }
      vm_compute in Heq. discriminate.
Defined.

(** C7 at the reference host: the texts "A" and then "B", and then a
    message with a tool call and no text. *)
Lemma C7_witness :
  let rA := (processLine (H := RefHost.host) true (RefHost.line_text "A")
               reducer_init).1 in
  let rB := (processLine (H := RefHost.host) true (RefHost.line_text "B") rA).1 in
  let rE := (processLine (H := RefHost.host) true RefHost.line_toolCall rB).1 in
  finalText rA = js "A" /\ finalText rB = js "B" /\ finalText rE = js "B".
Proof.
  intros rA rB rE.
  pose (part := fun t : string => JObj [(js "type", JStr (js "text"));
                               (js "text", JStr (js t))]).
  pose (message := fun t : string =>
          JObj [(js "role", JStr (js "assistant"));
                (js "content", JArr [part t])]).
  destruct (C7_assistant_text_replaces_finalText (H := RefHost.host) true
              (RefHost.line_text "A") (RefHost.line_text "B")
              (message "A"%string) (message "B"%string)
              [part "A"%string] [part "B"%string] reducer_init)
    as (HA & HB & Hempty).
  1-4, 6-9: vm_compute; reflexivity.
  1-2: vm_compute; discriminate.
  split; [exact HA|]. split; [exact HB|].
  pose (call := JObj [(js "type", JStr (js "toolCall"));
                      (js "id", JStr (js "call_1"));
                      (js "name", JStr (js "ls"));
                      (js "arguments", JObj [])]).
  destruct (Hempty RefHost.line_toolCall
              (JObj [(js "role", JStr (js "assistant"));
                     (js "content", JArr [call])]) [call] rB)
    as [_ HE].
  1-5: vm_compute; reflexivity.
  unfold rE. rewrite HE. exact HB.
Defined.

(** C8 at the reference host: a line of noise and a line that is another
    kind of event. *)
Lemma C8_witness :
  processLine (H := RefHost.host) true RefHost.line_noise reducer_init
    = (reducer_init, Normal) /\
  processLine (H := RefHost.host) true RefHost.line_other_event reducer_init
    = (reducer_init, Normal).
Proof.
  split.
  - apply (C8_non_event_lines_change_nothing (H := RefHost.host)).
    left. vm_compute. reflexivity.
  - apply (C8_non_event_lines_change_nothing (H := RefHost.host)).
    right. eexists. split; vm_compute; reflexivity.
Defined.

(** ** The run *)

Section RunFacts.

Context `{H : Host}.
Variable w : world.
Variable options : Options.t.

Local Abbreviation step' := (step w options).
Local Abbreviation run := (runSubagent w options).

(** Handing lines to [processLine] changes the reducer and may end in
    an uncaught exception; it changes nothing else. *)
Lemma processLines_shape lines : forall m,
  exists r c, processLines options lines m = set_crashed c (set_red r m) /\
              (c = crashed m \/ c = true).
Proof.
  induction lines as [|line rest IH]; intros m.
  - exists (red m), (crashed m). split; [now destruct m|now left].
  - cbn [processLines].
    destruct (processLine (Options.onProgress options) line (red m)) as [r []].
    + destruct (IH (set_red r m)) as (r' & c & -> & Hc).
      exists r', c. split; [reflexivity|exact Hc].
    + exists r, true. split; [reflexivity|now right].
Qed.

(** The callbacks of the grace timers only try to send SIGKILL: after a
    delivered signal they do nothing, and once the child is gone their
    attempt reaches nobody. *)
Lemma run_timers_shape ms pending : forall m,
  exists acts k ts,
    run_timers ms pending m
    = set_timers ts (set_killed k (set_log (log m ++ acts) m)) /\
    (killed m = true -> k = true /\ acts = []) /\
    (alive m = false -> killed m = false ->
       k = false /\ Forall (fun a => a = DoKill SIGKILL false) acts).
Proof.
  induction pending as [|t rest IH]; intros m.
  - exists [], (killed m), (timers m). rewrite app_nil_r.
    split; [now destruct m|]. split; [auto|]. intros _ Hk. now split.
  - cbn [run_timers]. destruct (t <=? ms).
    + unfold on_timeout, proc_kill.
      destruct (killed m) eqn:Hk; cbn [negb].
      * destruct (IH m) as (acts & k & ts & -> & Hk1 & Hk2).
        exists acts, k, ts. split; [reflexivity|].
        split; [intros _; now apply Hk1|discriminate].
      * destruct (alive m) eqn:Ha.
        -- destruct (IH (set_killed true (effect (DoKill SIGKILL true) m)))
             as (acts & k & ts & -> & Hk1 & _).
           destruct (Hk1 eq_refl) as [-> ->].
           exists [DoKill SIGKILL true], true, ts.
           split; [destruct m; cbn; now rewrite app_nil_r|].
           split; discriminate.
        -- destruct (IH (effect (DoKill SIGKILL false) m))
             as (acts & k & ts & -> & _ & Hk2).
           destruct (Hk2 Ha Hk) as [-> Hacts].
           exists (DoKill SIGKILL false :: acts), false, ts.
           split; [destruct m; cbn in *; now rewrite <- app_assoc|].
           split; [discriminate|]. intros _ _. split; [reflexivity|].
           now constructor.
    + destruct (IH m) as (acts & k & ts & -> & Hk1 & Hk2).
      exists acts, k, ((t - ms) :: ts).
      split; [reflexivity|]. now split.
Qed.

Lemma on_stdout_shape data m :
  exists r c tail,
    on_stdout options data m = set_crashed c (set_red r (set_buffer tail m)) /\
    (c = crashed m \/ c = true).
Proof.
  unfold on_stdout.
  destruct (feed (buffer m) (Buffer_toString data)) as [lines tail].
  destruct (processLines_shape lines (set_buffer tail m)) as (r & c & -> & Hc).
  now exists r, c, tail.
Qed.

(** The 'close' listener hands [flushed buffer] to [processLine]. *)
Lemma on_close_flushes code m :
  on_close w options code m
  = let m1 := processLines options (flushed (buffer m)) m in
    if crashed m1 then m1 else resolveOnce w (default 0%Z code) m1.
Proof. unfold on_close, flushed. now destruct (nonempty (trim (buffer m))). Qed.

(** The 'close' listener either dies in the last [processLine] or
    reaches [resolveOnce]. *)
Lemma on_close_shape code m :
  crashed m = false ->
  exists r,
    on_close w options code m = set_crashed true (set_red r m) \/
    on_close w options code m = resolveOnce w (default 0%Z code) (set_red r m).
Proof.
  intros Hcr. unfold on_close.
  destruct (nonempty (trim (buffer m))).
  - destruct (processLines_shape [buffer m] m) as (r & c & -> & [->| ->]).
    + exists r. right. rewrite Hcr. destruct m; cbn in *. now subst.
    + exists r. now left.
  - rewrite Hcr. exists (red m). right. now destruct m.
Qed.

Ltac ctl_fields :=
  cbn [promptFile settled result log timers killed alive aborted listening
       crashed red stderr buffer
       set_red set_stderr set_aborted set_settled set_buffer set_alive
       set_killed set_listening set_timers set_crashed set_log set_result
       effect].

Lemma release_cases m : release w m = m \/ release w m = set_alive false m.
Proof. unfold release. destruct (spawn w); auto. Qed.

Lemma filter_snoc (f : action -> bool) l a :
  List.filter f (l ++ [a]) = List.filter f l ++ (if f a then [a] else []).
Proof. rewrite List.filter_app. reflexivity. Qed.

Lemma resolves_snoc l a :
  resolves (l ++ [a]) = (resolves l + if is_resolve a then 1 else 0)%nat.
Proof.
  unfold resolves. rewrite filter_snoc, length_app. now destruct (is_resolve a).
Qed.

Lemma ctl_inv_resolveOnce pf code m :
  ctl_inv w pf m -> ctl_inv w pf (resolveOnce w code m).
Proof.
  intros Hinv. unfold resolveOnce. destruct (settled m) eqn:Hs.
  - exact Hinv.
  - destruct Hinv as (Hpf & Hpend & Hset & Htim & Hkill & Hlis).
    destruct (Hpend Hs) as (Hres & Hcount & Hclean).
    unfold continuation, cleanup. ctl_fields. rewrite Hpf.
    assert (Hno : forall l, Forall (fun a => a <> DoKill SIGKILL true) l ->
              forall a, a <> DoKill SIGKILL true ->
              Forall (fun a => a <> DoKill SIGKILL true) (l ++ [a])).
    { intros l Hl a Ha. apply Forall_app. split; [exact Hl|]. now constructor. }
    destruct pf as [[dir file]|]; unfold ctl_inv; ctl_fields; split_and!.
    all: try reflexivity.
    all: try exact Hpf.
    all: try (intros ?; discriminate).
    all: try exact Htim.
    all: try exact Hlis.
    all: try (repeat apply Hno; try discriminate; exact Hkill).
    all: intros _; split_and!;
      [ now destruct (aborted m)
      | rewrite !resolves_snoc, Hcount; reflexivity
      | rewrite !filter_snoc, Hclean; reflexivity ].
Qed.

Lemma Forall_snoc_ne (l : list action) a b :
  Forall (fun x => x <> b) l -> a <> b -> Forall (fun x => x <> b) (l ++ [a]).
Proof. intros Hl Ha. apply Forall_app. split; [exact Hl|now constructor]. Qed.

Lemma ctl_inv_step pf m e : ctl_inv w pf m -> ctl_inv w pf (step' m e).
Proof.
  intros Hinv. unfold step.
  destruct (crashed m) eqn:Hcr; [exact Hinv|].
  destruct e as [data|data| |code|name message| |ms].
  - destruct (on_stdout_shape data m) as (r & c & tail & -> & _).
    exact Hinv.
  - exact Hinv.
  - destruct Hinv as (Hpf & Hpend & Hset & Htim & Hkill & Hlis).
    unfold ctl_inv; ctl_fields; split_and!; auto.
  - assert (Hinv' : forall r, ctl_inv w pf (set_red r (set_alive false m))).
    { intros r. destruct Hinv as (Hpf & Hpend & Hset & Htim & Hkill & Hlis).
      unfold ctl_inv; ctl_fields; split_and!; auto. }
    destruct (on_close_shape code (set_alive false m) Hcr) as [r [-> | ->]].
    + exact (Hinv' r).
    + apply ctl_inv_resolveOnce, Hinv'.
  - unfold on_error. apply ctl_inv_resolveOnce.
    destruct (release_cases m) as [-> | ->]; [exact Hinv|].
    destruct Hinv as (Hpf & Hpend & Hset & Htim & Hkill & Hlis).
    unfold ctl_inv; ctl_fields; split_and!; auto.
  - destruct Hinv as (Hpf & Hpend & Hset & Htim & Hkill & Hlis).
    unfold on_abort, kill, proc_kill.
    destruct (listening m) eqn:Hl;
      [|unfold ctl_inv; split_and!; auto].
    ctl_fields.
    assert (Hfilter : forall f : action -> bool,
              f (DoSetTimeout grace_ms) = false ->
              (forall d, f (DoKill SIGTERM d) = false) ->
              forall d, List.filter f
                          ((log m ++ [DoKill SIGTERM d]) ++
                           [DoSetTimeout grace_ms])
                        = List.filter f (log m)).
    { intros f Hf1 Hf2 d. rewrite !filter_snoc, Hf1, Hf2, !app_nil_r.
      reflexivity. }
    destruct (alive m) eqn:Ha; unfold ctl_inv, resolves; ctl_fields;
      rewrite !Hfilter by (intros; reflexivity); split_and!; auto.
    all: repeat apply Forall_snoc_ne; try discriminate; exact Hkill.
  - destruct Hinv as (Hpf & Hpend & Hset & Htim & Hkill & Hlis).
    unfold on_elapse.
    destruct (timers m) as [|t rest] eqn:Ht.
    { cbn [run_timers]. unfold ctl_inv; ctl_fields; split_and!; auto. }
    destruct (run_timers_shape ms (t :: rest) (set_timers [] m))
      as (acts & k & ts & -> & Hk1 & Hk2).
    cbn [killed alive set_timers] in Hk1, Hk2.
    assert (Hacts : k = true /\ acts = [] \/
                    alive m = false /\ k = false /\
                    Forall (fun a => a = DoKill SIGKILL false) acts).
    { destruct (killed m) eqn:Hk; [left; now apply Hk1|].
      destruct Htim as [Hk'|Ha]; [discriminate|discriminate|].
      right. split; [exact Ha|]. now apply Hk2. }
    destruct Hacts as [[-> ->]|(Ha & -> & Hacts)].
    + rewrite app_nil_r.
      unfold ctl_inv; ctl_fields; split_and!; auto.
    + assert (Hfilter : forall f : action -> bool,
                f (DoKill SIGKILL false) = false ->
                List.filter f (log m ++ acts) = List.filter f (log m)).
      { intros f Hf. rewrite List.filter_app.
        replace (List.filter f acts) with (@nil action);
          [now rewrite app_nil_r|].
        clear -Hacts Hf. induction Hacts as [|a l -> _ IH]; [reflexivity|].
        cbn. now rewrite Hf. }
      unfold ctl_inv, resolves; ctl_fields.
      rewrite !Hfilter by reflexivity. split_and!; auto.
      apply Forall_app. split; [exact Hkill|].
      eapply Forall_impl; [exact Hacts|]. intros a ->. discriminate.
Qed.

(** One turn of the loop, listener by listener. *)
Ltac step_cases m e Hcr :=
  unfold step; rewrite Hcr;
  destruct e as [data|data| |code|name message| |ms];
  [ destruct (on_stdout_shape data m) as (?r & ?c & ?tail & -> & _)
  | unfold on_stderr
  | idtac
  | destruct (on_close_shape code (set_alive false m) Hcr) as [?r [-> | ->]];
    [|unfold resolveOnce, continuation, cleanup]
  | destruct (release_cases m) as [-> | ->];
    unfold on_error, resolveOnce, continuation, cleanup
  | unfold on_abort, kill, proc_kill
  | unfold on_elapse;
    destruct (run_timers_shape ms (timers m) (set_timers [] m))
      as (?acts & ?k & ?ts & -> & ?Hk1 & ?Hk2) ];
  ctl_fields.

Ltac split_machine_ifs m :=
  repeat match goal with
         | |- context [if settled m then _ else _] => destruct (settled m) eqn:?
         | |- context [if listening m then _ else _] => destruct (listening m) eqn:?
         | |- context [if alive m then _ else _] => destruct (alive m) eqn:?
         | |- context [if aborted m then _ else _] => destruct (aborted m) eqn:?
         | |- context [match promptFile m with _ => _ end] =>
             destruct (promptFile m) as [[? ?]|] eqn:?
         end; ctl_fields.

Lemma step_crashed m e : crashed m = true -> step' m e = m.
Proof. unfold step. now intros ->. Qed.

Lemma crashed_sticky m e : crashed m = true -> crashed (step' m e) = true.
Proof. intros Hcr. now rewrite step_crashed. Qed.

(** Once settled, settled for good, and the outcome stays. *)
Lemma settled_sticky m e :
  settled m = true ->
  settled (step' m e) = true /\ result (step' m e) = result m.
Proof.
  intros Hs. destruct (crashed m) eqn:Hcr; [now rewrite step_crashed|].
  step_cases m e Hcr; split_machine_ifs m; try rewrite Hs; ctl_fields;
    auto; congruence.
Qed.

(** Only [kill] writes [aborted], and it writes [true]. *)
Lemma aborted_sticky m e : aborted m = true -> aborted (step' m e) = true.
Proof.
  intros Ha. destruct (crashed m) eqn:Hcr; [now rewrite step_crashed|].
  step_cases m e Hcr; split_machine_ifs m; auto; congruence.
Qed.

(** A child that is gone stays gone and receives nothing. *)
Lemma gone_sticky m e :
  alive m = false ->
  alive (step' m e) = false /\ delivered (log (step' m e)) = delivered (log m).
Proof.
  intros Ha. destruct (crashed m) eqn:Hcr; [now rewrite step_crashed|].
  unfold delivered.
  step_cases m e Hcr; split_machine_ifs m; rewrite ?filter_snoc, ?app_nil_r;
    auto; try congruence.
  cbn [killed alive set_timers] in Hk1, Hk2. split; [exact Ha|].
  rewrite List.filter_app.
  destruct (killed m) eqn:Hk.
  - destruct (Hk1 eq_refl) as [_ ->]. now rewrite app_nil_r.
  - destruct (Hk2 Ha eq_refl) as [_ Hacts].
    replace (List.filter is_delivery acts) with (@nil action);
      [now rewrite app_nil_r|].
    clear -Hacts. induction Hacts as [|a l -> _ IH]; [reflexivity|exact IH].
Qed.

(** While nothing has settled the run, only 'close' and 'error' can. *)
Lemma pending_step m e :
  settled m = false ->
  (forall code, e <> ProcClose code) ->
  (forall name message, e <> ProcError name message) ->
  settled (step' m e) = false /\ result (step' m e) = result m.
Proof.
  intros Hs Hclose Herror.
  destruct (crashed m) eqn:Hcr; [now rewrite step_crashed|].
  step_cases m e Hcr; split_machine_ifs m; auto; try congruence.
  all: try (exfalso; now eapply Hclose).
  all: exfalso; now eapply Herror.
Qed.

(** The 'close' listener settles the run unless it dies. *)
Lemma close_settles m code :
  crashed (step' m (ProcClose code)) = false ->
  settled (step' m (ProcClose code)) = true.
Proof.
  destruct (crashed m) eqn:Hcr; [rewrite step_crashed; congruence|].
  unfold step. rewrite Hcr.
  destruct (on_close_shape code (set_alive false m) Hcr) as [r [-> | ->]];
    [discriminate|].
  intros _. unfold resolveOnce, continuation, cleanup. ctl_fields.
  split_machine_ifs m; auto.
Qed.

(** [processLine] reads and writes the reducer only: an assignment to
    another variable commutes with it. *)
Lemma processLines_commute (f : machine -> machine) :
  (forall m, red (f m) = red m) ->
  (forall r m, f (set_red r m) = set_red r (f m)) ->
  (forall c m, f (set_crashed c m) = set_crashed c (f m)) ->
  forall lines m,
    processLines options lines (f m) = f (processLines options lines m).
Proof.
  intros Hred Hset Hcr lines.
  induction lines as [|line rest IH]; intros m; [reflexivity|].
  cbn [processLines]. rewrite Hred.
  destruct (processLine _ line (red m)) as [r []].
  - rewrite <- Hset. apply IH.
  - now rewrite Hcr, Hset.
Qed.

Lemma processLines_set_alive lines a m :
  processLines options lines (set_alive a m)
  = set_alive a (processLines options lines m).
Proof. now apply (processLines_commute (set_alive a)). Qed.

Lemma processLines_set_buffer lines b m :
  processLines options lines (set_buffer b m)
  = set_buffer b (processLines options lines m).
Proof. now apply (processLines_commute (set_buffer b)). Qed.

(** Lines are handed over one after the other until one of them ends in
    an exception. *)
Lemma processLines_app lines1 lines2 : forall m,
  crashed m = false ->
  processLines options (lines1 ++ lines2) m
  = if crashed (processLines options lines1 m)
    then processLines options lines1 m
    else processLines options lines2 (processLines options lines1 m).
Proof.
  induction lines1 as [|line rest IH]; intros m Hcr.
  - cbn. now rewrite Hcr.
  - cbn [app processLines].
    destruct (processLine _ line (red m)) as [r []]; [now apply IH|].
    reflexivity.
Qed.

(** What the run settles to when 'close' is the first to settle it:
    the reducer is the one left by the last [processLine] on the
    tail. *)
Lemma close_outcome m code :
  settled m = false -> crashed m = false ->
  let m' := step' m (ProcClose code) in
  let r := red (processLines options (flushed (buffer m)) m) in
  crashed m' = true \/
  red m' = r /\
  result m'
  = (if aborted m then Threw abort_message
     else Returned
            {| Result.exitCode := default 0%Z code;
               Result.stderr := stderr m;
               Result.messages := messages r;
               Result.finalText := finalText r;
               Result.toolCalls := toolCalls r;
               Result.stopReason := stopReason r;
               Result.errorMessage := errorMessage r;
               Result.model := model r |}).
Proof.
  intros Hs Hcr m' r. subst m' r. unfold step. rewrite Hcr.
  unfold on_close, flushed. ctl_fields.
  destruct (nonempty (trim (buffer m))).
  - rewrite processLines_set_alive.
    destruct (processLines_shape [buffer m] m) as (r & c & -> & Hc).
    ctl_fields. destruct c; [now left|]. right.
    unfold resolveOnce, continuation, cleanup. ctl_fields.
    rewrite Hs. ctl_fields.
    split_machine_ifs m; split_and!; reflexivity.
  - cbn [processLines]. ctl_fields. rewrite Hcr. right.
    unfold resolveOnce, continuation, cleanup. ctl_fields. rewrite Hs.
    ctl_fields. split_machine_ifs m; split_and!; reflexivity.
Qed.

(** What the run settles to when 'error' is the first to settle it. *)
Lemma error_outcome m name message :
  settled m = false -> crashed m = false ->
  let m' := step' m (ProcError name message) in
  settled m' = true /\
  DoResolve 1 ∈ log m' /\
  result m'
  = (if aborted m then Threw abort_message
     else Returned
            {| Result.exitCode := 1;
               Result.stderr := stderr m ++ name ++ js ": " ++ message;
               Result.messages := messages (red m);
               Result.finalText := finalText (red m);
               Result.toolCalls := toolCalls (red m);
               Result.stopReason := stopReason (red m);
               Result.errorMessage := Some (JStr message);
               Result.model := model (red m) |}).
Proof.
  intros Hs Hcr m'. subst m'. unfold step. rewrite Hcr.
  destruct (release_cases m) as [-> | ->];
    unfold on_error, resolveOnce, continuation, cleanup; ctl_fields;
    rewrite Hs; ctl_fields;
    split_machine_ifs m; split_and!; try reflexivity.
  all: rewrite ?elem_of_app, !list_elem_of_singleton; auto.
Qed.

(** *** Whole runs *)

Lemma fold_inv (P : machine -> Prop) :
  (forall m e, P m -> P (step' m e)) ->
  forall trace m, P m -> P (fold_left step' trace m).
Proof.
  intros Hstep trace. induction trace as [|e rest IH]; intros m Hm;
    [exact Hm|]. cbn. apply IH, Hstep, Hm.
Qed.

Lemma createPromptFile_ok prompt pf done :
  createPromptFile w prompt = (FsOk pf, done) ->
  (nonempty (trim prompt) = false /\ pf = None /\ done = []) \/
  (nonempty (trim prompt) = true /\
   exists dir file,
     pf = Some (dir, file) /\
     done = [DoMkdtemp dir; DoWriteFile file prompt]).
Proof.
  unfold createPromptFile. destruct (nonempty (trim prompt)); cbn [negb].
  - destruct (mkdtempSync w _) as [dir|]; [|discriminate].
    destruct (writeFileSync w _ _); [|discriminate].
    intros [= <- <-]. right. split; [reflexivity|]. now eexists _, _.
  - intros [= <- <-]. now left.
Qed.

Lemma cleanup_result m : result (cleanup w m) = result m.
Proof. unfold cleanup. now destruct (promptFile m) as [[]|]. Qed.

(** The call either reaches its [await] or has thrown. *)
Lemma start_result :
  result (start w options) = Pending \/
  exists message, result (start w options) = Threw message.
Proof.
  unfold start.
  destruct (createPromptFile w (Options.systemPrompt options)) as [[pf|e] done].
  - unfold executor. destruct (spawn w) eqn:Hsp.
    1,2: left; unfold kill, proc_kill;
      destruct (Options.signal options) as [[]|]; reflexivity.
    right. rewrite cleanup_result. now eexists.
  - right. now eexists.
Qed.

Lemma run_pending trace :
  result (start w options) = Pending ->
  run trace = fold_left step' trace (start w options).
Proof. unfold runSubagent. now intros ->. Qed.

Lemma run_thrown trace message :
  result (start w options) = Threw message -> run trace = start w options.
Proof. unfold runSubagent. now intros ->. Qed.

Lemma run_started trace :
  (result (run trace) = Pending \/ exists r, result (run trace) = Returned r) ->
  result (start w options) = Pending.
Proof.
  intros Hres. destruct start_result as [Hp|[message Ht]]; [exact Hp|].
  rewrite (run_thrown trace message Ht), Ht in Hres.
  destruct Hres as [?|[? ?]]; discriminate.
Qed.

Lemma run_app pre post :
  result (start w options) = Pending ->
  run (pre ++ post) = fold_left step' post (run pre).
Proof.
  intros Hp. rewrite !run_pending by exact Hp. apply fold_left_app.
Qed.

Lemma start_inv :
  result (start w options) = Pending ->
  ctl_inv w (promptFile (start w options)) (start w options) /\
  settled (start w options) = false /\
  crashed (start w options) = false /\
  red (start w options) = reducer_init /\
  stderr (start w options) = [] /\ buffer (start w options) = [].
Proof.
  unfold start.
  destruct (createPromptFile w (Options.systemPrompt options))
    as [[pf|e] done] eqn:Hcreate; [|discriminate].
  assert (Hdone : List.filter is_resolve done = [] /\
                  List.filter is_cleanup done = [] /\
                  Forall (fun a => a <> DoKill SIGKILL true) done).
  { destruct (createPromptFile_ok _ _ _ Hcreate)
      as [(_ & _ & ->)|(_ & dir & file & _ & ->)]; cbn; split_and!; auto;
      repeat constructor; discriminate. }
  destruct Hdone as (Hres & Hclean & Hkill).
  unfold executor. destruct (spawn w) eqn:Hsp.
  3: { rewrite cleanup_result. discriminate. }
  all: intros _; unfold kill, proc_kill, machine_init;
    destruct (Options.signal options) as [[]|]; ctl_fields;
    unfold ctl_inv, resolves; ctl_fields;
    rewrite ?filter_snoc, ?app_nil_r; cbn [is_resolve is_cleanup];
    rewrite ?app_nil_r, ?Hres, ?Hclean; split_and!; auto;
    try discriminate; try tauto.
  all: repeat apply Forall_snoc_ne; try discriminate; exact Hkill.
Qed.

(** The control invariant holds all along a run that reached its
    [await]. *)
Lemma run_inv trace :
  result (start w options) = Pending ->
  ctl_inv w (promptFile (start w options)) (run trace).
Proof.
  intros Hp. rewrite run_pending by exact Hp.
  apply fold_inv; [intros m e; apply ctl_inv_step|]. now apply start_inv.
Qed.

Lemma fold_settled trace : forall m,
  settled m = true ->
  settled (fold_left step' trace m) = true /\
  result (fold_left step' trace m) = result m.
Proof.
  induction trace as [|e rest IH]; intros m Hs; [now split|].
  cbn. destruct (settled_sticky m e Hs) as [Hs' Hr'].
  destruct (IH _ Hs') as [Hs'' Hr'']. split; [exact Hs''|congruence].
Qed.

Lemma fold_crashed trace : forall m,
  crashed m = true -> fold_left step' trace m = m.
Proof.
  induction trace as [|e rest IH]; intros m Hcr; [reflexivity|].
  cbn. rewrite step_crashed by exact Hcr. now apply IH.
Qed.

Lemma fold_not_crashed trace m :
  crashed (fold_left step' trace m) = false -> crashed m = false.
Proof.
  intros Hfinal. destruct (crashed m) eqn:Hcr; [|reflexivity].
  now rewrite fold_crashed, Hcr in Hfinal.
Qed.

(** A run that meets 'close' and survives is settled. *)
Lemma fold_close_settles trace : forall m code,
  ProcClose code ∈ trace ->
  crashed (fold_left step' trace m) = false ->
  settled (fold_left step' trace m) = true.
Proof.
  induction trace as [|e rest IH]; intros m code Hin Hfinal;
    [inversion Hin|].
  cbn in *. apply elem_of_cons in Hin as [<-|Hin].
  - apply fold_settled, close_settles. now apply fold_not_crashed in Hfinal.
  - now apply (IH _ code).
Qed.

Lemma inv_pending_unsettled pf m :
  ctl_inv w pf m -> result m = Pending -> settled m = false.
Proof.
  intros (_ & _ & Hset & _) Hres. destruct (settled m); [|reflexivity].
  now destruct (Hset eq_refl).
Qed.

Lemma inv_returned_settled pf m r :
  ctl_inv w pf m -> result m = Returned r -> settled m = true.
Proof.
  intros (_ & Hpend & _) Hres. destruct (settled m); [reflexivity|].
  destruct (Hpend eq_refl) as [Hp _]. congruence.
Qed.

(** *** Cancellation *)

Lemma doomed_step m e : doomed m -> doomed (step' m e).
Proof.
  intros [Ha Hcases]. split; [now apply aborted_sticky|].
  destruct Hcases as [[Hs Hres]|[Hs Hres]].
  - destruct (crashed m) eqn:Hcr; [rewrite step_crashed; auto|].
    step_cases m e Hcr; rewrite ?Hs, ?Ha; split_machine_ifs m; ctl_fields;
      auto; congruence.
  - right. destruct (settled_sticky m e Hs) as [Hs' Hr']. split; congruence.
Qed.

Lemma abort_message_lowercase :
  includes (String_toLowerCase abort_message) (js "aborted") = true.
Proof.
  rewrite toLowerCase_ascii; [reflexivity|].
  unfold abort_message. repeat constructor.
Qed.

(** C1 (as amended).  The signal fires while the run awaits the child,
    the child has not exited and the listener is still registered.  Then
    the child is sent SIGTERM (and the grace timer is armed), and from
    then on the run never returns a result: once 'close' has come it has
    thrown the error "Subagent aborted".  The caller [execute] turns
    that error into a report with [isError], exit code 1 and the stop
    reason "aborted". *)
Theorem C1_abort_before_exit_sends_SIGTERM_and_throws pre :
  result (run pre) = Pending ->
  crashed (run pre) = false ->
  listening (run pre) = true ->
  alive (run pre) = true ->
  log (run (pre ++ [SignalAbort]))
  = log (run pre) ++ [DoKill SIGTERM true; DoSetTimeout 2000] /\
  forall post,
    let m := run (pre ++ SignalAbort :: post) in
    (forall r, result m <> Returned r) /\
    ((exists code, ProcClose code ∈ post) -> crashed m = false ->
     result m = Threw abort_message) /\
    (result m <> Pending ->
     execute_report (result m)
     = Some {| isError := true;
               text := JStr abort_message;
               details_exitCode := 1;
               details_stopReason := Some (JStr (js "aborted")) |}).
Proof.
  intros Hres Hcr Hlis Halive.
  assert (Hp : result (start w options) = Pending)
    by (apply (run_started pre); now left).
  pose proof (run_inv pre Hp) as Hinv.
  pose proof (inv_pending_unsettled _ _ Hinv Hres) as Hs.
  assert (Hstep : step' (run pre) SignalAbort
                  = kill (set_listening false (run pre))).
  { unfold step. rewrite Hcr. unfold on_abort. now rewrite Hlis. }
  split.
  - rewrite run_app by exact Hp. cbn [fold_left]. rewrite Hstep.
    unfold kill, proc_kill. ctl_fields. rewrite Halive. ctl_fields.
    now rewrite <- app_assoc.
  - intros post m.
    assert (Hdoomed : doomed m).
    { subst m. rewrite run_app by exact Hp. cbn [fold_left].
      apply fold_inv; [apply doomed_step|]. rewrite Hstep.
      unfold doomed, kill, proc_kill. ctl_fields.
      destruct (alive (run pre)); ctl_fields; auto. }
    destruct Hdoomed as [Ha Hcases]. split_and!.
    + intros r. destruct Hcases as [[_ ->]|[_ ->]]; discriminate.
    + intros [code Hin] Hnc.
      assert (Hsettled : settled m = true).
      { subst m. rewrite run_app in * by exact Hp.
        apply (fold_close_settles _ _ code); [|exact Hnc].
        now apply elem_of_cons; right. }
      destruct Hcases as [[Hs' _]|[_ Hr]]; [congruence|exact Hr].
    + intros Hne. destruct Hcases as [[_ Hr]|[_ Hr]]; [contradiction|].
      rewrite Hr. cbn [execute_report]. now rewrite abort_message_lowercase.
Qed.

Lemma fold_gone trace : forall m,
  alive m = false ->
  alive (fold_left step' trace m) = false /\
  delivered (log (fold_left step' trace m)) = delivered (log m).
Proof.
  induction trace as [|e rest IH]; intros m Ha; [now split|].
  cbn. destruct (gone_sticky m e Ha) as [Ha' Hd'].
  destruct (IH _ Ha') as [Ha'' Hd'']. split; [exact Ha''|congruence].
Qed.

Lemma abort_keeps_reducer_live m : red (on_abort m) = red m.
Proof.
  unfold on_abort, kill, proc_kill. ctl_fields.
  destruct (listening m), (alive m); reflexivity.
Qed.

(** The 'abort' listener leaves the reducer alone. *)
Lemma abort_keeps_reducer m : red (step' m SignalAbort) = red m.
Proof.
  unfold step, on_abort, kill, proc_kill. ctl_fields.
  destruct (crashed m), (listening m), (alive m); reflexivity.
Qed.

(** C2 (as amended).  The signal fires after 'close' has completed the
    run: [runSubagent] has returned its result and the child is gone.
    Then the cancellation changes nothing that the caller can see: the
    reducer is untouched, and with it the result as the caller reads it
    through the shared arrays; whatever follows, the promise was
    resolved exactly once, the returned result is the same, and no
    signal reaches any process. *)
Theorem C2_abort_after_close_changes_nothing pre res :
  result (run pre) = Returned res ->
  alive (run pre) = false ->
  red (run (pre ++ [SignalAbort])) = red (run pre) /\
  observed (run (pre ++ [SignalAbort])) = observed (run pre) /\
  forall post,
    let m := run (pre ++ SignalAbort :: post) in
    result m = Returned res /\
    resolves (log m) = 1%nat /\
    delivered (log m) = delivered (log (run pre)).
Proof.
  intros Hres Hgone.
  assert (Hp : result (start w options) = Pending)
    by (apply (run_started pre); right; now exists res).
  pose proof (inv_returned_settled _ _ _ (run_inv pre Hp) Hres) as Hs.
  split_and!.
  - rewrite run_app by exact Hp. apply abort_keeps_reducer.
  - unfold observed. rewrite run_app by exact Hp. cbn [fold_left].
    rewrite abort_keeps_reducer.
    now destruct (settled_sticky (run pre) SignalAbort Hs) as [_ ->].
  - intros post m. subst m.
    pose proof (run_inv (pre ++ SignalAbort :: post) Hp) as Hinv.
    rewrite run_app in * by exact Hp.
    destruct (fold_settled (SignalAbort :: post) _ Hs) as [Hs' Hr'].
    destruct (fold_gone (SignalAbort :: post) _ Hgone) as [_ Hd].
    split_and!; [congruence| |exact Hd].
    destruct Hinv as (_ & _ & Hset & _). now apply Hset.
Qed.

(** *** The grace timer *)

(** Whatever happens, no SIGKILL reaches the child: the timer's callback
    tests [proc.killed], which the delivered SIGTERM has already set. *)
Lemma SIGKILL_never_delivered trace :
  Forall (fun a => a <> DoKill SIGKILL true) (log (run trace)).
Proof.
  destruct start_result as [Hp|[message Ht]].
  - now destruct (run_inv trace Hp) as (_ & _ & _ & _ & Hkill & _).
  - rewrite (run_thrown trace message Ht). clear Ht. unfold start.
    destruct (createPromptFile w (Options.systemPrompt options))
      as [[pf|e] done] eqn:Hcreate.
    + assert (Hdone : Forall (fun a => a <> DoKill SIGKILL true) done).
      { destruct (createPromptFile_ok _ _ _ Hcreate)
          as [(_ & _ & ->)|(_ & dir & file & _ & ->)];
          repeat constructor; discriminate. }
      unfold executor, kill, proc_kill, cleanup, machine_init.
      destruct (spawn w), (Options.signal options) as [[]|];
        destruct pf as [[]|]; ctl_fields;
        repeat apply Forall_snoc_ne; try discriminate; exact Hdone.
    + unfold createPromptFile in Hcreate.
      destruct (nonempty (trim _)); cbn [negb] in Hcreate; [|discriminate].
      destruct (mkdtempSync w _); [|injection Hcreate as _ <-; constructor].
      destruct (writeFileSync w _ _); [discriminate|].
      injection Hcreate as _ <-. unfold machine_init. ctl_fields.
      repeat constructor. discriminate.
Qed.

(** *** Failure to start the child *)

(** C4 (as amended).  The 'error' event of a child that could not be
    started arrives while the run awaits and no cancellation has come
    before it.  Then [runSubagent] returns - it does not throw - a
    result with exit code 1 whose error message is the message of the
    error, non-empty whenever that message is; the error text is
    appended to [stderr]; and the result comes through [resolveOnce],
    the path that 'close' takes, which runs exactly once. *)
Theorem C4_spawn_failure_returns_exit_code_1 pre name message :
  result (run pre) = Pending ->
  crashed (run pre) = false ->
  aborted (run pre) = false ->
  DoResolve 1 ∈ log (run (pre ++ [ProcError name message])) /\
  forall post,
    let m := run (pre ++ ProcError name message :: post) in
    exists res,
      result m = Returned res /\
      Result.exitCode res = 1%Z /\
      Result.errorMessage res = Some (JStr message) /\
      (message <> [] -> truthy (Result.errorMessage res) = true) /\
      Result.stderr res = stderr (run pre) ++ name ++ js ": " ++ message /\
      resolves (log m) = 1%nat.
Proof.
  intros Hres Hcr Habort.
  assert (Hp : result (start w options) = Pending)
    by (apply (run_started pre); now left).
  pose proof (inv_pending_unsettled _ _ (run_inv pre Hp) Hres) as Hs.
  destruct (error_outcome (run pre) name message Hs Hcr)
    as (Hs1 & Hlog & Hout).
  rewrite Habort in Hout.
  split.
  - rewrite run_app by exact Hp. exact Hlog.
  - intros post m. subst m.
    pose proof (run_inv (pre ++ ProcError name message :: post) Hp) as Hinv.
    rewrite run_app in * by exact Hp. cbn [fold_left] in *.
    destruct (fold_settled post _ Hs1) as [Hs' Hr'].
    eexists. split; [rewrite Hr'; exact Hout|]. cbn.
    split_and!; try reflexivity.
    + intros Hne. now destruct message.
    + destruct Hinv as (_ & _ & Hset & _). now apply Hset.
Qed.

(** *** The prompt file *)

(** The log only grows. *)
Lemma log_grows m e : exists acts, log (step' m e) = log m ++ acts.
Proof.
  destruct (crashed m) eqn:Hcr;
    [rewrite step_crashed by exact Hcr; exists []; now rewrite app_nil_r|].
  step_cases m e Hcr; split_machine_ifs m; rewrite <- ?app_assoc;
    try (now eexists); try (exists []; now rewrite app_nil_r).
Qed.

Lemma fold_log_grows trace : forall m,
  exists acts, log (fold_left step' trace m) = log m ++ acts.
Proof.
  induction trace as [|e rest IH]; intros m;
    [exists []; now rewrite app_nil_r|].
  cbn. destruct (IH (step' m e)) as [acts ->].
  destruct (log_grows m e) as [acts' ->].
  exists (acts' ++ acts). now rewrite app_assoc.
Qed.

(** Changing the log, or how cleanup ends, changes the log only. *)
Lemma processLines_set_log lines l m :
  processLines options lines (set_log l m)
  = set_log l (processLines options lines m).
Proof. now apply (processLines_commute (set_log l)). Qed.

Lemma run_timers_set_log ms pending : forall l m,
  exists l1, run_timers ms pending (set_log l m)
             = set_log l1 (run_timers ms pending m).
Proof.
  induction pending as [|t rest IH]; intros l m; [now exists l|].
  cbn [run_timers]. destruct (t <=? ms).
  - unfold on_timeout, proc_kill. ctl_fields.
    destruct (killed m); cbn [negb]; [apply IH|].
    destruct (alive m).
    + destruct (IH (l ++ [DoKill SIGKILL true])
                  (set_killed true (effect (DoKill SIGKILL true) m)))
        as [l1 Hl1].
      exists l1. rewrite <- Hl1. reflexivity.
    + destruct (IH (l ++ [DoKill SIGKILL false])
                  (effect (DoKill SIGKILL false) m)) as [l1 Hl1].
      exists l1. rewrite <- Hl1. reflexivity.
  - destruct (IH l m) as [l1 ->]. now exists l1.
Qed.

Lemma resolveOnce_set_log w' code l m :
  exists l1, resolveOnce w' code (set_log l m)
             = set_log l1 (resolveOnce w code m).
Proof.
  unfold resolveOnce, continuation, cleanup. ctl_fields.
  destruct (settled m); [now exists l|].
  destruct (promptFile m) as [[dir file]|]; ctl_fields; now eexists.
Qed.

Lemma on_close_set_log w' code l m :
  exists l1, on_close w' options code (set_log l m)
             = set_log l1 (on_close w options code m).
Proof.
  unfold on_close. change (buffer (set_log l m)) with (buffer m).
  assert (Hend : forall x,
            exists l1,
              (if crashed (set_log l x) then set_log l x
               else resolveOnce w' (default 0%Z code) (set_log l x))
              = set_log l1 (if crashed x then x
                            else resolveOnce w (default 0%Z code) x)).
  { intros x. change (crashed (set_log l x)) with (crashed x).
    destruct (crashed x); [now exists l|apply resolveOnce_set_log]. }
  destruct (nonempty (trim (buffer m))); [|apply Hend].
  rewrite processLines_set_log. apply Hend.
Qed.

Lemma step_set_log w' l m e :
  spawn w' = spawn w ->
  exists l1, step w' options (set_log l m) e = set_log l1 (step' m e).
Proof.
  intros Hsp. unfold step. change (crashed (set_log l m)) with (crashed m).
  destruct (crashed m) eqn:Hcr; [now exists l|].
  destruct e as [data|data| |code|name message| |ms].
  - unfold on_stdout. change (buffer (set_log l m)) with (buffer m).
    destruct (feed _ _) as [lines tail].
    exists l. apply (processLines_set_log lines l (set_buffer tail m)).
  - now exists l.
  - now exists l.
  - apply (on_close_set_log w' code l (set_alive false m)).
  - unfold on_error, release. rewrite Hsp.
    destruct (spawn w).
    + apply (resolveOnce_set_log w' 1%Z l
               (set_stderr (stderr m ++ name ++ js ": " ++ message)
                  (set_red (set_errorMessage (Some (JStr message)) (red m))
                     m))).
    + apply (resolveOnce_set_log w' 1%Z l
               (set_stderr (stderr m ++ name ++ js ": " ++ message)
                  (set_red (set_errorMessage (Some (JStr message)) (red m))
                     (set_alive false m)))).
    + apply (resolveOnce_set_log w' 1%Z l
               (set_stderr (stderr m ++ name ++ js ": " ++ message)
                  (set_red (set_errorMessage (Some (JStr message)) (red m))
                     m))).
  - unfold on_abort, kill, proc_kill. ctl_fields.
    destruct (listening m), (alive m); ctl_fields; now eexists.
  - unfold on_elapse.
    apply (run_timers_set_log ms (timers m) l (set_timers [] m)).
Qed.

Lemma fold_set_log w' trace :
  spawn w' = spawn w ->
  forall l m,
  exists l1, fold_left (step w' options) trace (set_log l m)
             = set_log l1 (fold_left step' trace m).
Proof.
  intros Hsp.
  induction trace as [|e rest IH]; intros l m; [now exists l|].
  cbn. destruct (step_set_log w' l m e Hsp) as [l1 ->]. apply IH.
Qed.

Lemma start_set_log w' :
  same_but_cleanup w w' ->
  exists l, start w' options = set_log l (start w options).
Proof.
  intros (Htmp & Hmk & Hwr & Hsp).
  unfold start, createPromptFile. rewrite Htmp, Hmk, Hwr.
  destruct (nonempty (trim _)); cbn [negb].
  - destruct (mkdtempSync w _) as [dir|e]; [|now eexists].
    destruct (writeFileSync w _ _); [|now eexists].
    unfold executor, cleanup, kill, proc_kill, machine_init. rewrite Hsp.
    destruct (spawn w), (Options.signal options) as [[]|]; now eexists.
  - unfold executor, cleanup, kill, proc_kill, machine_init. rewrite Hsp.
    destruct (spawn w), (Options.signal options) as [[]|]; now eexists.
Qed.

(** The outcome of a run does not depend on how cleanup ends. *)
Lemma cleanup_errors_swallowed w' trace :
  same_but_cleanup w w' ->
  result (runSubagent w' options trace) = result (run trace).
Proof.
  intros Hsame. destruct (start_set_log w' Hsame) as [l Hstart].
  assert (Hsp : spawn w' = spawn w) by now destruct Hsame as (_ & _ & _ & ?).
  unfold runSubagent. rewrite Hstart. ctl_fields.
  destruct (result (start w options)); [|reflexivity..].
  now destruct (fold_set_log w' trace Hsp l (start w options)) as [l1 ->].
Qed.

Lemma start_log pf done :
  createPromptFile w (Options.systemPrompt options) = (FsOk pf, done) ->
  promptFile (start w options) = pf /\
  match spawn w with
  | SpawnThrows message =>
      result (start w options) = Threw message /\
      log (start w options) = done ++ cleanup_actions w pf
  | _ =>
      result (start w options) = Pending /\
      exists rest,
        log (start w options)
        = done ++ DoSpawn (args_of options pf) (Options.cwd options) :: rest
  end.
Proof.
  intros Hcreate. unfold start. rewrite Hcreate.
  unfold executor, cleanup, kill, proc_kill, machine_init.
  destruct (spawn w), (Options.signal options) as [[]|];
    try destruct pf as [[dir file]|]; ctl_fields;
    rewrite <- ?app_assoc, ?app_nil_r; split_and!; try reflexivity;
    now eexists.
Qed.

Lemma createPromptFile_supplied dir :
  let prompt := Options.systemPrompt options in
  let file := path_join dir (js "system-prompt.md") in
  nonempty (trim prompt) = true ->
  mkdtempSync w (path_join (os_tmpdir w) (js "pi-subagent-")) = FsOk dir ->
  writeFileSync w file prompt = FsOk tt ->
  createPromptFile w prompt
  = (FsOk (Some (dir, file)), [DoMkdtemp dir; DoWriteFile file prompt]).
Proof.
  intros prompt file Hprompt Hdir Hfile. unfold createPromptFile.
  fold prompt. rewrite Hprompt, Hdir. fold file. now rewrite Hfile.
Qed.

(** C9.  A system prompt that is not blank is supplied, and the
    directory and the file for it can be made.  They are made before
    anything else, and the child, if [spawn] does not throw, is started
    after them with the file on its command line.  While [runSubagent]
    is pending nothing is removed; once it has returned or thrown -
    after 'close', after a failure to start the child, after an
    exception of [spawn], after an abort - the log holds exactly one
    [unlinkSync] of the file followed by one [rmdirSync] of the
    directory.  Whether these two succeed or throw makes no difference
    to the outcome of the run. *)
Theorem C9_prompt_file_removed_on_every_exit_path dir trace :
  let prompt := Options.systemPrompt options in
  let file := path_join dir (js "system-prompt.md") in
  nonempty (trim prompt) = true ->
  mkdtempSync w (path_join (os_tmpdir w) (js "pi-subagent-")) = FsOk dir ->
  writeFileSync w file prompt = FsOk tt ->
  let m := run trace in
  (exists rest,
     log m = [DoMkdtemp dir; DoWriteFile file prompt] ++ rest /\
     ((forall message, spawn w <> SpawnThrows message) ->
      exists rest',
        rest = DoSpawn (args_of options (Some (dir, file)))
                 (Options.cwd options) :: rest')) /\
  (result m = Pending -> List.filter is_cleanup (log m) = []) /\
  (result m <> Pending ->
   List.filter is_cleanup (log m)
   = [DoUnlink file (fs_ok (unlinkSync w file));
      DoRmdir dir (fs_ok (rmdirSync w dir))]) /\
  (forall w', same_but_cleanup w w' ->
              result (runSubagent w' options trace) = result m).
Proof.
  intros prompt file Hprompt Hdir Hfile m.
  pose proof (createPromptFile_supplied dir Hprompt Hdir Hfile) as Hcreate.
  fold prompt file in Hcreate.
  destruct (start_log _ _ Hcreate) as [Hpf Hstart].
  split_and!.
  - destruct (spawn w) eqn:Hsp.
    3: { destruct Hstart as [Hthrown Hlog]. subst m.
         rewrite (run_thrown trace _ Hthrown), Hlog.
         eexists. split; [reflexivity|]. intros Hno. now destruct (Hno message). }
    all: destruct Hstart as [Hp [rest Hlog]]; subst m;
      rewrite (run_pending trace Hp);
      destruct (fold_log_grows trace (start w options)) as [acts ->];
      rewrite Hlog, <- app_assoc; eexists; split; [reflexivity|];
      intros _; now eexists.
  - intros Hres. subst m.
    assert (Hp : result (start w options) = Pending)
      by (apply (run_started trace); now left).
    pose proof (run_inv trace Hp) as Hinv.
    pose proof (inv_pending_unsettled _ _ Hinv Hres) as Hs.
    destruct Hinv as (_ & Hpend & _). now apply Hpend.
  - intros Hres. subst m.
    destruct start_result as [Hp|[message Ht]].
    + pose proof (run_inv trace Hp) as Hinv. rewrite Hpf in Hinv.
      destruct Hinv as (_ & Hpend & Hset & _).
      destruct (settled (run trace)) eqn:Hs; [now apply Hset|].
      now destruct (Hpend eq_refl).
    + rewrite (run_thrown trace _ Ht).
      destruct (spawn w); destruct Hstart as [Hr Hlog]; try congruence.
      rewrite Hlog. reflexivity.
  - intros w' Hsame. now apply cleanup_errors_swallowed.
Qed.

(** *** Messages of every role *)

Lemma feed_one_line line :
  LF_free line -> feed [] (line ++ [LF]) = ([line], []).
Proof.
  intros Hline. unfold feed. cbn [app].
  replace (line ++ [LF]) with (terminated [line] ++ [])
    by (unfold terminated; cbn; now rewrite !app_nil_r).
  rewrite split_lf_unique; [|now constructor|intros Hin; inversion Hin].
  now rewrite pop_snoc.
Qed.

(** C10.  The message of every message-completed line is appended to
    [messages], whatever its role.  When the role of the message is not
    the string "assistant" - it is another string, another value, or
    missing - the line completes, nothing else of the reducer changes -
    tool calls, seen keys, final text, stop reason, error message,
    model - and no progress is notified.  Such a message is in the
    result that [runSubagent] returns: if, in a run that is pending and
    not cancelled, the line arrives as a chunk of its own and 'close'
    follows, the call returns, and the returned [messages] are the
    earlier ones and this one, the other fields being those of the
    reducer before the line. *)
Theorem C10_messages_of_every_role_are_kept b line message r :
  decode line = Some message ->
  messages (processLine b line r).1 = messages r ++ [message] /\
  (get_prop message "role" <> Some (JStr (js "assistant")) ->
   let r' := (processLine b line r).1 in
   (processLine b line r).2 = Normal /\
   toolCalls r' = toolCalls r /\ seenToolCalls r' = seenToolCalls r /\
   finalText r' = finalText r /\ stopReason r' = stopReason r /\
   errorMessage r' = errorMessage r /\ model r' = model r /\
   notified r' = notified r) /\
  (get_prop message "role" <> Some (JStr (js "assistant")) ->
   forall m data code,
     crashed m = false -> settled m = false -> aborted m = false ->
     buffer m = [] -> LF_free line ->
     Buffer_toString data = line ++ [LF] ->
     exists res,
       result (step' (step' m (StdoutData data)) (ProcClose code))
       = Returned res /\
       Result.messages res = messages (red m) ++ [message]) /\
  (get_prop message "role" <> Some (JStr (js "assistant")) ->
   forall pre data code,
     result (runSubagent w options pre) = Pending ->
     crashed (runSubagent w options pre) = false ->
     aborted (runSubagent w options pre) = false ->
     buffer (runSubagent w options pre) = [] ->
     LF_free line ->
     Buffer_toString data = line ++ [LF] ->
     exists res,
       result (runSubagent w options
                 (pre ++ [StdoutData data; ProcClose code]))
       = Returned res /\
       Result.exitCode res = default 0%Z code /\
       Result.messages res
       = messages (red (runSubagent w options pre)) ++ [message] /\
       Result.toolCalls res = toolCalls (red (runSubagent w options pre)) /\
       Result.finalText res = finalText (red (runSubagent w options pre))).
Proof.
  intros Hdec.
  assert (Hother : get_prop message "role" <> Some (JStr (js "assistant")) ->
                   role_is_assistant message = false).
  { intros Hne. destruct (role_is_assistant message) eqn:Hrole; [|reflexivity].
    now apply role_is_assistant_iff in Hrole. }
  assert (Hsteps : get_prop message "role" <> Some (JStr (js "assistant")) ->
            forall m data code,
              crashed m = false -> settled m = false -> aborted m = false ->
              buffer m = [] -> LF_free line ->
              Buffer_toString data = line ++ [LF] ->
              result (step' (step' m (StdoutData data)) (ProcClose code))
              = Returned
                  {| Result.exitCode := default 0%Z code;
                     Result.stderr := stderr m;
                     Result.messages := messages (red m) ++ [message];
                     Result.finalText := finalText (red m);
                     Result.toolCalls := toolCalls (red m);
                     Result.stopReason := stopReason (red m);
                     Result.errorMessage := errorMessage (red m);
                     Result.model := model (red m) |}).
  { intros Hne m data code Hcr Hs Ha Hbuf Hline Hdata.
    pose proof (Hother Hne) as Hrole.
    assert (Hout : step' m (StdoutData data)
                   = set_red (push_message message (red m)) (set_buffer [] m)).
    { unfold step. rewrite Hcr. unfold on_stdout.
      rewrite Hbuf, Hdata, (feed_one_line line Hline).
      cbn [processLines]. ctl_fields.
      now rewrite (processLine_other_role _ line message _ Hdec Hrole). }
    rewrite Hout.
    destruct (close_outcome
                (set_red (push_message message (red m)) (set_buffer [] m))
                code Hs Hcr) as [Hcrash|[_ Hres]].
    + exfalso. revert Hcrash. unfold step. ctl_fields. rewrite Hcr.
      unfold on_close. ctl_fields. cbn [trim trimStart rev app nonempty].
      ctl_fields. rewrite Hcr.
      unfold resolveOnce, continuation, cleanup. ctl_fields. rewrite Hs.
      ctl_fields. split_machine_ifs m; rewrite ?Hcr; discriminate.
    + rewrite Hres. ctl_fields. rewrite Ha. reflexivity. }
  split_and!.
  - destruct (role_is_assistant message) eqn:Hrole.
    + rewrite (processLine_assistant b line message r Hdec Hrole).
      destruct (extractAssistantToolCalls message) as [calls|] eqn:Hcalls.
      * now destruct (apply_assistant_calls b message calls
                        (push_message message r) Hcalls) as (_ & _ & ->).
      * unfold apply_assistant. now rewrite Hcalls.
    + now rewrite (processLine_other_role b line message r Hdec Hrole).
  - intros Hne r'. subst r'.
    rewrite (processLine_other_role b line message r Hdec (Hother Hne)).
    now split_and!.
  - intros Hne m data code Hcr Hs Ha Hbuf Hline Hdata.
    rewrite (Hsteps Hne m data code Hcr Hs Ha Hbuf Hline Hdata).
    eexists. split; reflexivity.
  - intros Hne pre data code Hres Hcr Ha Hbuf Hline Hdata.
    assert (Hp : result (start w options) = Pending)
      by (apply (run_started pre); now left).
    pose proof (inv_pending_unsettled _ _ (run_inv pre Hp) Hres) as Hs.
    rewrite (run_app pre _ Hp). cbn [fold_left].
    rewrite (Hsteps Hne _ data code Hcr Hs Ha Hbuf Hline Hdata).
    eexists. split; [reflexivity|]. now split_and!.
Qed.

(** *** The stream of stdout chunks *)

(** A stream of 'data' events hands to [processLine], in order, the
    lines that [feed_all] computes, and leaves their tail in
    [buffer]. *)
Lemma stdout_stream datas : forall m,
  crashed m = false ->
  let chunks := List.map Buffer_toString datas in
  let m' := fold_left step' (List.map StdoutData datas) m in
  let handed := processLines options (feed_all (buffer m) chunks).1 m in
  red m' = red handed /\ crashed m' = crashed handed /\
  (crashed m' = false -> buffer m' = (feed_all (buffer m) chunks).2).
Proof.
  induction datas as [|data rest IH]; intros m Hcr; [now cbn|].
  cbn [List.map fold_left feed_all].
  assert (Hstep : step' m (StdoutData data)
                  = processLines options
                      (feed (buffer m) (Buffer_toString data)).1
                      (set_buffer (feed (buffer m) (Buffer_toString data)).2 m)).
  { unfold step. rewrite Hcr. unfold on_stdout. now destruct (feed _ _). }
  destruct (feed (buffer m) (Buffer_toString data)) as [lines tail].
  cbn [fst snd] in Hstep. rewrite processLines_set_buffer in Hstep.
  destruct (feed_all tail (List.map Buffer_toString rest))
    as [lines' tail'] eqn:Hrest.
  cbn [fst snd]. rewrite Hstep, (processLines_app lines lines' m Hcr).
  destruct (crashed (processLines options lines m)) eqn:Hcr1.
  - rewrite fold_crashed by exact Hcr1. ctl_fields.
    now rewrite Hcr1.
  - specialize (IH (set_buffer tail (processLines options lines m)) Hcr1).
    cbn [buffer set_buffer] in IH. rewrite Hrest in IH. cbn [fst snd] in IH.
    rewrite processLines_set_buffer in IH. exact IH.
Qed.

(** C5 (as amended).  Take the text of every stdout chunk, each chunk
    converted on its own by [data.toString()].  However the stream is cut
    into chunks, the lines handed to [processLine] during the stream,
    each with its line feed put back, followed by the tail left in
    [buffer] at the end, are the concatenation of the chunk texts; no
    line and no tail holds a line feed, so they are the lines of the
    whole text in order, and they are the same as if the whole text had
    come as one chunk.  The 'data' listener of a run hands exactly these
    lines, in this order, to [processLine] and keeps the tail.  At
    'close' the tail is handed to [processLine] as a last line exactly
    when it is not blank. *)
Theorem C5_framer_split_invariance (datas : list (list Byte.byte)) :
  let chunks := List.map Buffer_toString datas in
  let lines := (feed_all [] chunks).1 in
  let tail := (feed_all [] chunks).2 in
  terminated lines ++ tail = List.concat chunks /\
  Forall LF_free lines /\ LF_free tail /\
  feed_all [] chunks = feed [] (List.concat chunks) /\
  split_lf (List.concat chunks) = lines ++ [tail] /\
  (forall m, crashed m = false -> buffer m = [] ->
     let m' := fold_left step' (List.map StdoutData datas) m in
     red m' = red (processLines options lines m) /\
     crashed m' = crashed (processLines options lines m) /\
     (crashed m' = false -> buffer m' = tail)) /\
  (trim tail <> [] -> flushed tail = [tail]) /\
  (trim tail = [] -> flushed tail = []).
Proof.
  intros chunks lines tail.
  assert (Hnil : LF_free []) by (intros Hin; inversion Hin).
  destruct (feed_all_spec chunks [] Hnil) as (Hrebuild & Hlines & Htail).
  fold lines tail in Hrebuild, Hlines, Htail. cbn [app] in Hrebuild.
  split_and!; try assumption.
  - apply feed_all_concat.
  - rewrite <- Hrebuild. now apply split_lf_unique.
  - intros m Hcr Hbuf m'. subst m' lines tail chunks. rewrite <- Hbuf.
    now apply stdout_stream.
  - apply flushed_spec.
  - apply flushed_spec.
Qed.

(** *** The set of seen keys along a run *)

Lemma processLines_seen_inv lines : forall m,
  seen_inv (red m) -> seen_inv (red (processLines options lines m)).
Proof.
  induction lines as [|line rest IH]; intros m Hinv; [exact Hinv|].
  cbn [processLines].
  pose proof (processLine_seen_inv (Options.onProgress options) line
                (red m) Hinv) as Hinv'.
  destruct (processLine _ line (red m)) as [r []]; [now apply IH|exact Hinv'].
Qed.

Lemma resolveOnce_red code m : red (resolveOnce w code m) = red m.
Proof.
  unfold resolveOnce, continuation, cleanup. ctl_fields.
  destruct (settled m); [reflexivity|].
  now destruct (promptFile m) as [[]|].
Qed.

Lemma seen_inv_step m e : seen_inv (red m) -> seen_inv (red (step' m e)).
Proof.
  intros Hinv. unfold step. destruct (crashed m); [exact Hinv|].
  destruct e as [data|data| |code|name message| |ms]; try exact Hinv.
  - unfold on_stdout. destruct (feed _ _) as [lines tail].
    now apply processLines_seen_inv.
  - unfold on_close. ctl_fields.
    assert (Hflush : seen_inv (red
              (if nonempty (trim (buffer m))
               then processLines options [buffer m] (set_alive false m)
               else set_alive false m))).
    { destruct (nonempty _); [now apply processLines_seen_inv|exact Hinv]. }
    destruct (crashed _); [exact Hflush|]. now rewrite resolveOnce_red.
  - unfold on_error. rewrite resolveOnce_red.
    now destruct (release_cases m) as [-> | ->].
  - now rewrite abort_keeps_reducer_live.
  - unfold on_elapse.
    destruct (run_timers_shape ms (timers m) (set_timers [] m))
      as (acts & k & ts & -> & _). exact Hinv.
Qed.

(** In every state of every run the set of seen keys holds the keys of
    the recorded calls, each recorded once. *)
Lemma run_seen_inv trace : seen_inv (red (run trace)).
Proof.
  destruct start_result as [Hp|[message Ht]].
  - rewrite run_pending by exact Hp.
    apply (fold_inv (fun m => seen_inv (red m))); [apply seen_inv_step|].
    destruct (start_inv Hp) as (_ & _ & _ & -> & _). apply seen_inv_init.
  - rewrite (run_thrown trace message Ht). unfold start.
    destruct (createPromptFile _ _) as [[pf|e] done]; [|apply seen_inv_init].
    unfold executor, cleanup, kill, proc_kill, machine_init.
    destruct (spawn w), (Options.signal options) as [[]|];
      try destruct pf as [[]|]; apply seen_inv_init.
Qed.

(** *** A signal that has fired before the call *)

(** A call entered with a signal that has already fired sends SIGTERM
    to the child as soon as it is started, and never returns a result:
    it stays pending or throws. *)
Lemma pre_aborted_run_never_returns trace :
  Options.signal options = Some true ->
  (spawn w = Spawned -> result (start w options) = Pending ->
   delivered (log (start w options)) = [DoKill SIGTERM true]) /\
  forall r, result (run trace) <> Returned r.
Proof.
  intros Hsig. split.
  - intros Hsp. unfold start.
    destruct (createPromptFile _ _) as [[pf|e] done] eqn:Hcreate;
      [intros _|discriminate].
    unfold executor, kill, proc_kill, machine_init, delivered.
    rewrite Hsp, Hsig. ctl_fields. rewrite !filter_snoc.
    destruct (createPromptFile_ok _ _ _ Hcreate)
      as [(_ & _ & ->)|(_ & dir & file & _ & ->)]; reflexivity.
  - destruct start_result as [Hp|[message Ht]].
    + assert (Hdoomed : doomed (start w options)).
      { revert Hp. unfold start.
        destruct (createPromptFile _ _) as [[pf|e] done]; [|discriminate].
        unfold executor, kill, proc_kill, machine_init, doomed.
        rewrite Hsig. destruct (spawn w); ctl_fields; auto.
        rewrite cleanup_result. discriminate. }
      rewrite run_pending by exact Hp.
      pose proof (fold_inv doomed doomed_step trace _ Hdoomed) as [_ Hcases].
      intros r. destruct Hcases as [[_ ->]|[_ ->]]; discriminate.
    + rewrite (run_thrown trace message Ht), Ht. discriminate.
Qed.

(** *** The reducer along a run *)

Lemma processLines_red_inv (P : reducer -> Prop) :
  (forall line r,
     P r -> P (processLine (Options.onProgress options) line r).1) ->
  forall lines m, P (red m) -> P (red (processLines options lines m)).
Proof.
  intros Hline lines.
  induction lines as [|line rest IH]; intros m Hm; [exact Hm|].
  cbn [processLines]. specialize (Hline line (red m) Hm).
  destruct (processLine _ line (red m)) as [r []]; cbn [fst] in Hline.
  - apply IH. exact Hline.
  - exact Hline.
Qed.

(** The listeners change the reducer through [processLine] and through
    the assignment to [errorMessage] of the 'error' listener only. *)
Lemma step_red_inv (P : reducer -> Prop) :
  (forall line r,
     P r -> P (processLine (Options.onProgress options) line r).1) ->
  (forall v r, P r -> P (set_errorMessage v r)) ->
  forall m e, P (red m) -> P (red (step' m e)).
Proof.
  intros Hline Herr m e Hm. unfold step. destruct (crashed m); [exact Hm|].
  destruct e as [data|data| |code|name message| |ms]; try exact Hm.
  - unfold on_stdout. destruct (feed _ _) as [lines tail].
    now apply processLines_red_inv.
  - unfold on_close. ctl_fields.
    assert (Hflush : P (red
              (if nonempty (trim (buffer m))
               then processLines options [buffer m] (set_alive false m)
               else set_alive false m))).
    { destruct (nonempty _); [now apply processLines_red_inv|exact Hm]. }
    destruct (crashed _); [exact Hflush|]. now rewrite resolveOnce_red.
  - unfold on_error. rewrite resolveOnce_red.
    destruct (release_cases m) as [-> | ->]; ctl_fields; now apply Herr.
  - now rewrite abort_keeps_reducer_live.
  - unfold on_elapse.
    destruct (run_timers_shape ms (timers m) (set_timers [] m))
      as (acts & k & ts & -> & _). exact Hm.
Qed.

Lemma start_red : red (start w options) = reducer_init.
Proof.
  unfold start.
  destruct (createPromptFile _ _) as [[pf|e] done]; [|reflexivity].
  unfold executor, cleanup, kill, proc_kill, machine_init.
  destruct (spawn w), (Options.signal options) as [[]|];
    try destruct pf as [[]|]; reflexivity.
Qed.

Lemma run_unfold trace :
  run trace = fold_left step' trace (start w options) \/
  run trace = start w options.
Proof.
  destruct start_result as [Hp|[message Ht]].
  - left. now apply run_pending.
  - right. now apply (run_thrown trace message).
Qed.

Lemma run_red_inv (P : reducer -> Prop) :
  P reducer_init ->
  (forall line r,
     P r -> P (processLine (Options.onProgress options) line r).1) ->
  (forall v r, P r -> P (set_errorMessage v r)) ->
  forall trace, P (red (run trace)).
Proof.
  intros Hinit Hline Herr trace.
  destruct (run_unfold trace) as [-> | ->]; [|now rewrite start_red].
  apply (fold_inv (fun m => P (red m))); [now apply step_red_inv|].
  now rewrite start_red.
Qed.

Lemma grows_refl r : grows r r.
Proof. now unfold grows. Qed.

Lemma grows_trans r1 r2 r3 : grows r1 r2 -> grows r2 r3 -> grows r1 r3.
Proof.
  intros (A1 & A2 & A3 & A4) (B1 & B2 & B3 & B4). unfold grows. split_and!;
    [ now transitivity (messages r2) | now transitivity (toolCalls r2)
    | now transitivity (notified r2) | now transitivity (seenToolCalls r2) ].
Qed.

Lemma step_grows m e : grows (red m) (red (step' m e)).
Proof.
  apply (step_red_inv (grows (red m))).
  - intros line r Hr. eapply grows_trans; [exact Hr|apply processLine_grows].
  - intros v r Hr. exact Hr.
  - apply grows_refl.
Qed.

Lemma fold_grows trace : forall m,
  grows (red m) (red (fold_left step' trace m)).
Proof.
  induction trace as [|e rest IH]; intros m; [apply grows_refl|].
  cbn. eapply grows_trans; [apply step_grows|apply IH].
Qed.

(** Whatever happens later in a run, the messages, the tool calls and
    the progress reports collected so far stay where they are: later
    events only append to them, and no key leaves the set of seen
    keys. *)
Theorem run_only_appends pre post :
  grows (red (run pre)) (red (run (pre ++ post))).
Proof.
  destruct start_result as [Hp|[message Ht]].
  - rewrite (run_app pre post Hp). apply fold_grows.
  - rewrite !(run_thrown _ message Ht). apply grows_refl.
Qed.

Lemma reducer_inv_init b : reducer_inv b reducer_init.
Proof.
  unfold reducer_inv. cbn. split_and!; auto; constructor.
Qed.

Lemma run_reducer_inv trace :
  reducer_inv (Options.onProgress options) (red (run trace)).
Proof.
  apply run_red_inv.
  - apply reducer_inv_init.
  - intros line r. apply processLine_reducer_inv.
  - intros v r Hr. exact Hr.
Qed.

(** Progress reports of a whole run: without a callback none is made;
    there is at most one for each message recorded; and the tool calls
    a report showed are an initial part of the tool calls of the run,
    its text free of white space at both ends. *)
Theorem progress_reports_along_a_run trace :
  let r := red (run trace) in
  (Options.onProgress options = false -> notified r = []) /\
  (length (notified r) <= length (messages r))%nat /\
  Forall (snapshot_within r) (notified r).
Proof.
  destruct (run_reducer_inv trace) as (_ & _ & Hn & Hlen & Hoff).
  cbn zeta. now split_and!.
Qed.

(** A turn of the loop leaves the outcome, or makes it the rejection of
    a cancelled run, or makes it the record built from the variables as
    the listener leaves them. *)
Lemma step_result m e :
  result (step' m e) = result m \/
  result (step' m e) = Threw abort_message \/
  exists code,
    result (step' m e)
    = Returned
        {| Result.exitCode := code;
           Result.stderr := stderr (step' m e);
           Result.messages := messages (red (step' m e));
           Result.finalText := finalText (red (step' m e));
           Result.toolCalls := toolCalls (red (step' m e));
           Result.stopReason := stopReason (red (step' m e));
           Result.errorMessage := errorMessage (red (step' m e));
           Result.model := model (red (step' m e)) |}.
Proof.
  destruct (crashed m) eqn:Hcr; [left; now rewrite step_crashed|].
  step_cases m e Hcr; split_machine_ifs m; auto;
    right; right; eexists; reflexivity.
Qed.

Lemma well_formed_now m :
  reducer_inv (Options.onProgress options) (red m) -> seen_inv (red m) ->
  forall code err,
    well_formed_result
      {| Result.exitCode := code; Result.stderr := err;
         Result.messages := messages (red m);
         Result.finalText := finalText (red m);
         Result.toolCalls := toolCalls (red m);
         Result.stopReason := stopReason (red m);
         Result.errorMessage := errorMessage (red m);
         Result.model := model (red m) |}.
Proof.
  intros (Hf & Ho & _) [Hnd _] code err. unfold well_formed_result. cbn.
  now split_and!.
Qed.

(** Every record the call returns is well formed: its text has no white
    space at either end, the arguments of its tool calls are objects,
    and no two of its tool calls have the same primitive dedup key. *)
Theorem returned_record_is_well_formed trace r :
  result (run trace) = Returned r -> well_formed_result r.
Proof.
  intros Hres.
  assert (Hp : result (start w options) = Pending)
    by (apply (run_started trace); right; now exists r).
  revert r Hres. rewrite run_pending by exact Hp.
  set (b := Options.onProgress options).
  apply (fold_inv (fun m =>
           (reducer_inv b (red m) /\ seen_inv (red m)) /\
           forall r, result m = Returned r -> well_formed_result r)).
  - intros m e [[Hinv Hseen] Hgood].
    assert (Hinv' : reducer_inv b (red (step' m e))).
    { apply (step_red_inv (reducer_inv b)); auto.
      intros line r0. apply processLine_reducer_inv. }
    pose proof (seen_inv_step m e Hseen) as Hseen'.
    split; [now split|]. intros r Hr.
    destruct (step_result m e) as [Hsame|[Hthrew|[code Hret]]].
    + apply Hgood. congruence.
    + congruence.
    + rewrite Hret in Hr. injection Hr as <-.
      now apply well_formed_now.
  - rewrite start_red. split; [split|].
    + apply reducer_inv_init.
    + apply seen_inv_init.
    + rewrite Hp. discriminate.
Qed.

(** *** The outcome *)

Lemma settled_outcome_stays pre post :
  result (run pre) <> Pending ->
  result (run (pre ++ post)) = result (run pre).
Proof.
  intros Hres. destruct start_result as [Hp|[message Ht]].
  - pose proof (run_inv pre Hp) as Hinv.
    assert (Hs : settled (run pre) = true).
    { destruct (settled (run pre)) eqn:Hs; [reflexivity|].
      destruct Hinv as (_ & Hpend & _). destruct (Hpend Hs) as [Hr _].
      congruence. }
    rewrite (run_app pre post Hp). now apply fold_settled.
  - now rewrite !(run_thrown _ message Ht).
Qed.

(** Once the call has returned or thrown, no later event changes what
    it returned or threw. *)
Theorem outcome_is_final pre post :
  result (runSubagent w options pre) <> Pending ->
  result (runSubagent w options (pre ++ post))
  = result (runSubagent w options pre).
Proof. apply settled_outcome_stays. Qed.

(** A child that closes before anything else has settled the run, in a
    run that was not cancelled: the call returns the exit code, 0 when
    the child was ended by a signal and the code is [null], with the
    output on stderr so far and the reducer as the flush of the last,
    unterminated line leaves it; nothing that follows changes that. *)
Theorem close_returns_what_was_read pre code post :
  result (run pre) = Pending ->
  aborted (run pre) = false ->
  crashed (run (pre ++ [ProcClose code])) = false ->
  let r := red (processLines options (flushed (buffer (run pre))) (run pre)) in
  result (run (pre ++ ProcClose code :: post))
  = Returned
      {| Result.exitCode := default 0%Z code;
         Result.stderr := stderr (run pre);
         Result.messages := messages r;
         Result.finalText := finalText r;
         Result.toolCalls := toolCalls r;
         Result.stopReason := stopReason r;
         Result.errorMessage := errorMessage r;
         Result.model := model r |}.
Proof.
  intros Hres Ha Hcr r.
  assert (Hp : result (start w options) = Pending)
    by (apply (run_started pre); now left).
  pose proof (inv_pending_unsettled _ _ (run_inv pre Hp) Hres) as Hs.
  rewrite (run_app pre [ProcClose code] Hp) in Hcr. cbn [fold_left] in Hcr.
  assert (Hcr0 : crashed (run pre) = false).
  { destruct (crashed (run pre)) eqn:Hc; [|reflexivity].
    now rewrite step_crashed, Hc in Hcr. }
  rewrite (run_app pre (ProcClose code :: post) Hp). cbn [fold_left].
  destruct (fold_settled post (step' (run pre) (ProcClose code))
              (close_settles _ _ Hcr)) as [_ ->].
  destruct (close_outcome (run pre) code Hs Hcr0) as [Hbad|[_ Hout]];
    [congruence|].
  rewrite Hout, Ha. reflexivity.
Qed.

Lemma step_stderr m e :
  crashed m = false -> stderr (step' m e) = stderr m ++ stderr_text e.
Proof.
  intros Hcr. unfold stderr_text.
  step_cases m e Hcr; split_machine_ifs m; now rewrite ?app_nil_r.
Qed.

(** [stderr] is what the child wrote to its standard error, in the
    order of arrival, with the name and the message of an 'error' event
    appended where it occurred. *)
Theorem stderr_collects_the_child_output trace :
  result (start w options) = Pending ->
  crashed (run trace) = false ->
  stderr (run trace) = List.concat (List.map stderr_text trace).
Proof.
  intros Hp. rewrite run_pending by exact Hp.
  destruct (start_inv Hp) as (_ & _ & _ & _ & Herr & _).
  change (List.concat (List.map stderr_text trace))
    with ([] ++ List.concat (List.map stderr_text trace)).
  rewrite <- Herr. generalize (start w options). clear Hp Herr.
  induction trace as [|e rest IH]; intros m Hcr.
  - cbn. now rewrite app_nil_r.
  - cbn [fold_left List.map List.concat] in *.
    rewrite (IH _ Hcr), step_stderr, app_assoc; [reflexivity|].
    apply fold_not_crashed in Hcr. destruct (crashed m) eqn:Hc; [|reflexivity].
    now rewrite step_crashed, Hc in Hcr.
Qed.

(** *** The effects of a run *)

Lemma run_timers_acts ms pending : forall m,
  exists acts,
    log (run_timers ms pending m) = log m ++ acts /\
    Forall (fun a => exists d, a = DoKill SIGKILL d) acts /\
    promptFile (run_timers ms pending m) = promptFile m /\
    aborted (run_timers ms pending m) = aborted m /\
    listening (run_timers ms pending m) = listening m.
Proof.
  induction pending as [|t rest IH]; intros m.
  - exists []. cbn. rewrite app_nil_r. now split_and!.
  - cbn [run_timers]. destruct (t <=? ms).
    + unfold on_timeout, proc_kill.
      destruct (killed m); cbn [negb]; [apply IH|].
      destruct (alive m).
      * destruct (IH (set_killed true (effect (DoKill SIGKILL true) m)))
          as (acts & -> & Hacts & -> & -> & ->).
        exists (DoKill SIGKILL true :: acts). ctl_fields.
        rewrite <- app_assoc. split_and!; auto. constructor; eauto.
      * destruct (IH (effect (DoKill SIGKILL false) m))
          as (acts & -> & Hacts & -> & -> & ->).
        exists (DoKill SIGKILL false :: acts). ctl_fields.
        rewrite <- app_assoc. split_and!; auto. constructor; eauto.
    + destruct (IH m) as (acts & Hlog & Hacts & Hpf & Ha & Hl).
      exists acts. ctl_fields. now split_and!.
Qed.

(** What one turn of the loop adds to the log: nothing; attempts to
    send SIGKILL; the SIGTERM and the timer of [kill], by the listener
    of the signal, which then is gone; or the resolution followed by
    the removal of the prompt file. *)
Lemma step_acts m e :
  promptFile (step' m e) = promptFile m /\
  exists acts,
    log (step' m e) = log m ++ acts /\
    ((Forall (fun a => exists d, a = DoKill SIGKILL d) acts /\
      aborted (step' m e) = aborted m /\
      listening (step' m e) = listening m) \/
     (exists d, acts = [DoKill SIGTERM d; DoSetTimeout grace_ms]) /\
      listening m = true /\ aborted (step' m e) = true /\
      listening (step' m e) = false \/
     (exists code,
        acts = DoResolve code :: cleanup_actions w (promptFile m)) /\
      aborted (step' m e) = aborted m /\
      listening (step' m e) = listening m).
Proof.
  destruct (crashed m) eqn:Hcr.
  { rewrite step_crashed by exact Hcr. split; [reflexivity|].
    exists []. rewrite app_nil_r. split; [reflexivity|]. left. now split_and!. }
  unfold step. rewrite Hcr.
  destruct e as [data|data| |code|name message| |ms].
  - destruct (on_stdout_shape data m) as (r & c & tail & -> & _).
    ctl_fields. split; [reflexivity|]. exists []. rewrite app_nil_r.
    split; [reflexivity|]. left. now split_and!.
  - unfold on_stderr. ctl_fields. split; [reflexivity|].
    exists []. rewrite app_nil_r. split; [reflexivity|]. left. now split_and!.
  - ctl_fields. split; [reflexivity|].
    exists []. rewrite app_nil_r. split; [reflexivity|]. left. now split_and!.
  - destruct (on_close_shape code (set_alive false m) Hcr) as [r [-> | ->]].
    + ctl_fields. split; [reflexivity|]. exists []. rewrite app_nil_r.
      split; [reflexivity|]. left. now split_and!.
    + unfold resolveOnce, continuation, cleanup, cleanup_actions. ctl_fields.
      destruct (settled m); ctl_fields.
      * split; [reflexivity|]. exists []. rewrite app_nil_r.
        split; [reflexivity|]. left. now split_and!.
      * destruct (promptFile m) as [[dir file]|] eqn:Hpf; ctl_fields;
          rewrite ?Hpf; (split; [reflexivity|]);
          eexists; rewrite <- ?app_assoc; (split; [reflexivity|]);
          right; right; split_and!; eauto.
  - destruct (release_cases m) as [-> | ->];
      unfold on_error, resolveOnce, continuation, cleanup, cleanup_actions;
      ctl_fields;
      (destruct (settled m); ctl_fields;
       [ split; [reflexivity|]; exists []; rewrite app_nil_r;
         split; [reflexivity|]; left; now split_and!
       | destruct (promptFile m) as [[dir file]|] eqn:Hpf; ctl_fields;
         rewrite ?Hpf; (split; [reflexivity|]);
         eexists; rewrite <- ?app_assoc; (split; [reflexivity|]);
         right; right; split_and!; eauto ]).
  - unfold on_abort, kill, proc_kill.
    destruct (listening m) eqn:Hl.
    + ctl_fields. destruct (alive m); ctl_fields; (split; [reflexivity|]);
        eexists; rewrite <- ?app_assoc; (split; [reflexivity|]);
        right; left; split_and!; eauto.
    + split; [reflexivity|]. exists []. rewrite app_nil_r.
      split; [reflexivity|]. left. now split_and!.
  - unfold on_elapse.
    destruct (run_timers_acts ms (timers m) (set_timers [] m))
      as (acts & Hlog & Hacts & Hpf & Ha & Hl).
    split; [exact Hpf|]. exists acts. split; [exact Hlog|]. left.
    now split_and!.
Qed.

Lemma filter_none (f : action -> bool) (P : action -> Prop) acts :
  (forall a, P a -> f a = false) -> Forall P acts -> List.filter f acts = [].
Proof.
  intros Hf Hacts. induction Hacts as [|a l Ha _ IH]; [reflexivity|].
  cbn. now rewrite (Hf a Ha).
Qed.

Lemma createPromptFile_blank prompt :
  blank prompt = true -> createPromptFile w prompt = (FsOk None, []).
Proof.
  intros Hb. unfold createPromptFile.
  now rewrite nonempty_trim_blank, Hb.
Qed.

(** A system prompt that is empty or blank: the run creates no file and
    no directory, removes none, and holds no prompt file. *)
Theorem blank_prompt_touches_no_file trace :
  blank (Options.systemPrompt options) = true ->
  promptFile (run trace) = None /\
  Forall (fun a => is_create a = false /\ is_cleanup a = false)
    (log (run trace)).
Proof.
  intros Hb.
  assert (Hstart : promptFile (start w options) = None /\
                   Forall (fun a => is_create a = false /\ is_cleanup a = false)
                     (log (start w options))).
  { unfold start. rewrite (createPromptFile_blank _ Hb).
    unfold executor, kill, proc_kill, cleanup, machine_init.
    destruct (spawn w), (Options.signal options) as [[]|]; ctl_fields;
      split; try reflexivity; repeat constructor. }
  destruct (run_unfold trace) as [-> | ->]; [|exact Hstart].
  apply (fold_inv (fun m =>
           promptFile m = None /\
           Forall (fun a => is_create a = false /\ is_cleanup a = false)
             (log m))); [|exact Hstart].
  intros m e [Hpf Hlog].
  destruct (step_acts m e) as (Hpf' & acts & -> & Hacts).
  split; [congruence|]. apply Forall_app. split; [exact Hlog|].
  destruct Hacts as [(Hk & _)|[([d ->] & _)|([code ->] & _)]].
  - eapply Forall_impl; [exact Hk|]. intros a [d ->]. now split.
  - repeat constructor.
  - rewrite Hpf. repeat constructor.
Qed.

Lemma cancellation_counts trace :
  let m := run trace in
  length (List.filter is_sigterm (log m)) = (if aborted m then 1 else 0)%nat /\
  length (List.filter is_timeout (log m)) = (if aborted m then 1 else 0)%nat.
Proof.
  cbn zeta.
  pose (K := fun m : machine =>
    length (List.filter is_sigterm (log m)) = (if aborted m then 1 else 0)%nat /\
    length (List.filter is_timeout (log m)) = (if aborted m then 1 else 0)%nat /\
    (aborted m = true -> listening m = false)).
  assert (Hstart : K (start w options)).
  { unfold K, start.
    destruct (createPromptFile w (Options.systemPrompt options))
      as [[pf|e] done] eqn:Hcreate.
    - assert (Hdone : List.filter is_sigterm done = [] /\
                      List.filter is_timeout done = []).
      { destruct (createPromptFile_ok _ _ _ Hcreate)
          as [(_ & _ & ->)|(_ & dir & file & _ & ->)]; now split. }
      destruct Hdone as [Hd1 Hd2].
      unfold executor, kill, proc_kill, cleanup, machine_init.
      destruct (spawn w), (Options.signal options) as [[]|];
        try destruct pf as [[]|]; ctl_fields;
        rewrite ?filter_snoc, ?Hd1, ?Hd2; cbn; split_and!; auto;
        try discriminate.
    - unfold createPromptFile in Hcreate.
      destruct (nonempty (trim _)); cbn [negb] in Hcreate; [|discriminate].
      destruct (mkdtempSync w _);
        [|injection Hcreate as _ <-; cbn; split_and!; auto; discriminate].
      destruct (writeFileSync w _ _); [discriminate|].
      injection Hcreate as _ <-. cbn. split_and!; auto; discriminate. }
  assert (Hrun : K (run trace)); [|now destruct Hrun as (? & ? & _)].
  destruct (run_unfold trace) as [-> | ->]; [|exact Hstart].
  apply (fold_inv K); [|exact Hstart].
  intros m e (Hterm & Htime & Hlis).
  destruct (step_acts m e) as (_ & acts & Hlog & Hacts).
  unfold K. rewrite Hlog, !List.filter_app, !length_app.
  destruct Hacts as [(Hk & -> & ->)|[([d ->] & Hl & -> & ->)
                                    |([code ->] & -> & ->)]].
  - rewrite (filter_none is_sigterm _ acts) with (2 := Hk)
      by (now intros a [d ->]).
    rewrite (filter_none is_timeout _ acts) with (2 := Hk)
      by (now intros a [d ->]).
    cbn [length]. rewrite !Nat.add_0_r. now split_and!.
  - assert (Ha : aborted m = false).
    { destruct (aborted m); [|reflexivity]. now rewrite Hlis in Hl. }
    rewrite Ha in Hterm, Htime. rewrite Hterm, Htime. now split_and!.
  - assert (Hc : forall pf, List.filter is_sigterm (cleanup_actions w pf) = []
                            /\ List.filter is_timeout (cleanup_actions w pf) = [])
      by (now intros [[]|]).
    cbn [List.filter is_sigterm is_timeout].
    destruct (Hc (promptFile m)) as [-> ->]. cbn [length].
    rewrite !Nat.add_0_r. now split_and!.
Qed.

(** A cancelled run has sent, or tried to send, SIGTERM once and has
    armed one timer; a run that was not cancelled has done neither.  A
    second 'abort' does nothing. *)
Theorem cancellation_acts_once trace :
  let m := run trace in
  length (List.filter is_sigterm (log m)) = (if aborted m then 1 else 0)%nat /\
  length (List.filter is_timeout (log m)) = (if aborted m then 1 else 0)%nat.
Proof. apply cancellation_counts. Qed.

(** The directory is made but the prompt cannot be written: the call
    throws the error of the write before any child is started, and the
    directory stays, for the block that removes it is not yet entered. *)
Theorem failed_write_leaves_the_directory dir e trace :
  let prompt := Options.systemPrompt options in
  nonempty (trim prompt) = true ->
  mkdtempSync w (path_join (os_tmpdir w) (js "pi-subagent-")) = FsOk dir ->
  writeFileSync w (path_join dir (js "system-prompt.md")) prompt = FsError e ->
  result (run trace) = Threw e /\ log (run trace) = [DoMkdtemp dir].
Proof.
  intros prompt Hne Hdir Hwrite.
  assert (Hstart : start w options
                   = set_result (Threw e) (machine_init None [DoMkdtemp dir])).
  { unfold start, createPromptFile. fold prompt.
    now rewrite Hne, Hdir, Hwrite. }
  assert (Hrun : run trace = start w options).
  { apply (run_thrown trace e). now rewrite Hstart. }
  rewrite Hrun, Hstart. now split.
Qed.

(** The promise is resolved at most once, whatever the order and the
    number of 'close' and 'error' events; a call that reached its
    [await] has ended exactly when it was resolved. *)
Theorem promise_is_resolved_at_most_once trace :
  (resolves (log (run trace)) <= 1)%nat /\
  (result (start w options) = Pending ->
   (resolves (log (run trace)) = 1%nat <-> result (run trace) <> Pending)).
Proof.
  destruct start_result as [Hp|[message Ht]].
  - destruct (run_inv trace Hp) as (_ & Hpend & Hset & _).
    destruct (settled (run trace)).
    + destruct (Hset eq_refl) as (Hres & -> & _). split; [lia|].
      intros _. now split.
    + destruct (Hpend eq_refl) as (Hres & -> & _). split; [lia|].
      intros _. split; [discriminate|congruence].
  - split; [|rewrite Ht; discriminate].
    rewrite (run_thrown trace message Ht). clear Ht. unfold start, resolves.
    destruct (createPromptFile w (Options.systemPrompt options))
      as [[pf|e] done] eqn:Hcreate.
    + assert (Hdone : List.filter is_resolve done = []).
      { destruct (createPromptFile_ok _ _ _ Hcreate)
          as [(_ & _ & ->)|(_ & dir & file & _ & ->)]; reflexivity. }
      unfold executor, kill, proc_kill, cleanup, machine_init.
      destruct (spawn w), (Options.signal options) as [[]|];
        try destruct pf as [[]|]; ctl_fields;
        rewrite ?filter_snoc, ?Hdone; cbn; lia.
    + unfold createPromptFile in Hcreate.
      destruct (nonempty (trim _)); cbn [negb] in Hcreate; [|discriminate].
      destruct (mkdtempSync w _); [|injection Hcreate as _ <-; cbn; lia].
      destruct (writeFileSync w _ _); [discriminate|].
      injection Hcreate as _ <-. cbn. lia.
Qed.


(** A call starts at most one child: exactly one when it reaches its
    [await], none when it throws before.  The child is started in the
    working directory of the options, and the task is the last of its
    arguments, after every option. *)
Theorem child_is_started_at_most_once trace :
  List.filter is_spawn (log (run trace))
  = match result (start w options) with
    | Pending =>
        [DoSpawn (args_of options (promptFile (start w options)))
           (Options.cwd options)]
    | _ => []
    end /\
  forall pf, last (args_of options pf) = Some (Options.task options).
Proof.
  split.
  - assert (Hstart : List.filter is_spawn (log (start w options))
                     = match result (start w options) with
                       | Pending =>
                           [DoSpawn (args_of options
                                       (promptFile (start w options)))
                              (Options.cwd options)]
                       | _ => []
                       end).
    { unfold start.
      destruct (createPromptFile w (Options.systemPrompt options))
        as [[pf|e] done] eqn:Hcreate.
      - assert (Hdone : List.filter is_spawn done = []).
        { destruct (createPromptFile_ok _ _ _ Hcreate)
            as [(_ & _ & ->)|(_ & dir & file & _ & ->)]; reflexivity. }
        unfold executor, kill, proc_kill, cleanup, machine_init.
        destruct (spawn w), (Options.signal options) as [[]|];
          try destruct pf as [[]|]; ctl_fields;
          rewrite ?filter_snoc, ?Hdone; reflexivity.
      - unfold createPromptFile in Hcreate.
        destruct (nonempty (trim _)); cbn [negb] in Hcreate; [|discriminate].
        destruct (mkdtempSync w _); [|injection Hcreate as _ <-; reflexivity].
        destruct (writeFileSync w _ _); [discriminate|].
        injection Hcreate as _ <-. reflexivity. }
    destruct (run_unfold trace) as [-> | ->]; [|exact Hstart].
    rewrite <- Hstart. generalize (start w options).
    induction trace as [|e rest IH]; intros m; [reflexivity|].
    cbn [fold_left]. rewrite IH.
    destruct (step_acts m e) as (_ & acts & -> & Hacts).
    rewrite List.filter_app.
    replace (List.filter is_spawn acts) with (@nil action);
      [now rewrite app_nil_r|].
    destruct Hacts as [(Hk & _)|[([d ->] & _)|([code ->] & _)]].
    + symmetry. eapply filter_none; [|exact Hk]. now intros a [d ->].
    + reflexivity.
    + now destruct (promptFile m) as [[]|].
  - intros pf. unfold args_of. rewrite !app_assoc. apply last_snoc.
Qed.

(** The only signal a child ever receives from a run is one SIGTERM:
    no SIGKILL is delivered, for the callback of the grace timer tests
    [proc.killed], which the delivered SIGTERM has set, and a child that
    was not signalled then is already gone. *)
Theorem only_SIGTERM_is_ever_delivered trace :
  delivered (log (runSubagent w options trace)) = [] \/
  delivered (log (runSubagent w options trace)) = [DoKill SIGTERM true].
Proof.
  pose proof (SIGKILL_never_delivered trace) as Hkill.
  pose proof (cancellation_counts trace) as [Hterm _].
  cbn zeta in Hterm. revert Hkill Hterm.
  generalize (log (run trace)), (aborted (run trace)). intros l a Hkill Hterm.
  assert (Hdel : delivered l
                 = List.filter is_delivery (List.filter is_sigterm l)).
  { unfold delivered. clear Hterm.
    induction Hkill as [|x l Hx _ IH]; [reflexivity|].
    destruct x as [| | |[] []| | | |]; cbn; rewrite ?IH; try reflexivity.
    now destruct Hx. }
  rewrite Hdel.
  destruct (List.filter is_sigterm l) as [|x [|y rest]] eqn:Hf.
  - now left.
  - assert (Hx : is_sigterm x = true).
    { assert (Hin : In x (List.filter is_sigterm l)) by (rewrite Hf; now left).
      now apply filter_In in Hin. }
    destruct x as [| | |[] []| | | |]; try discriminate; cbn; auto.
  - destruct a; cbn in Hterm; lia.
Qed.

(** A run started with a signal that has already fired is cancelled
    from its first turn on. *)
Lemma pre_aborted_doomed trace :
  Options.signal options = Some true ->
  result (start w options) = Pending ->
  doomed (run trace).
Proof.
  intros Hsig Hp.
  assert (Hdoomed : doomed (start w options)).
  { revert Hp. unfold start.
    destruct (createPromptFile _ _) as [[pf|e] done]; [|discriminate].
    unfold executor, kill, proc_kill, machine_init, doomed.
    rewrite Hsig. destruct (spawn w); ctl_fields; auto.
    rewrite cleanup_result. discriminate. }
  rewrite run_pending by exact Hp.
  exact (fold_inv doomed doomed_step trace _ Hdoomed).
Qed.

End RunFacts.

(** ** The subagent tools *)

Section ToolFacts.

Context `{H : Host}.
Context {Model : Type}.
Variable model_id : Model -> jsstring.
Variable model_name : Model -> jsstring.
Variable model_provider : Model -> jsstring.

Local Abbreviation lower := String_toLowerCase.
Local Abbreviation pickModel' := (pickModel model_id model_name model_provider).

(** *** [pickModel] *)

Lemma byId_fold_lookup models : forall (acc : gmap (list N) Model) k m,
  fold_left (fun acc m => <[lower (model_id m) := m]> acc) models acc !! k
  = Some m ->
  acc !! k = Some m \/ (m ∈ models /\ lower (model_id m) = k).
Proof.
  induction models as [|a rest IH]; intros acc k m; cbn [fold_left].
  - now left.
  - intros Hl. apply IH in Hl as [Hl|[Hin Hk]].
    + apply lookup_insert_Some in Hl as [[Hk <-]|[_ Hl]].
      * right. split; [now left|exact Hk].
      * now left.
    + right. split; [now right|exact Hk].
Qed.

Lemma byId_fold_is_Some models : forall (acc : gmap (list N) Model) k,
  is_Some (acc !! k) \/ (exists m0, m0 ∈ models /\ lower (model_id m0) = k) ->
  is_Some (fold_left (fun acc m => <[lower (model_id m) := m]> acc)
             models acc !! k).
Proof.
  induction models as [|a rest IH]; intros acc k Hk; cbn [fold_left].
  - destruct Hk as [Hs|(m0 & Hin & _)]; [exact Hs|inversion Hin].
  - apply IH.
    destruct (decide (lower (model_id a) = k)) as [<-|Hne].
    { left. rewrite lookup_insert_eq. now eexists. }
    destruct Hk as [Hs|(m0 & Hin & Hm0)].
    + left. now rewrite lookup_insert_ne.
    + apply elem_of_cons in Hin as [->|Hin]; [contradiction|].
      right. now exists m0.
Qed.

Lemma byId_lookup models k m :
  byId model_id models !! k = Some m ->
  m ∈ models /\ lower (model_id m) = k.
Proof.
  intros Hl. apply byId_fold_lookup in Hl as [Hl|Hl]; [|exact Hl].
  now rewrite lookup_empty in Hl.
Qed.

Lemma byId_is_Some models k :
  is_Some (byId model_id models !! k) <->
  exists m0, m0 ∈ models /\ lower (model_id m0) = k.
Proof.
  split.
  - intros [m Hm]. exists m. now apply byId_lookup.
  - intros Hm. apply byId_fold_is_Some. now right.
Qed.

Lemma pick_exact_Some known exact (m : Model) :
  pick_exact known exact = Some m ->
  exists wanted, wanted ∈ exact /\ known !! lower wanted = Some m.
Proof.
  induction exact as [|wanted rest IH]; cbn [pick_exact]; [discriminate|].
  destruct (known !! lower wanted) as [m'|] eqn:Hl.
  - intros [= <-]. exists wanted. split; [now left|exact Hl].
  - intros Hp. destruct (IH Hp) as (wanted' & Hin & Hl').
    exists wanted'. split; [now right|exact Hl'].
Qed.

Lemma pick_exact_None (known : gmap (list N) Model) exact :
  pick_exact known exact = None <->
  forall wanted, wanted ∈ exact -> known !! lower wanted = None.
Proof.
  induction exact as [|wanted rest IH]; cbn [pick_exact].
  - split; [intros _ wanted Hin; inversion Hin|reflexivity].
  - destruct (known !! lower wanted) as [m'|] eqn:Hl.
    + split; [discriminate|]. intros Hall.
      rewrite (Hall wanted) in Hl by now left. discriminate.
    + rewrite IH. split.
      * intros Hall wanted' Hin.
        apply elem_of_cons in Hin as [->|Hin]; [exact Hl|now apply Hall].
      * intros Hall wanted' Hin. apply Hall. now right.
Qed.

Lemma pick_includes_Some models patterns m :
  pick_includes model_id model_name model_provider models patterns = Some m ->
  m ∈ models /\
  exists p, p ∈ patterns /\
    model_includes model_id model_name model_provider (lower p) m = true.
Proof.
  induction patterns as [|p rest IH]; cbn [pick_includes]; [discriminate|].
  destruct (List.find _ models) as [m'|] eqn:Hf.
  - intros [= <-]. apply find_some in Hf as [Hin Hm].
    split; [now apply list_elem_of_In|]. exists p. split; [now left|exact Hm].
  - intros Hp. destruct (IH Hp) as (Hin & p' & Hp' & Hm).
    split; [exact Hin|]. exists p'. split; [now right|exact Hm].
Qed.

Lemma pick_includes_None models patterns :
  pick_includes model_id model_name model_provider models patterns = None <->
  forall p m, p ∈ patterns -> m ∈ models ->
    model_includes model_id model_name model_provider (lower p) m = false.
Proof.
  induction patterns as [|p rest IH]; cbn [pick_includes].
  - split; [intros _ p m Hin; inversion Hin|reflexivity].
  - destruct (List.find _ models) as [m'|] eqn:Hf.
    + split; [discriminate|]. intros Hall.
      apply find_some in Hf as [Hin Hm].
      rewrite (Hall p m') in Hm; [discriminate|now left|].
      now apply list_elem_of_In.
    + rewrite IH. split.
      * intros Hall p' m Hp' Hm.
        apply elem_of_cons in Hp' as [->|Hp']; [|now apply Hall].
        apply (find_none _ _ Hf). now apply list_elem_of_In.
      * intros Hall p' m Hp' Hm. apply Hall; [now right|exact Hm].
Qed.

Lemma pickModel_sound models exact patterns m :
  pickModel' models exact patterns = Some m -> m ∈ models.
Proof.
  unfold pickModel.
  destruct (pick_exact _ exact) as [m'|] eqn:He.
  - intros [= <-]. apply pick_exact_Some in He as (wanted & _ & Hl).
    now apply byId_lookup in Hl.
  - intros Hp. now apply pick_includes_Some in Hp.
Qed.

(** Whatever [pickModel] returns is one of the models it was given, and
    it was asked for: its id is one of the exact ids, or one of the
    patterns occurs in its id, its name or its provider/id, all compared
    in lower case. *)
Theorem pickModel_returns_a_requested_model models exact patterns m :
  pickModel' models exact patterns = Some m ->
  m ∈ models /\
  ((exists wanted, wanted ∈ exact /\ lower (model_id m) = lower wanted) \/
   (exists p, p ∈ patterns /\
      model_includes model_id model_name model_provider (lower p) m = true)).
Proof.
  intros Hp. split; [now apply (pickModel_sound models exact patterns)|].
  revert Hp. unfold pickModel.
  destruct (pick_exact _ exact) as [m'|] eqn:He.
  - intros [= <-]. apply pick_exact_Some in He as (wanted & Hin & Hl).
    apply byId_lookup in Hl as [_ Hk]. left. now exists wanted.
  - intros Hp. right. now apply pick_includes_Some in Hp.
Qed.

(** An exact id that names an available model wins over every pattern:
    the model returned then has one of the exact ids, whatever the
    patterns are. *)
Theorem exact_id_beats_every_pattern models exact patterns wanted m0 :
  wanted ∈ exact -> m0 ∈ models ->
  lower (model_id m0) = lower wanted ->
  exists m wanted',
    pickModel model_id model_name model_provider models exact patterns
    = Some m /\
    pickModel model_id model_name model_provider models exact [] = Some m /\
    m ∈ models /\ wanted' ∈ exact /\
    lower (model_id m) = lower wanted'.
Proof.
  intros Hwanted Hm0 Hid. unfold pickModel.
  destruct (pick_exact (byId model_id models) exact) as [m|] eqn:He.
  - apply pick_exact_Some in He as (wanted' & Hin & Hl).
    apply byId_lookup in Hl as [Hm Hk].
    exists m, wanted'. now split_and!.
  - exfalso.
    pose proof (proj1 (pick_exact_None _ _) He wanted Hwanted) as Hnone.
    assert (Hs : is_Some (byId model_id models !! lower wanted))
      by (apply byId_is_Some; now exists m0).
    rewrite Hnone in Hs. now destruct Hs.
Qed.

(** [pickModel] returns nothing exactly when no exact id is the id of a
    model and no pattern occurs in any model. *)
Theorem pickModel_finds_nothing_iff models exact patterns :
  pickModel' models exact patterns = None <->
  (forall wanted m, wanted ∈ exact -> m ∈ models ->
     lower (model_id m) <> lower wanted) /\
  (forall p m, p ∈ patterns -> m ∈ models ->
     model_includes model_id model_name model_provider (lower p) m = false).
Proof.
  unfold pickModel. split.
  - destruct (pick_exact _ exact) as [m'|] eqn:He; [discriminate|].
    intros Hp. split; [|now apply pick_includes_None].
    intros wanted m Hwanted Hm Hid.
    pose proof (proj1 (pick_exact_None _ _) He wanted Hwanted) as Hnone.
    assert (Hs : is_Some (byId model_id models !! lower wanted))
      by (apply byId_is_Some; now exists m).
    rewrite Hnone in Hs. now destruct Hs.
  - intros [Hexact Hpat].
    destruct (pick_exact _ exact) as [m|] eqn:He.
    + apply pick_exact_Some in He as (wanted & Hin & Hl).
      apply byId_lookup in Hl as [Hm Hk]. now destruct (Hexact wanted m).
    + now apply pick_includes_None.
Qed.

(** With the fallback to the first model, a tool is left without a
    model only when no model is available at all; the model it selects
    is an available one. *)
Theorem selectModel_fails_only_without_models models exact patterns :
  let select := selectModel (fun ms => pickModel' ms exact patterns) in
  (select models = None <-> models = []) /\
  (forall m, select models = Some m -> m ∈ models).
Proof.
  cbn zeta. unfold selectModel. split.
  - destruct (pickModel' models exact patterns) as [m|] eqn:Hp.
    + split; [discriminate|]. intros ->.
      apply pickModel_sound in Hp. inversion Hp.
    + destruct models; cbn; split; congruence.
  - intros m. destruct (pickModel' models exact patterns) as [m'|] eqn:Hp.
    + intros [= <-]. now apply (pickModel_sound models exact patterns).
    + destruct models as [|a rest]; cbn; [discriminate|].
      intros [= <-]. now left.
Qed.

(** *** [formatToolCall] *)

(** The preview of a tool call is its name, a space and at most 93
    characters of arguments: the JSON text itself when that has at most
    90 characters, else its first 90 and three dots.  A name that
    cannot be printed makes [formatToolCall] throw. *)
Theorem formatToolCall_is_short toolCall :
  match ToString_value (name toolCall) with
  | None => formatToolCall toolCall = None
  | Some printed =>
      exists preview,
        formatToolCall toolCall = Some (printed ++ js " " ++ preview) /\
        (length preview <= 93)%nat /\
        (length (printed ++ js " " ++ preview) <= length printed + 94)%nat
  end.
Proof.
  unfold formatToolCall.
  set (args := JSON_stringify _).
  destruct (ToString_value (name toolCall)) as [printed|]; [|reflexivity].
  destruct (90 <? length args)%nat eqn:Hlen.
  - apply Nat.ltb_lt in Hlen. eexists. split; [reflexivity|].
    rewrite !length_app, length_take_le by lia. cbn. lia.
  - apply Nat.ltb_ge in Hlen. eexists. split; [reflexivity|].
    rewrite !length_app. cbn. lia.
Qed.


(** *** [getText] and [renderResult] *)




Section RenderFacts.

Variable fg : string -> jsstring -> jsstring.
Variable show_nat : nat -> jsstring.






End RenderFacts.

(** *** [execute] *)

Section ExecuteFacts.

Variable config : ToolConfig (Model := Model).
Variable w : world.

Local Abbreviation execute' :=
  (execute model_id model_provider config w).
Local Abbreviation options_for :=
  (execute_options model_id model_provider config).

(** [execute] refuses, without starting a child, exactly when the
    prompt is blank or no model is available; otherwise it runs the
    child with the trimmed prompt as its task and an available model,
    and reports the outcome of that run. *)
Theorem execute_refuses_or_runs
    params_prompt params_cwd ctx_cwd available signal onUpdate trace :
  picks_offered config ->
  (blank params_prompt = true \/ available = [] ->
   exists res,
     execute' params_prompt params_cwd ctx_cwd available signal onUpdate trace
     = ([], Some res) /\
     result_isError res = true /\
     Details.exitCode (result_details res) = 1%Z /\
     Details.model (result_details res) = None /\
     Details.running (result_details res) = None) /\
  (blank params_prompt = false -> available <> [] ->
   exists selected,
     selected ∈ available /\
     let options :=
       options_for (trim params_prompt) (default ctx_cwd params_cwd)
         selected signal onUpdate in
     Options.task options = trim params_prompt /\
     Options.model options
     = Some (model_ref model_id model_provider selected) /\
     (execute' params_prompt params_cwd ctx_cwd available signal onUpdate
        trace).2
     = execute_result model_id model_provider config (trim params_prompt)
         selected (result (runSubagent w options trace))).
Proof.
  intros Hsound.
  assert (Hsel : forall selected,
            selectModel (config_pickModel config) available = Some selected ->
            selected ∈ available).
  { intros selected. unfold selectModel.
    destruct (config_pickModel config available) as [m|] eqn:Hp.
    - intros [= <-]. now apply Hsound.
    - destruct available; cbn; [discriminate|]. intros [= <-]. now left. }
  assert (Hnone : selectModel (config_pickModel config) available = None <->
                  available = []).
  { unfold selectModel.
    destruct (config_pickModel config available) as [m|] eqn:Hp.
    - split; [discriminate|]. intros ->. apply Hsound in Hp. inversion Hp.
    - destruct available; cbn; split; congruence. }
  unfold execute. rewrite nonempty_trim_blank, negb_involutive.
  split.
  - intros Hrefuse. destruct (blank params_prompt).
    + eexists. split; [reflexivity|]. now split_and!.
    + destruct Hrefuse as [?|Hnil]; [discriminate|].
      apply Hnone in Hnil as ->.
      eexists. split; [reflexivity|]. now split_and!.
  - intros -> Hsome.
    destruct (selectModel (config_pickModel config) available)
      as [selected|] eqn:Hselected; [|exfalso; apply Hsome; now apply Hnone].
    exists selected. split; [now apply Hsel|]. cbn. now split_and!.
Qed.

(** Every update [execute] sends while the child runs is marked as
    running, has the exit code -1 and a text that is not empty; without
    [onUpdate] no update is built at all. *)
Theorem execute_updates_are_partial
    params_prompt params_cwd ctx_cwd available signal onUpdate trace :
  let updates :=
    (execute' params_prompt params_cwd ctx_cwd available signal onUpdate
       trace).1 in
  (onUpdate = false -> updates = []) /\
  Forall (fun u =>
            nonempty (update_text u) = true /\
            Details.running (update_details u) = Some true /\
            Details.exitCode (update_details u) = (-1)%Z /\
            Details.tool (update_details u) = config_name config /\
            Details.prompt (update_details u) = trim params_prompt)
    updates.
Proof.
  cbn zeta. unfold execute.
  destruct (negb (nonempty (trim params_prompt))); [now split|].
  destruct (selectModel (config_pickModel config) available)
    as [selected|]; [|now split].
  cbn [fst].
  set (options := execute_options _ _ _ _ _ _ _ _).
  split.
  - intros ->.
    destruct (run_reducer_inv w options trace) as (_ & _ & _ & _ & Hoff).
    now rewrite (Hoff eq_refl).
  - apply Forall_app. split.
    + destruct onUpdate; repeat constructor.
    + apply Forall_forall. intros u Hu.
      apply list_elem_of_In, in_map_iff in Hu as (state & <- & _).
      unfold progress_update. cbn.
      split_and!; try reflexivity.
      now destruct (snap_text state).
Qed.

Lemma or_else_truthy a b :
  truthy (Some b) = true -> truthy (Some (or_else a b)) = true.
Proof.
  intros Hb. unfold or_else. destruct (truthy a) eqn:Ha; [|exact Hb].
  destruct a as [v|]; [exact Ha|discriminate].
Qed.

(** When the run returns, [execute] always has a text to show, "(no
    output)" at the least, and the [stderr] of its details is never an
    empty string. *)
Theorem execute_always_has_text prompt selected run :
  exists res,
    execute_result model_id model_provider config prompt selected
      (Returned run) = Some res /\
    truthy (Some (result_text res)) = true /\
    Details.stderr (result_details res) <> Some [] /\
    Details.running (result_details res) = Some false.
Proof.
  eexists. split; [reflexivity|]. cbn [result_text result_details
    Details.stderr Details.running].
  split_and!; [| |reflexivity].
  - destruct (_ || _ || _); repeat apply or_else_truthy; reflexivity.
  - destruct (trim (Result.stderr run)); cbn; congruence.
Qed.

(** A call whose signal has fired before [execute] is entered never
    reports success, and once the child has closed it reports the
    cancellation. *)
Theorem execute_of_a_cancelled_call
    params_prompt params_cwd ctx_cwd available onUpdate trace :
  let outcome :=
    (execute' params_prompt params_cwd ctx_cwd available (Some true) onUpdate
       trace).2 in
  (forall res, outcome = Some res ->
     result_isError res = true /\
     Details.exitCode (result_details res) = 1%Z) /\
  (forall selected,
     blank params_prompt = false ->
     selectModel (config_pickModel config) available = Some selected ->
     let options :=
       options_for (trim params_prompt) (default ctx_cwd params_cwd)
         selected (Some true) onUpdate in
     result (start w options) = Pending ->
     (exists code, ProcClose code ∈ trace) ->
     crashed (runSubagent w options trace) = false ->
     exists res,
       outcome = Some res /\
       result_text res = JStr abort_message /\
       Details.stopReason (result_details res) = Some (JStr (js "aborted")) /\
       Details.toolCalls (result_details res) = []).
Proof.
  cbn zeta. unfold execute. rewrite nonempty_trim_blank, negb_involutive.
  split.
  - intros res. destruct (blank params_prompt); [now intros [= <-]|].
    destruct (selectModel (config_pickModel config) available)
      as [selected|]; [|now intros [= <-]].
    cbn [snd]. set (options := execute_options _ _ _ _ _ _ _ _).
    destruct (result (runSubagent w options trace)) as [|r|message] eqn:Hres;
      cbn [execute_result]; [discriminate| |now intros [= <-]].
    exfalso.
    assert (Hp : result (start w options) = Pending)
      by (apply (run_started w options trace); right; now exists r).
    destruct (pre_aborted_doomed w options trace eq_refl Hp)
      as [_ [[_ Hr]|[_ Hr]]]; congruence.
  - intros selected -> -> Hp [code Hclose] Hcr. cbn [snd].
    set (options := execute_options _ _ _ _ _ _ _ _) in *.
    assert (Hs : settled (runSubagent w options trace) = true).
    { rewrite run_pending in * by exact Hp.
      now apply (fold_close_settles w options trace _ code). }
    destruct (pre_aborted_doomed w options trace eq_refl Hp)
      as [_ [[Hs' _]|[_ Hr]]]; [congruence|].
    rewrite Hr. cbn [execute_result]. rewrite abort_message_lowercase.
    eexists. split; [reflexivity|]. now split_and!.
Qed.

End ExecuteFacts.

End ToolFacts.

(** ** Closed runs *)

(** C1 as stated fails: the signal fires while the child runs, the child
    receives SIGTERM, exits and its streams close.  [runSubagent] then
    throws; it returns no result, with or without a stop reason. *)
Lemma C1_aborted_run_returns_no_result :
  let trace := [SignalAbort; ProcExit; ProcClose None] in
  alive (run_with_signal []) = true /\
  delivered (log (run_with_signal trace)) = [DoKill SIGTERM true] /\
  result (run_with_signal trace) = Threw abort_message /\
  ~ exists r, result (run_with_signal trace) = Returned r.
Proof.
  vm_compute. split_and!; try reflexivity. intros [r Hr]. discriminate.
Qed.

Lemma C1_witness :
  log (run_with_signal [SignalAbort])
  = log (run_with_signal []) ++ [DoKill SIGTERM true; DoSetTimeout 2000] /\
  result (run_with_signal [SignalAbort; ProcExit; ProcClose None])
  = Threw abort_message.
Proof.
  destruct (C1_abort_before_exit_sends_SIGTERM_and_throws
              (H := RefHost.host) (RefHost.calm Spawned)
              (RefHost.options_of "" (Some false)) [])
    as [Hlog Hpost]; try (vm_compute; reflexivity).
  split; [exact Hlog|].
  destruct (Hpost [ProcExit; ProcClose None]) as (_ & Hthrow & _).
  apply Hthrow; [|vm_compute; reflexivity].
  exists None. apply list_elem_of_further, list_elem_of_here.
Defined.

(** C2 as stated fails: the child has exited but its streams are still
    open when the signal fires.  The cancellation is no no-op then: the
    run that would have returned a result throws. *)
Lemma C2_abort_between_exit_and_close_throws :
  alive (run_with_signal [ProcExit]) = false /\
  (exists r, result (run_with_signal [ProcExit; ProcClose (Some 0%Z)])
             = Returned r) /\
  result (run_with_signal [ProcExit; SignalAbort; ProcClose (Some 0%Z)])
  = Threw abort_message.
Proof. vm_compute. split_and!; try reflexivity. now eexists. Qed.

Lemma C2_witness :
  let pre := [ProcExit; ProcClose (Some 0%Z)] in
  result (run_with_signal (pre ++ [SignalAbort; Elapse 2000]))
  = result (run_with_signal pre) /\
  resolves (log (run_with_signal (pre ++ [SignalAbort; Elapse 2000]))) = 1%nat.
Proof.
  intros pre. unfold run_with_signal.
  edestruct (C2_abort_after_close_changes_nothing
               (H := RefHost.host) (RefHost.calm Spawned)
               (RefHost.options_of "" (Some false)) pre)
    as (_ & _ & Hpost); [vm_compute; reflexivity|vm_compute; reflexivity|].
  destruct (Hpost [Elapse 2000]) as (Hres & Hcount & _).
  split; [|exact Hcount]. rewrite Hres. vm_compute. reflexivity.
Defined.

(** C3 fails on the code.  The signal fires while the child runs; the
    child ignores SIGTERM and is still running when the two seconds are
    over and long after.  The timer has fired, and the only signal the
    child ever received is the SIGTERM. *)
Lemma C3_grace_timer_sends_no_SIGKILL :
  let m := run_with_signal [SignalAbort; Elapse 2000; Elapse 60000] in
  alive m = true /\ timers m = [] /\ result m = Pending /\
  timers (run_with_signal [SignalAbort]) = [2000] /\
  delivered (log m) = [DoKill SIGTERM true].
Proof. vm_compute. split_and!; reflexivity. Qed.

(** C4 as stated fails: the child cannot be started and the caller's
    signal had already fired when [runSubagent] was called.  The run
    throws instead of returning the failure. *)
Lemma C4_spawn_failure_of_a_cancelled_run_throws :
  result (run_failing_spawn (Some true) [spawn_error; ProcClose (Some (-2)%Z)])
  = Threw abort_message.
Proof. vm_compute. reflexivity. Qed.

Lemma C4_witness :
  exists res,
    result (run_failing_spawn None [spawn_error; ProcClose (Some (-2)%Z)])
    = Returned res /\
    Result.exitCode res = 1%Z /\
    Result.errorMessage res = Some (JStr (js "spawn pi ENOENT")).
Proof.
  destruct (C4_spawn_failure_returns_exit_code_1
              (H := RefHost.host) (RefHost.calm SpawnFails)
              (RefHost.options_of "" None) []
              (js "Error") (js "spawn pi ENOENT"))
    as [_ Hpost]; try (vm_compute; reflexivity).
  destruct (Hpost [ProcClose (Some (-2)%Z)])
    as (res & Hres & Hcode & Hmsg & _).
  exists res. split_and!; assumption.
Defined.

(** C5 at the reference host: the text "ab", line feed, "c" cut after
    "a" and again before "c". *)
Lemma C5_witness :
  let datas := [[Byte.x61]; [Byte.x62; Byte.x0a]; [Byte.x63]] in
  let options := RefHost.options_of "" None in
  let m := start (H := RefHost.host) (RefHost.calm Spawned) options in
  let m' := fold_left (step (H := RefHost.host) (RefHost.calm Spawned) options)
              (List.map StdoutData datas) m in
  feed_all [] (List.map (Buffer_toString (Host := RefHost.host)) datas)
  = ([js "ab"], js "c") /\
  buffer m' = js "c".
Proof.
  intros datas options m m'.
  destruct (C5_framer_split_invariance (H := RefHost.host)
              (RefHost.calm Spawned) options datas)
    as (_ & _ & _ & _ & _ & Hrun & _).
  split; [vm_compute; reflexivity|].
  destruct (Hrun m) as (_ & _ & Hbuf);
    [vm_compute; reflexivity|vm_compute; reflexivity|].
  subst m'. rewrite Hbuf; vm_compute; reflexivity.
Defined.

Lemma C9_witness :
  let options := RefHost.options_of "be brief" None in
  let trace := [ProcExit; ProcClose (Some 0%Z)] in
  let dir := js "/tmp/pi-subagent-Ab3xYz" in
  let file := js "/tmp/pi-subagent-Ab3xYz/system-prompt.md" in
  List.filter is_cleanup
    (log (runSubagent (H := RefHost.host) (RefHost.calm Spawned) options trace))
  = [DoUnlink file true; DoRmdir dir true] /\
  result (runSubagent (H := RefHost.host) stubborn options trace)
  = result (runSubagent (H := RefHost.host) (RefHost.calm Spawned) options trace).
Proof.
  intros options trace dir file.
  destruct (C9_prompt_file_removed_on_every_exit_path
              (H := RefHost.host) (RefHost.calm Spawned) options dir trace)
    as (_ & _ & Hclean & Hsame); try (vm_compute; reflexivity).
  split.
  - apply Hclean. vm_compute. discriminate.
  - apply Hsame. unfold same_but_cleanup. now split_and!.
Defined.

(** C10 at the reference host: a user message whose content is the
    string "hello", as a line of its own, and then 'close'. *)
Lemma C10_witness :
  let user := JObj [(js "role", JStr (js "user"));
                    (js "content", JStr (js "hello"))] in
  let p := processLine (H := RefHost.host) true RefHost.line_user
             reducer_init in
  messages p.1 = [user] /\ p.2 = Normal /\ toolCalls p.1 = [] /\
  exists res,
    result (run_plain ([] ++ [StdoutData (RefHost.chunk_of RefHost.line_user);
                              ProcClose (Some 0%Z)]))
    = Returned res /\
    Result.messages res = [user].
Proof.
  intros user p.
  destruct (C10_messages_of_every_role_are_kept
              (H := RefHost.host) (RefHost.calm Spawned)
              (RefHost.options_of "" None) true RefHost.line_user
              user reducer_init)
    as (Hmessages & Hfields & _ & Hrun); [vm_compute; reflexivity|].
  assert (Hrole : get_prop user "role" <> Some (JStr (js "assistant")))
    by (vm_compute; discriminate).
  destruct (Hfields Hrole) as (Hnormal & Hcalls & _).
  split; [exact Hmessages|]. split; [exact Hnormal|]. split; [exact Hcalls|].
  destruct (Hrun Hrole [] (RefHost.chunk_of RefHost.line_user) (Some 0%Z))
    as (res & Hres & _ & Hm & _).
  1-4: vm_compute; reflexivity.
  - vm_compute. intros Hin.
    repeat (apply elem_of_cons in Hin as [Hin|Hin]; [discriminate|]).
    inversion Hin.
  - vm_compute. reflexivity.
  - exists res. split; [exact Hres|]. exact Hm.
Defined.

(** ** The scenario of the specification

    Task "list files", tools read and ls, no model; the child reports an
    assistant message with one call of ls and an assistant message with
    the text "Found 3 files." and the stop reason "end_turn", then exits
    with code 0. *)
Lemma end_to_end_scenario :
  let trace :=
    [StdoutData (RefHost.chunk_of RefHost.line_toolCall_no_id);
     StdoutData (RefHost.chunk_of RefHost.line_final);
     ProcExit; ProcClose (Some 0%Z)] in
  let m := runSubagent (H := RefHost.host) (RefHost.calm Spawned)
             (RefHost.options_of "" None) trace in
  exists res,
    result m = Returned res /\
    Result.exitCode res = 0%Z /\
    length (Result.toolCalls res) = 1%nat /\
    Result.finalText res = js "Found 3 files." /\
    Result.stopReason res = Some (JStr (js "end_turn")) /\
    Result.errorMessage res = None /\
    length (notified (red m)) = 2%nat.
Proof. eexists. vm_compute. split_and!; reflexivity. Qed.

(** An assistant message without content: the message is recorded, then
    [extractAssistantToolCalls] throws a TypeError inside the listener,
    and 'close' no longer settles the run. *)
Lemma assistant_message_without_content_throws :
  (processLine (H := RefHost.host) true RefHost.line_no_content
     reducer_init).2 = Uncaught /\
  let m := runSubagent (H := RefHost.host) (RefHost.calm Spawned)
             (RefHost.options_of "" None)
             [StdoutData (RefHost.chunk_of RefHost.line_no_content);
              ProcExit; ProcClose (Some 0%Z)] in
  crashed m = true /\ result m = Pending /\ length (messages (red m)) = 1%nat.
Proof. vm_compute. split_and!; reflexivity. Qed.

(** ** More closed runs: the facts above at the reference host *)

(** Two spaces before the line and a carriage return after it. *)
Lemma surrounding_whitespace_is_ignored_witness :
  processLine (H := RefHost.host) true
    (js "  " ++ RefHost.line_final ++ [13]) reducer_init
  = processLine (H := RefHost.host) true RefHost.line_final reducer_init.
Proof.
  exact (proj2 (surrounding_whitespace_is_ignored (H := RefHost.host) true
                  (js "  ") RefHost.line_final [13] reducer_init
                  eq_refl eq_refl)).
Defined.

(** An assistant message with a tool call whose name is an object
    with a member "toString", a text and a stop reason; and an assistant
    message without content. *)
Lemma assistant_content_decides_the_exception_witness :
  let p := processLine (H := RefHost.host) true RefHost.line_exotic_name
             reducer_init in
  p.2 = Uncaught /\ length (messages p.1) = 1%nat /\
  finalText p.1 = [] /\ stopReason p.1 = None /\ notified p.1 = [] /\
  processLine (H := RefHost.host) true RefHost.line_no_content reducer_init
  = (push_message (JObj [(js "role", JStr (js "assistant"))]) reducer_init,
     Uncaught).
Proof.
  intros p.
  pose (message :=
          default JNull (decode (H := RefHost.host) RefHost.line_exotic_name)).
  destruct (assistant_content_decides_the_exception (H := RefHost.host)
              true RefHost.line_exotic_name message reducer_init)
    as (Hiff & _ & Hun); [vm_compute; reflexivity|vm_compute; reflexivity|].
  fold p in Hiff, Hun.
  assert (Hthrows : p.2 = Uncaught).
  { destruct p.2; [|reflexivity].
    destruct Hiff as [Hiff _]. specialize (Hiff eq_refl).
    vm_compute in Hiff. discriminate. }
  destruct (Hun Hthrows) as (Hm & Hf & Hs & _ & _ & Hn).
  split; [exact Hthrows|]. split; [now rewrite Hm|].
  split; [exact Hf|]. split; [exact Hs|]. split; [exact Hn|].
  destruct (assistant_content_decides_the_exception (H := RefHost.host)
              true RefHost.line_no_content
              (JObj [(js "role", JStr (js "assistant"))]) reducer_init)
    as (_ & Hbad & _); [vm_compute; reflexivity|vm_compute; reflexivity|].
  apply Hbad. exact I.
Defined.

Lemma latest_truthy_field_wins_witness :
  let r' := (processLine (H := RefHost.host) true RefHost.line_final
               reducer_init).1 in
  stopReason r' = Some (JStr (js "end_turn")) /\ model r' = None.
Proof.
  destruct (latest_truthy_field_wins (H := RefHost.host) true
              RefHost.line_final message_final reducer_init)
    as (_ & Hs & _ & Hm).
  1-3: vm_compute; reflexivity.
  cbn zeta. split; [rewrite Hs|rewrite Hm]; vm_compute; reflexivity.
Defined.

Lemma progress_reported_iff_changed_witness :
  length (notified (processLine (H := RefHost.host) true RefHost.line_final
                      reducer_init).1) = 1%nat.
Proof.
  destruct (progress_reported_iff_changed (H := RefHost.host) true
              RefHost.line_final message_final reducer_init)
    as (text & Htext & Hn).
  1-3: vm_compute; reflexivity.
  vm_compute in Htext. injection Htext as <-.
  rewrite Hn. vm_compute. reflexivity.
Defined.

Lemma returned_record_is_well_formed_witness :
  exists res,
    result (run_plain [StdoutData (RefHost.chunk_of RefHost.line_toolCall);
                       StdoutData (RefHost.chunk_of RefHost.line_final);
                       ProcClose (Some 0%Z)])
    = Returned res /\
    well_formed_result (H := RefHost.host) res.
Proof.
  eexists. split; [vm_compute; reflexivity|].
  apply (returned_record_is_well_formed (H := RefHost.host)
           (RefHost.calm Spawned) (RefHost.options_of "" None)
           [StdoutData (RefHost.chunk_of RefHost.line_toolCall);
            StdoutData (RefHost.chunk_of RefHost.line_final);
            ProcClose (Some 0%Z)]).
  vm_compute. reflexivity.
Defined.

(** A message and an 'error' event that arrive after the child has
    closed. *)
Lemma outcome_is_final_witness :
  result (run_plain ([ProcClose (Some 0%Z)] ++
                     [StdoutData (RefHost.chunk_of RefHost.line_final);
                      spawn_error]))
  = result (run_plain [ProcClose (Some 0%Z)]).
Proof.
  apply (outcome_is_final (H := RefHost.host)). vm_compute. discriminate.
Defined.

(** The child is ended by a signal: the exit code is [null]. *)
Lemma close_returns_what_was_read_witness :
  exists res,
    result (run_plain ([StdoutData (RefHost.chunk_of RefHost.line_final)] ++
                       ProcClose None :: [ProcExit]))
    = Returned res /\
    Result.exitCode res = 0%Z /\
    Result.finalText res = js "Found 3 files.".
Proof.
  eexists. split.
  - apply (close_returns_what_was_read (H := RefHost.host)
             (RefHost.calm Spawned) (RefHost.options_of "" None)
             [StdoutData (RefHost.chunk_of RefHost.line_final)] None
             [ProcExit]); vm_compute; reflexivity.
  - vm_compute. split; reflexivity.
Defined.

Lemma stderr_collects_the_child_output_witness :
  stderr (run_plain [StderrData (RefHost.bytes "warn: "); spawn_error])
  = js "warn: Error: spawn pi ENOENT".
Proof.
  etransitivity.
  - apply (stderr_collects_the_child_output (H := RefHost.host));
      vm_compute; reflexivity.
  - vm_compute. reflexivity.
Defined.

(** A system prompt of two spaces and a line feed. *)
Lemma blank_prompt_touches_no_file_witness :
  let m := runSubagent (H := RefHost.host) (RefHost.calm Spawned)
             (RefHost.options_of "  
" None) [ProcClose (Some 0%Z)] in
  promptFile m = None /\
  Forall (fun a => is_create a = false /\ is_cleanup a = false) (log m).
Proof.
  apply (blank_prompt_touches_no_file (H := RefHost.host)).
  vm_compute. reflexivity.
Defined.

Lemma failed_write_leaves_the_directory_witness :
  let m := runSubagent (H := RefHost.host) read_only_tmp
             (RefHost.options_of "be brief" None) [ProcClose (Some 0%Z)] in
  result m = Threw (js "EACCES") /\
  log m = [DoMkdtemp (js "/tmp/pi-subagent-Ab3xYz")].
Proof.
  apply (failed_write_leaves_the_directory (H := RefHost.host) read_only_tmp
           (RefHost.options_of "be brief" None)
           (js "/tmp/pi-subagent-Ab3xYz") (js "EACCES"));
    vm_compute; reflexivity.
Defined.


Lemma pre_aborted_run_never_returns_witness :
  let options := RefHost.options_of "" (Some true) in
  delivered (log (start (H := RefHost.host) (RefHost.calm Spawned) options))
  = [DoKill SIGTERM true] /\
  forall r,
    result (runSubagent (H := RefHost.host) (RefHost.calm Spawned) options
              [ProcExit; ProcClose None]) <> Returned r.
Proof.
  intros options.
  destruct (pre_aborted_run_never_returns (H := RefHost.host)
              (RefHost.calm Spawned) options [ProcExit; ProcClose None]
              eq_refl) as [Hsent Hnever].
  split; [apply Hsent; vm_compute; reflexivity|exact Hnever].
Defined.

(** The sample models and the lists of the tool [scout]: the second
    exact id names the second model, in another case. *)
Lemma pickModel_returns_a_requested_model_witness :
  config_pickModel scout_sample sample_models = Some haiku /\
  haiku ∈ sample_models.
Proof.
  assert (Hpick : config_pickModel scout_sample sample_models = Some haiku)
    by (vm_compute; reflexivity).
  split; [exact Hpick|].
  exact (proj1 (pickModel_returns_a_requested_model (H := RefHost.host)
                  sample_id sample_name sample_provider
                  sample_models _ _ haiku Hpick)).
Defined.

(** The pattern "gpt" occurs in the first model, the exact id names the
    second. *)
Lemma exact_id_beats_every_pattern_witness :
  pickModel (H := RefHost.host) sample_id sample_name sample_provider
    sample_models [js "claude-haiku-4-5"] [js "gpt"]
  = pickModel (H := RefHost.host) sample_id sample_name sample_provider
      sample_models [js "claude-haiku-4-5"] [].
Proof.
  destruct (exact_id_beats_every_pattern (H := RefHost.host)
              sample_id sample_name sample_provider
              sample_models [js "claude-haiku-4-5"] [js "gpt"]
              (js "claude-haiku-4-5") haiku)
    as (m & wanted' & H1 & H2 & _).
  - apply list_elem_of_here.
  - apply list_elem_of_further, list_elem_of_here.
  - vm_compute. reflexivity.
  - now rewrite H1, H2.
Defined.


(** [scout] asked to "find the parser", with white space around the
    prompt. *)
Lemma execute_refuses_or_runs_witness :
  exists selected,
    selected ∈ sample_models /\
    Options.task
      (execute_options sample_id sample_provider scout_sample
         (trim (js "  find the parser ")) (js "/work") selected None true)
    = js "find the parser".
Proof.
  destruct (execute_refuses_or_runs (H := RefHost.host)
              sample_id sample_provider scout_sample (RefHost.calm Spawned)
              (js "  find the parser ") None (js "/work") sample_models
              None true [])
    as [_ Hruns].
  - intros models m Hp.
    exact (pickModel_sound sample_id sample_name sample_provider
             models _ _ m Hp).
  - destruct (Hruns eq_refl) as (selected & Hin & Htask & _);
      [discriminate|].
    exists selected. split; [exact Hin|].
    cbn zeta in Htask. cbn [default] in Htask. rewrite Htask.
    vm_compute. reflexivity.
Defined.
